(** * OOXML editing and validation scripts: a shallow embedding

    The development follows the Python sources of the docx / pptx skills:

    - [validation/redlining.py]  (module [Redlining], over an ElementTree model)
    - [scripts/utilities.py] and [scripts/document.py]
                                 (modules [Dom], [Editor], [Docx], [Comments],
                                  over a minidom model)
    - [validation/base.py]       (modules [UniqueIds] and [Xsd])

    Part I holds the definitions, Part II the theorems. *)

From Stdlib Require Import String List ZArith Lia Bool Ascii.
From Stdlib Require Import DecimalString DecimalNat DecimalZ.
From stdpp Require Import base option list gmap strings.

Open Scope string_scope.
Open Scope list_scope.

(** ** Python built-ins used by the scripts *)

Module Py.

(** The one-character string "\n". *)
Definition nl : string := String (ascii_of_nat 10) EmptyString.

(** [sep.join(parts)]. *)
Definition join (sep : string) (parts : list string) : string :=
  String.concat sep parts.

(** [needle in hay] on strings. *)
Fixpoint contains (needle hay : string) : bool :=
  String.prefix needle hay ||
  match hay with
  | EmptyString => false
  | String _ rest => contains needle rest
  end.

(** [s.startswith(p)]. *)
Definition startswith (p s : string) : bool := String.prefix p s.

(** [str(n)] for an integer. *)
Definition str_of_Z (z : Z) : string := NilZero.string_of_int (Z.to_int z).

(** [str(n)] for a natural number (a line number, a length). *)
Definition str_of_nat (n : nat) : string := str_of_Z (Z.of_nat n).

(** [c.isspace()] on the ASCII range: space, \t, \n, \v, \f, \r and the
    separators 0x1c-0x1f. *)
Definition isspace (c : ascii) : bool :=
  let n := nat_of_ascii c in
  (n =? 32)%nat || ((9 <=? n)%nat && (n <=? 13)%nat)
  || ((28 <=? n)%nat && (n <=? 31)%nat).

Fixpoint lstrip (s : string) : string :=
  match s with
  | String c rest => if isspace c then lstrip rest else s
  | EmptyString => EmptyString
  end.

Fixpoint all_space (s : string) : bool :=
  match s with
  | EmptyString => true
  | String c rest => isspace c && all_space rest
  end.

Fixpoint rstrip (s : string) : string :=
  match s with
  | EmptyString => EmptyString
  | String c rest => if all_space s then EmptyString else String c (rstrip rest)
  end.

(** [s.strip()]. *)
Definition strip (s : string) : string := rstrip (lstrip s).

(** [int(s)]: surrounding blanks are dropped, then an optional sign and a
    non-empty run of decimal digits is read; anything else is the
    [ValueError] case ([None]). *)
Definition int_of_str (s : string) : option Z :=
  match strip s with
  | String "+"%char rest =>
      match NilZero.uint_of_string rest with
      | Some d => Some (Z.of_uint d)
      | None => None
      end
  | t => match NilZero.int_of_string t with
         | Some d => Some (Z.of_int d)
         | None => None
         end
  end.

(** First and last character of a non-empty string. *)
Definition first_char (s : string) : option ascii :=
  match s with String c _ => Some c | EmptyString => None end.

Fixpoint last_char (s : string) : option ascii :=
  match s with
  | EmptyString => None
  | String c EmptyString => Some c
  | String _ rest => last_char rest
  end.

(** [c.lower()] on the ASCII range. *)
Definition lower_ascii (c : ascii) : ascii :=
  let n := nat_of_ascii c in
  if (65 <=? n)%nat && (n <=? 90)%nat then ascii_of_nat (n + 32) else c.

Fixpoint lower (s : string) : string :=
  match s with
  | EmptyString => EmptyString
  | String c rest => String (lower_ascii c) (lower rest)
  end.

(** [s.split(sep)[-1]] for a one-character separator: what follows the last
    occurrence of [sep] (all of [s] when there is none). *)
Fixpoint after_last (sep : ascii) (s : string) : string :=
  match s with
  | EmptyString => EmptyString
  | String c rest =>
      if contains (String sep EmptyString) rest then after_last sep rest
      else if Ascii.eqb c sep then rest
      else s
  end.

(** Line ends as an XML parser reports them: "\r\n" and a lone "\r" are
    read as "\n". *)
Fixpoint normalize_eol (s : string) : string :=
  match s with
  | EmptyString => EmptyString
  | String c rest =>
      if Ascii.eqb c (ascii_of_nat 13)
      then match rest with
           | String c' rest' =>
               if Ascii.eqb c' (ascii_of_nat 10) then normalize_eol rest
               else String (ascii_of_nat 10) (normalize_eol rest)
           | EmptyString => String (ascii_of_nat 10) EmptyString
           end
      else String c (normalize_eol rest)
  end.

(** An attribute value as an XML parser reports it: line ends are
    normalized, then every tab and line feed is read as a space. *)
Fixpoint blanks_to_spaces (s : string) : string :=
  match s with
  | EmptyString => EmptyString
  | String c rest =>
      String (if Ascii.eqb c (ascii_of_nat 9) || Ascii.eqb c (ascii_of_nat 10)
              then " "%char else c)
             (blanks_to_spaces rest)
  end.

Definition normalize_attribute (s : string) : string :=
  blanks_to_spaces (normalize_eol s).

(** [f"{n:X}"] and [f"{n:08X}"] for a non-negative integer. *)
Definition hex_digit (d : N) : ascii :=
  if (d <? 10)%N then ascii_of_N (48 + d) else ascii_of_N (55 + d).

Fixpoint to_hex (fuel : nat) (n : N) (acc : string) : string :=
  match fuel with
  | O => acc
  | S fuel' =>
      let acc' := String (hex_digit (n mod 16)) acc in
      if (n / 16 =? 0)%N then acc' else to_hex fuel' (n / 16) acc'
  end.

Definition format_X (n : N) : string := to_hex (S (N.to_nat (N.log2 n))) n "".

Fixpoint zeros (k : nat) : string :=
  match k with O => "" | S k' => String "0" (zeros k') end.

Definition format_08X (n : N) : string :=
  let digits := format_X n in
  zeros (8 - String.length digits) +:+ digits.

(** [random.randint(a, b)] from the next value of the generator. *)
Definition randint (a b : N) (value : N) : N := (a + value mod (b - a + 1))%N.

End Py.

(** Characters of a decimal numeral, for the statements on [str] and [int]. *)
Definition is_digit (c : ascii) : bool :=
  (48 <=? nat_of_ascii c)%nat && (nat_of_ascii c <=? 57)%nat.

Fixpoint string_forall (P : ascii -> bool) (s : string) : bool :=
  match s with
  | EmptyString => true
  | String c rest => P c && string_forall P rest
  end.

Definition numeral_char (c : ascii) : bool :=
  is_digit c || Ascii.eqb c "-"%char.

(** * Part I: definitions *)

(** ** validation/redlining.py: the redlining validator

    The validator works on [xml.etree.ElementTree] trees: an element has a
    tag in Clark notation ("{namespace}local"), an attribute dictionary, a
    text, a tail and a list of child elements. *)

Module Redlining.

Inductive element : Type :=
  Element (tag : string) (attrib : gmap string string)
          (text : option string) (tail : option string)
          (children : list element).

Definition tag (e : element) : string :=
  match e with Element t _ _ _ _ => t end.
Definition attrib (e : element) : gmap string string :=
  match e with Element _ a _ _ _ => a end.
Definition text (e : element) : option string :=
  match e with Element _ _ x _ _ => x end.
Definition tail (e : element) : option string :=
  match e with Element _ _ _ x _ => x end.
Definition children (e : element) : list element :=
  match e with Element _ _ _ _ cs => cs end.

(** [self.namespaces["w"]] and the qualified names built from it. *)
Definition w_ns : string :=
  "http://schemas.openxmlformats.org/wordprocessingml/2006/main".
Definition w (local : string) : string := "{" +:+ w_ns +:+ "}" +:+ local.

Definition ins_tag : string := w "ins".
Definition del_tag : string := w "del".
Definition author_attr : string := w "author".
Definition deltext_tag : string := w "delText".
Definition t_tag : string := w "t".
Definition p_tag : string := w "p".

(** [elem.get(key)]. *)
Definition get (e : element) (key : string) : option string := attrib e !! key.

(** [root.iter()]: the element and its descendants in document order. *)
Fixpoint iter (e : element) : list element :=
  match e with
  | Element _ _ _ _ cs => e :: flat_map iter cs
  end.

(** [elem.findall(".//" + tag)]: the proper descendants with that tag, in
    document order. *)
Definition findall (e : element) (tg : string) : list element :=
  filter (fun x => tag x = tg) (flat_map iter (children e)).

(** [elem.get(author_attr) == "Claude"]. *)
Definition by_claude (e : element) : bool :=
  bool_decide (get e author_attr = Some "Claude").

Definition is_claude_ins (e : element) : bool :=
  bool_decide (tag e = ins_tag) && by_claude e.
Definition is_claude_del (e : element) : bool :=
  bool_decide (tag e = del_tag) && by_claude e.

(** *** _remove_claude_tracked_changes, first loop

    [for parent in root.iter()]: the children of [parent] that are w:ins
    elements by Claude are collected and removed from [parent]; the iterator
    then goes on into the children that are left. *)
Fixpoint remove_ins (parent : element) : element :=
  match parent with
  | Element tg a tx tl cs =>
      Element tg a tx tl
        (flat_map (fun child =>
                     if is_claude_ins child then []      (* parent.remove(elem) *)
                     else [remove_ins child])
                  cs)
  end.

(** *** second loop: unwrapping w:del *)

(** [for elem in del_elem.iter(): if elem.tag == deltext_tag: elem.tag = t_tag]. *)
Fixpoint retag (e : element) : element :=
  match e with
  | Element tg a tx tl cs =>
      Element (if bool_decide (tg = deltext_tag) then t_tag else tg)
              a tx tl (map retag cs)
  end.

(** [list.insert(i, x)] and removal of the element at a known position. *)
Definition list_insert_at {A} (i : nat) (x : A) (l : list A) : list A :=
  take i l ++ x :: drop i l.
Definition list_remove_at {A} (i : nat) (l : list A) : list A :=
  take i l ++ drop (S i) l.

(** [to_process]: the w:del children by Claude with their index in
    [list(parent)]. *)
Definition to_process (cs : list element) : list (element * nat) :=
  filter (fun ci => is_claude_del (fst ci)) (zip cs (seq 0 (length cs))).

(** One turn of [for del_elem, del_index in reversed(to_process)]: the tags
    below [del_elem] are converted, its children are inserted, last one
    first, at [del_index], and [del_elem], now behind them, is removed. *)
Definition unwrap_one (cs : list element) (di : element * nat) : list element :=
  let del_elem := retag (fst di) in
  let del_index := snd di in
  let moved := children del_elem in
  let cs' := fold_left (fun acc child => list_insert_at del_index child acc)
                       (rev moved) cs in
  list_remove_at (del_index + length moved) cs'.

Definition unwrap_children (cs : list element) : list element :=
  fold_left unwrap_one (rev (to_process cs)) cs.

(** [for parent in root.iter()]: the w:del children of [parent] are unwrapped
    in place, and the iterator goes on into the new children of [parent].
    The promoted children carry converted tags, so the recursion is not on
    a subterm; [fuel] bounds the depth still to visit. *)
Fixpoint unwrap_dels (fuel : nat) (parent : element) : element :=
  match fuel with
  | O => parent
  | S fuel' =>
      match parent with
      | Element tg a tx tl cs =>
          Element tg a tx tl (map (unwrap_dels fuel') (unwrap_children cs))
      end
  end.

Fixpoint height (e : element) : nat :=
  match e with
  | Element _ _ _ _ cs => S (list_max (map height cs))
  end.

Definition _remove_claude_tracked_changes (root : element) : element :=
  let root1 := remove_ins root in
  unwrap_dels (height root1) root1.

(** *** _extract_text_content *)

(** The text of one paragraph: the non-empty texts of the w:t elements
    below it, concatenated. *)
Definition paragraph_text (p_elem : element) : string :=
  let text_parts :=
    flat_map (fun t_elem =>
                match text t_elem with
                | Some s => if bool_decide (s = "") then [] else [s]
                | None => []
                end)
             (findall p_elem t_tag) in
  Py.join "" text_parts.

(** The [paragraphs] list: empty paragraphs are skipped. *)
Definition paragraphs (root : element) : list string :=
  filter (fun s => s <> "") (map paragraph_text (findall root p_tag)).

Definition _extract_text_content (root : element) : string :=
  Py.join Py.nl (paragraphs root).

(** *** validate *)

(** What opening and parsing a document part gives. *)
Inductive part : Type :=
  | Missing
  | Malformed
  | Parsed (root : element).

(** The files the validator reads: word/document.xml of the unpacked
    directory, and the original .docx (an archive that opens or not, and
    its word/document.xml). *)
Record files : Type := Files {
  modified_file : part;
  original_docx_opens : bool;
  original_file : part
}.

Definition validate (fs : files) : bool :=
  match modified_file fs with
  | Missing => false
  | modified =>
      let no_claude_changes :=
        match modified with
        | Parsed root =>
            let del_elements := findall root del_tag in
            let ins_elements := findall root ins_tag in
            let claude_del_elements := filter (fun e => by_claude e) del_elements in
            let claude_ins_elements := filter (fun e => by_claude e) ins_elements in
            bool_decide (claude_del_elements = []) &&
            bool_decide (claude_ins_elements = [])
        | _ => false
        end in
      if no_claude_changes then true
      else if negb (original_docx_opens fs) then false
      else
        match original_file fs with
        | Missing => false
        | original =>
            match modified, original with
            | Parsed modified_root, Parsed original_root =>
                let original_root' := _remove_claude_tracked_changes original_root in
                let modified_root' := _remove_claude_tracked_changes modified_root in
                let modified_text := _extract_text_content modified_root' in
                let original_text := _extract_text_content original_root' in
                if bool_decide (modified_text <> original_text) then false
                else true
            | _, _ => false
            end
        end
  end.

(** document.py, [Document.validate]: the redlining validator is built
    from the unpacked directory and the original archive alone; the author
    configured on the session is not handed to it. *)
Record session : Type := Session {
  author : string;
  session_files : files
}.

Definition session_redlining (s : session) : bool :=
  validate (session_files s).

(** *** The validator as the specification words it

    An editing session has an author; validation passes when the working
    copy has no region of that author, and otherwise compares the sequences
    of paragraph texts of the two reconstructed trees. *)
Definition by_author (author : string) (e : element) : bool :=
  bool_decide (get e author_attr = Some author).

Definition has_region_of (author : string) (root : element) : bool :=
  existsb (fun e => by_author author e)
          (findall root del_tag ++ findall root ins_tag).

(** "Remove that author's insertion regions entirely, and for that author's
    deletion regions, promote their children into the parent (converting
    deletion-text-leaves back to text-leaves)". [conv] says that the element
    lies in a promoted deletion region. *)
Fixpoint spec_reconstruct (author : string) (conv : bool) (e : element) : element :=
  match e with
  | Element tg a tx tl cs =>
      Element (if conv && bool_decide (tg = deltext_tag) then t_tag else tg)
        a tx tl
        (flat_map (fun c =>
            if bool_decide (tag c = ins_tag) && by_author author c then []
            else if bool_decide (tag c = del_tag) && by_author author c
            then children (spec_reconstruct author true c)
            else [spec_reconstruct author conv c])
           cs)
  end.

Definition spec_validate (author : string) (modified original : element) : bool :=
  if negb (has_region_of author modified) then true
  else bool_decide (paragraphs (spec_reconstruct author false modified)
                    = paragraphs (spec_reconstruct author false original)).

(** *** Notions used in the statements *)

(** The proper descendants of an element, in document order. *)
Definition descendants (e : element) : list element :=
  flat_map iter (children e).

(** What one child of [parent] becomes in the second loop. *)
Definition splice (c : element) : list element :=
  if is_claude_del c then children (retag c) else [c].

(** No w:ins and no w:del by Claude below the root. *)
Definition no_claude_region (root : element) : Prop :=
  forall e, e ∈ descendants root ->
            is_claude_ins e = false /\ is_claude_del e = false.

(** The string holds a line break. *)
Fixpoint has_nl (s : string) : bool :=
  match s with
  | EmptyString => false
  | String c rest => Ascii.eqb c (ascii_of_nat 10) || has_nl rest
  end.

(** [y] is what the second loop may leave of [x]: the same attributes, text
    and tail, and the same tag unless w:delText became w:t. *)
Definition same_but_retagged (x y : element) : Prop :=
  attrib y = attrib x /\ text y = text x /\ tail y = tail x /\
  (tag y = tag x \/ (tag x = deltext_tag /\ tag y = t_tag)).

(** [x] lies in the tree of [root] and not in (or at) an insertion by
    Claude below [root]. *)
Inductive outside_claude_ins (root : element) : element -> Prop :=
  | oci_root : outside_claude_ins root root
  | oci_child c x :
      c ∈ children root -> is_claude_ins c = false ->
      outside_claude_ins c x -> outside_claude_ins root x.

(** *** Concrete documents *)

Definition elem (local : string) (a : gmap string string)
    (cs : list element) : element :=
  Element (w local) a None None cs.
Definition w_t (s : string) : element := Element t_tag ∅ (Some s) None [].
Definition w_delText (s : string) : element :=
  Element deltext_tag ∅ (Some s) None [].
Definition w_r (s : string) : element := elem "r" ∅ [w_t s].
Definition authored (name : string) : gmap string string :=
  {[ author_attr := name ]}.
Definition document (paras : list element) : element :=
  elem "document" ∅ [elem "body" ∅ paras].

(** Baseline "Hello big world"; the working copy inserts "wonderful " and
    deletes "big ", both as tracked changes by Claude. *)
Definition hello_original : element :=
  document [elem "p" ∅ [w_r "Hello "; w_r "big "; w_r "world"]].
Definition hello_modified : element :=
  document [elem "p" ∅
    [w_r "Hello ";
     elem "ins" (authored "Claude") [w_r "wonderful "];
     elem "del" (authored "Claude") [elem "r" ∅ [w_delText "big "]];
     w_r "world"]].
Definition hello_files : files :=
  Files (Parsed hello_modified) true (Parsed hello_original).

(** A baseline with the paragraphs "a" and "b"; the working copy has the one
    paragraph "a\nb" and an inserted paragraph by Claude. *)
Definition lines_original : element :=
  document [elem "p" ∅ [w_r "a"]; elem "p" ∅ [w_r "b"]].
Definition lines_modified : element :=
  document [elem "p" ∅ [w_r ("a" +:+ Py.nl +:+ "b")];
            elem "ins" (authored "Claude") [elem "p" ∅ [w_r "new"]]].
Definition lines_files : files :=
  Files (Parsed lines_modified) true (Parsed lines_original).

(** A session of author "X": one tracked insertion by X, and the last run
    edited in place. *)
Definition x_original : element :=
  document [elem "p" ∅ [w_r "Hello "; w_r "world"]].
Definition x_modified : element :=
  document [elem "p" ∅
    [w_r "Hello ";
     elem "ins" (authored "X") [w_r "wonderful "];
     w_r "world!!"]].
Definition x_session : session :=
  Session "X" (Files (Parsed x_modified) true (Parsed x_original)).

End Redlining.

(** ** The minidom trees of scripts/utilities.py and scripts/document.py

    A document is a tree of element, text and comment nodes below the
    Document node. The Document node is written as an element named
    "#document" (its [nodeName]); a node is referred to by the path of child
    indices leading to it from the Document node. *)

Module Dom.

Inductive node : Type :=
  | Element (tagName : string) (attributes : gmap string string)
            (parse_position : option (nat * nat)) (childNodes : list node)
  | Text (data : string)
  | Comment (data : string).

Definition path : Type := list nat.

Definition document (children : list node) : node :=
  Element "#document" ∅ None children.

Definition childNodes (n : node) : list node :=
  match n with Element _ _ _ cs => cs | _ => [] end.

Definition nodeName (n : node) : string :=
  match n with
  | Element t _ _ _ => t
  | Text _ => "#text"
  | Comment _ => "#comment"
  end.

Definition attributes (n : node) : gmap string string :=
  match n with Element _ a _ _ => a | _ => ∅ end.

Definition parse_position (n : node) : option (nat * nat) :=
  match n with Element _ _ pos _ => pos | _ => None end.

Definition is_element (n : node) : bool :=
  match n with Element _ _ _ _ => true | _ => false end.

Definition is_text (n : node) : bool :=
  match n with Text _ => true | _ => false end.

(** [elem.getAttribute(name)]: "" when the attribute is absent. *)
Definition getAttribute (n : node) (name : string) : string :=
  default "" (attributes n !! name).

Definition hasAttribute (n : node) (name : string) : bool :=
  bool_decide (is_Some (attributes n !! name)).

Definition setAttribute (name value : string) (n : node) : node :=
  match n with
  | Element t a pos cs => Element t (<[ name := value ]> a) pos cs
  | _ => n
  end.

Definition removeAttribute (name : string) (n : node) : node :=
  match n with
  | Element t a pos cs => Element t (delete name a) pos cs
  | _ => n
  end.

Definition set_children (cs : list node) (n : node) : node :=
  match n with
  | Element t a pos _ => Element t a pos cs
  | _ => n
  end.

(** [doc.createElement(name)]. *)
Definition createElement (name : string) : node := Element name ∅ None [].

(** The node a path refers to. *)
Fixpoint node_at (d : node) (p : path) : option node :=
  match p with
  | [] => Some d
  | i :: rest =>
      match childNodes d !! i with
      | Some c => node_at c rest
      | None => None
      end
  end.

(** In-place change of the node a path refers to. *)
Fixpoint update_at (p : path) (f : node -> node) (d : node) : node :=
  match p with
  | [] => f d
  | i :: rest =>
      match d with
      | Element t a pos cs => Element t a pos (alter (update_at rest f) i cs)
      | _ => d
      end
  end.

(** [parentNode] and the index among its children. *)
Definition parent_of (p : path) : option (path * nat) :=
  match reverse p with
  | [] => None
  | i :: rev_parent => Some (reverse rev_parent, i)
  end.

(** [name] as [getElementsByTagName] matches it. *)
Definition tag_matches (name tag : string) : bool :=
  bool_decide (name = "*") || bool_decide (tag = name).

(** [flat_map] with the index of each element. *)
Fixpoint flat_mapi {A B} (f : nat -> A -> list B) (i : nat) (l : list A)
    : list B :=
  match l with
  | [] => []
  | x :: rest => f i x ++ flat_mapi f (S i) rest
  end.

Definition below (i : nat) (q : path * node) : path * node :=
  (i :: fst q, snd q).

(** The elements below [n] in document order, each with its path from [n]. *)
Fixpoint descendant_elements (n : node) : list (path * node) :=
  match n with
  | Element _ _ _ cs =>
      flat_mapi (fun i c =>
                   if is_element c
                   then ([i], c) :: map (below i) (descendant_elements c)
                   else [])
                0 cs
  | _ => []
  end.

(** [n.getElementsByTagName(name)]: the elements below [n] with that tag,
    in document order. *)
Definition getElementsByTagName (n : node) (name : string)
    : list (path * node) :=
  filter (fun q => tag_matches name (nodeName (snd q))) (descendant_elements n).

(** The same from the node at [p], with paths from the Document node. *)
Definition elements_below (d : node) (p : path) (name : string)
    : list (path * node) :=
  match node_at d p with
  | Some n => map (fun q => (p ++ fst q, snd q)) (getElementsByTagName n name)
  | None => []
  end.

(** [doc.documentElement]: the first element child of the Document node. *)
Fixpoint first_element (i : nat) (l : list node) : option path :=
  match l with
  | [] => None
  | Element _ _ _ _ :: _ => Some [i]
  | _ :: rest => first_element (S i) rest
  end.

Definition documentElement (d : node) : option path :=
  first_element 0 (childNodes d).

(** The data of all text nodes below a node, concatenated. *)
Fixpoint text_content (n : node) : string :=
  match n with
  | Element _ _ _ cs => Py.join "" (map text_content cs)
  | Text s => s
  | Comment _ => ""
  end.

(** *** Notions used in the statements *)

(** [n'] is [n] with attributes added: the same tree, and every attribute
    of [n] is in [n'] with its value. *)
Inductive ext : node -> node -> Prop :=
  | ext_element t a a' pos cs cs' :
      a ⊆ a' -> Forall2 ext cs cs' ->
      ext (Element t a pos cs) (Element t a' pos cs')
  | ext_text s : ext (Text s) (Text s)
  | ext_comment s : ext (Comment s) (Comment s).

(** Two lists of elements with paths: the same paths, and the nodes differ
    by added attributes. *)
Definition ext_listed (l l' : list (path * node)) : Prop :=
  Forall2 (fun x y => fst x = fst y /\ ext (snd x) (snd y)) l l'.

(** The node at [p] is an element with the attribute [name]. *)
Definition has_at (d : node) (p : path) (name : string) : Prop :=
  exists n, node_at d p = Some n /\ is_element n = true
            /\ hasAttribute n name = true.

(** The node at [p] is an element. *)
Definition is_element_at (d : node) (p : path) : Prop :=
  exists n, node_at d p = Some n /\ is_element n = true.

End Dom.

(** ** scripts/utilities.py: XMLEditor *)

Module Editor.
Import Dom.

(** *** Exceptions, state and the monad of the editor methods *)

Inductive exn : Type :=
  | ValueError (message : string)
  | AssertionError (message : string)
  | HierarchyRequestErr (message : string)
  | AttributeError (message : string)
  | ExpatError (message : string)
  (** a path that refers to no node: no Python value corresponds to it *)
  | StaleReference
  (** a run that the model does not follow; the message says which *)
  | NotModelled (what : string).

(** The tree an editor holds, and how often the clock and the random
    generator have been read. *)
Record state : Type := State {
  dom : node;
  ticks : nat;
  draws : nat
}.

Definition M (A : Type) : Type := state -> (exn + A) * state.

Definition ret {A} (a : A) : M A := fun s => (inr a, s).
Definition raise {A} (e : exn) : M A := fun s => (inl e, s).
Definition bind {A B} (m : M A) (k : A -> M B) : M B :=
  fun s =>
    match m s with
    | (inl e, s') => (inl e, s')
    | (inr a, s') => k a s'
    end.

#[global] Instance M_ret : MRet M := @ret.
#[global] Instance M_bind : MBind M := fun A B k m => bind m k.

Definition get_dom : M node := fun s => (inr (dom s), s).
Definition modify_dom (f : node -> node) : M unit :=
  fun s => (inr tt, State (f (dom s)) (ticks s) (draws s)).

Fixpoint for_each {A} (l : list A) (body : A -> M unit) : M unit :=
  match l with
  | [] => ret tt
  | x :: rest => body x ;; for_each rest body
  end.

(** The node a reference denotes. *)
Definition deref (p : path) : M node :=
  d ← get_dom;
  match node_at d p with
  | Some n => ret n
  | None => raise StaleReference
  end.

(** *** get_node *)

(** [line_number]: an int, or a range. *)
Inductive line_filter : Type :=
  | Line (n : Z)
  | Lines (start stop step : Z).

(** [x in range(start, stop, step)]. *)
Definition in_range (start stop step x : Z) : bool :=
  if (0 <? step)%Z
  then (start <=? x)%Z && (x <? stop)%Z && ((x - start) mod step =? 0)%Z
  else if (step <? 0)%Z
  then (stop <? x)%Z && (x <=? start)%Z && ((start - x) mod (- step) =? 0)%Z
  else false.

(** [elem_line in line_number] / [elem_line == line_number]; an element
    without [parse_position] has the line [None]. *)
Definition line_matches (lf : line_filter) (elem : node) : bool :=
  match parse_position elem with
  | None => false
  | Some (line, _) =>
      match lf with
      | Line n => (Z.of_nat line =? n)%Z
      | Lines start stop step => in_range start stop step (Z.of_nat line)
      end
  end.

(** Truth value of [line_number]: a non-zero int, a non-empty range. *)
Definition line_truthy (lf : line_filter) : bool :=
  match lf with
  | Line n => negb (n =? 0)%Z
  | Lines start stop step =>
      if (0 <? step)%Z then (start <? stop)%Z
      else if (step <? 0)%Z then (stop <? start)%Z
      else false
  end.

(** [_get_element_text]: the text nodes below [elem] that are not blank,
    concatenated. *)
Fixpoint _get_element_text (elem : node) : string :=
  match elem with
  | Element _ _ _ cs =>
      Py.join ""
        (flat_map (fun n =>
                     match n with
                     | Text data =>
                         if bool_decide (Py.strip data = "") then [] else [data]
                     | Element _ _ _ _ => [_get_element_text n]
                     | Comment _ => []
                     end) cs)
  | _ => ""
  end.

(** [repr] of a str: quoted with ', or with the double quote when the string
    holds a ' and no double quote; backslash, the quote in use, \n, \r and \t
    are escaped. (Other control characters, which [repr] writes as \xNN,
    are left as they are.) *)
Definition dquote : ascii := ascii_of_nat 34.

Fixpoint has_char (c : ascii) (s : string) : bool :=
  match s with
  | EmptyString => false
  | String c' rest => Ascii.eqb c c' || has_char c rest
  end.

Fixpoint escape (quote : ascii) (s : string) : string :=
  match s with
  | EmptyString => EmptyString
  | String c rest =>
      (if Ascii.eqb c "\"%char then "\\"
       else if Ascii.eqb c quote then String "\"%char (String c "")
       else if Ascii.eqb c (ascii_of_nat 10) then "\n"
       else if Ascii.eqb c (ascii_of_nat 13) then "\r"
       else if Ascii.eqb c (ascii_of_nat 9) then "\t"
       else String c "") +:+ escape quote rest
  end.

Definition repr_str (s : string) : string :=
  let quote := if has_char "'"%char s && negb (has_char dquote s) then dquote
               else "'"%char in
  String quote (escape quote s +:+ String quote "").

(** [repr] of a dict of str, the keys in insertion order. *)
Definition repr_dict (items : list (string * string)) : string :=
  "{" +:+ Py.join ", " (map (fun kv => repr_str (fst kv) +:+ ": " +:+ repr_str (snd kv)) items)
  +:+ "}".

Definition hint_contains : string :=
  "テキストが複数要素に分割されているか、表現が異なる可能性があります。".
Definition hint_line_number : string :=
  "ドキュメントが変更されている場合、行番号が変わっている可能性があります。".
Definition hint_attrs : string :=
  "属性値が正しいか確認してください。".
Definition hint_add_filters : string :=
  "フィルタ（attrs/line_number/contains）を追加してみてください。".
Definition hint_multiple : string :=
  "絞り込みのためにフィルタ（attrs/line_number/contains）を追加してください。".

Section GetNode.

(** [html.unescape]. *)
Variable html_unescape : string -> string.

(** The three filters of the loop body. *)
Definition passes_filters (attrs : option (list (string * string)))
    (line_number : option line_filter) (contains : option string)
    (elem : node) : bool :=
  match line_number with
  | Some lf => line_matches lf elem
  | None => true
  end
  && match attrs with
     | Some items =>
         forallb (fun kv => bool_decide (getAttribute elem (fst kv) = snd kv)) items
     | None => true
     end
  && match contains with
     | Some text => Py.contains (html_unescape text) (_get_element_text elem)
     | None => true
     end.

(** The descriptions of the filters in use. *)
Definition filter_descriptions (attrs : option (list (string * string)))
    (line_number : option line_filter) (contains : option string)
    : list string :=
  match line_number with
  | Some (Lines start stop _) =>
      ["at lines " +:+ Py.str_of_Z start +:+ "-" +:+ Py.str_of_Z (stop - 1)]
  | Some (Line n) => ["at line " +:+ Py.str_of_Z n]
  | None => []
  end
  ++ match attrs with
     | Some items => ["with attributes " +:+ repr_dict items]
     | None => []
     end
  ++ match contains with
     | Some text => ["containing '" +:+ text +:+ "'"]
     | None => []
     end.

Definition not_found_hint (attrs : option (list (string * string)))
    (line_number : option line_filter) (contains : option string) : string :=
  if match contains with Some text => negb (bool_decide (text = "")) | None => false end
  then hint_contains
  else if match line_number with Some lf => line_truthy lf | None => false end
  then hint_line_number
  else if match attrs with Some (_ :: _) => true | _ => false end
  then hint_attrs
  else hint_add_filters.

Definition not_found_message (tag : string)
    (attrs : option (list (string * string)))
    (line_number : option line_filter) (contains : option string) : string :=
  let filters := filter_descriptions attrs line_number contains in
  let filter_desc := Py.join " " filters in
  let base_msg := Py.strip ("Node not found: <" +:+ tag +:+ "> " +:+ filter_desc) in
  base_msg +:+ ". " +:+ not_found_hint attrs line_number contains.

Definition multiple_message (tag : string) : string :=
  "Multiple nodes found: <" +:+ tag +:+ ">. " +:+ hint_multiple.

(** [get_node] on the tree [d]: the reference of the one match. *)
Definition get_node_in (d : node) (tag : string)
    (attrs : option (list (string * string)))
    (line_number : option line_filter) (contains : option string)
    : exn + path :=
  let matches :=
    filter (fun pe => passes_filters attrs line_number contains (snd pe))
           (getElementsByTagName d tag) in
  match matches with
  | [] => inl (ValueError (not_found_message tag attrs line_number contains))
  | [m] => inr (fst m)
  | _ :: _ :: _ => inl (ValueError (multiple_message tag))
  end.

Definition get_node (tag : string) (attrs : option (list (string * string)))
    (line_number : option line_filter) (contains : option string) : M path :=
  d ← get_dom;
  match get_node_in d tag attrs line_number contains with
  | inl e => raise e
  | inr p => ret p
  end.

End GetNode.

(** *** Fragments and the mutation primitives *)

(** [dom.importNode(child, deep=True)]: a copy in this document; the copy
    carries no [parse_position]. *)
Fixpoint importNode (n : node) : node :=
  match n with
  | Element t a _ cs => Element t a None (map importNode cs)
  | _ => n
  end.

(** [_parse_fragment(xml_content)], from the child nodes that the wrapper
    element around [xml_content] parses to. *)
Definition _parse_fragment (parsed : list node) : M (list node) :=
  let nodes := map importNode parsed in
  let elements := filter (fun n => is_element n) nodes in
  match elements with
  | [] => raise (AssertionError "Fragment must contain at least one element")
  | _ => ret nodes
  end.

(** What [Node.insertBefore] and [appendChild] accept below a parent: the
    Document node takes no text node. *)
Definition allowed_child (parent : path) (n : node) : bool :=
  match parent with
  | [] => negb (is_text n)
  | _ => true
  end.

Definition list_insert_at {A} (i : nat) (x : A) (l : list A) : list A :=
  take i l ++ x :: drop i l.
Definition list_remove_at {A} (i : nat) (l : list A) : list A :=
  take i l ++ drop (S i) l.

(** [parent.insertBefore(new, ref)] with [ref] the child at [index]. *)
Definition insertBefore (parent : path) (index : nat) (new : node) : M unit :=
  if allowed_child parent new
  then modify_dom (update_at parent
         (fun n => set_children (list_insert_at index new (childNodes n)) n))
  else raise (HierarchyRequestErr "node cannot be child of parent").

(** [parent.appendChild(new)]; a text node or a comment takes no child, the
    Document node takes one element only. *)
Definition appendChild (parent : path) (new : node) : M unit :=
  p ← deref parent;
  if negb (is_element p)
  then raise (HierarchyRequestErr (nodeName p +:+ " nodes cannot have children"))
  else if negb (allowed_child parent new)
  then raise (HierarchyRequestErr "node cannot be child of parent")
  else if match parent with [] => true | _ => false end
          && is_element new
          && bool_decide (is_Some (documentElement p))
  then raise (HierarchyRequestErr "two document elements disallowed")
  else modify_dom (update_at parent
         (fun n => set_children (childNodes n ++ [new]) n)).

Definition removeChild (parent : path) (index : nat) : M unit :=
  modify_dom (update_at parent
    (fun n => set_children (list_remove_at index (childNodes n)) n)).

(** [for node in nodes: parent.insertBefore(node, ref)]: [ref] moves on by
    one with every insertion. *)
Fixpoint insert_all_before (parent : path) (index : nat) (nodes : list node)
    : M unit :=
  match nodes with
  | [] => ret tt
  | n :: rest =>
      insertBefore parent index n ;; insert_all_before parent (S index) rest
  end.

(** The references of [count] nodes that now start at [index] below
    [parent]. *)
Definition refs_from (parent : path) (index count : nat) : list path :=
  map (fun k => parent ++ [k]) (seq index count).

Definition replace_node (elem : path) (parsed : list node) : M (list path) :=
  match parent_of elem with
  | None => raise (AttributeError "'NoneType' object has no attribute 'insertBefore'")
  | Some (parent, i) =>
      deref elem ;;
      nodes ← _parse_fragment parsed;
      insert_all_before parent i nodes ;;
      removeChild parent (i + length nodes) ;;
      ret (refs_from parent i (length nodes))
  end.

Definition insert_after (elem : path) (parsed : list node) : M (list path) :=
  match parent_of elem with
  | None => raise (AttributeError "'NoneType' object has no attribute 'insertBefore'")
  | Some (parent, i) =>
      deref elem ;;
      p ← deref parent;
      let next_sibling := childNodes p !! S i in
      nodes ← _parse_fragment parsed;
      match next_sibling with
      | Some _ => insert_all_before parent (S i) nodes
      | None => for_each nodes (appendChild parent)
      end ;;
      ret (refs_from parent (S i) (length nodes))
  end.

Definition insert_before (elem : path) (parsed : list node) : M (list path) :=
  match parent_of elem with
  | None => raise (AttributeError "'NoneType' object has no attribute 'insertBefore'")
  | Some (parent, i) =>
      deref elem ;;
      nodes ← _parse_fragment parsed;
      insert_all_before parent i nodes ;;
      ret (refs_from parent i (length nodes))
  end.

Definition append_to (elem : path) (parsed : list node) : M (list path) :=
  e ← deref elem;
  nodes ← _parse_fragment parsed;
  for_each nodes (appendChild elem) ;;
  ret (refs_from elem (length (childNodes e)) (length nodes)).

(** *** Notions used in the statements *)

(** A computation that only adds attributes to the tree. *)
Definition extends {A} (m : M A) : Prop :=
  forall s, ext (dom s) (dom (snd (m s))).

(** A computation that only adds attributes, and that changes nothing once
    [D] holds of the tree; [D] holds after a run that returns, and still
    holds when more attributes are added. *)
Definition settles (m : M unit) (D : node -> Prop) : Prop :=
  extends m
  /\ (forall s, fst (m s) = inr tt -> D (dom (snd (m s))))
  /\ (forall d d', ext d d' -> D d -> D d')
  /\ (forall s, D (dom s) -> m s = (inr tt, s)).

(** A computation that leaves the attributes of every node as they are,
    but for the document element and the nodes at the paths of [inside]. *)
Definition confined {A} (m : M A) (inside : path -> Prop) : Prop :=
  forall s p, ~ inside p -> documentElement (dom s) <> Some p ->
    attributes <$> node_at (dom (snd (m s))) p
    = attributes <$> node_at (dom s) p.

(** A computation that returns whenever [pre] holds of the tree. *)
Definition returns {A} (m : M A) (pre : node -> Prop) : Prop :=
  forall s, pre (dom s) -> exists a, fst (m s) = inr a.

(** *** A concrete document *)

Definition run (line : nat) (rsid text : string) : node :=
  Element "w:r" {[ "w:rsidR" := rsid ]} (Some (line, 6))
    [Element "w:t" ∅ (Some (line, 24)) [Text text]].

(** A paragraph of two runs of one editing session. *)
Definition two_runs : node :=
  document
    [Element "w:document" ∅ (Some (1, 0))
       [Element "w:body" ∅ (Some (2, 2))
          [Element "w:p" ∅ (Some (3, 4))
             [run 4 "00AB12CD" "Hello "; run 5 "00AB12CD" "world"]]]].

Definition same_session : list (string * string) := [("w:rsidR", "00AB12CD")].

End Editor.

(** ** scripts/document.py: DocxXMLEditor *)

Module Docx.
Import Dom Editor.

(** What an editor is built with, and the two sources of values outside the
    program: the clock ([datetime.now], already formatted) and the random
    generator ([random] gives its n-th value). *)
Record config : Type := Config {
  rsid : string;
  author : string;
  initials : string;
  clock : nat -> string;
  random : nat -> N
}.

(** [list(elem.getElementsByTagName(from))] replaced one by one by a new
    element named [to] with the same attributes and child nodes: every
    element named [from] is renamed, and the new element has no
    [parse_position]. [rename_all] includes [n] itself, [rename_below] only
    what is below it. *)
Fixpoint rename_all (from to : string) (n : node) : node :=
  match n with
  | Element t a pos cs =>
      if bool_decide (t = from)
      then Element to a None (map (rename_all from to) cs)
      else Element t a pos (map (rename_all from to) cs)
  | _ => n
  end.

Definition rename_below (from to : string) (n : node) : node :=
  set_children (map (rename_all from to) (childNodes n)) n.

(** [node.cloneNode(True)]: the copy carries no [parse_position]. *)
Definition cloneNode (n : node) : node := importNode n.

(** What serialising a node with [toxml] and parsing the text again gives
    (in a document whose root element declares the prefixes in use):
    neighbouring text nodes become one, an empty text node disappears, line
    ends in text and comments are normalized, and so are the blanks of
    attribute values, which [toxml] writes as they are. *)
Fixpoint merge_text (l : list node) : list node :=
  match l with
  | [] => []
  | Text a :: rest =>
      match merge_text rest with
      | Text b :: rest' => Text (a +:+ b) :: rest'
      | rest' => if bool_decide (a = "") then rest' else Text a :: rest'
      end
  | n :: rest => n :: merge_text rest
  end.

Definition reparse_data (n : node) : node :=
  match n with
  | Text s => Text (Py.normalize_eol s)
  | Comment s => Comment (Py.normalize_eol s)
  | _ => n
  end.

Fixpoint reparse (n : node) : node :=
  match n with
  | Element t a _ cs =>
      Element t (Py.normalize_attribute <$> a) None
        (map reparse_data (merge_text (map reparse cs)))
  | _ => n
  end.

(** [_get_next_change_id]. *)
Definition change_ids (d : node) : list Z :=
  flat_map (fun tag =>
    flat_map (fun pe =>
                let change_id := getAttribute (snd pe) "w:id" in
                if bool_decide (change_id = "") then []
                else match Py.int_of_str change_id with
                     | Some n => [n]
                     | None => []
                     end)
             (getElementsByTagName d tag))
    ["w:ins"; "w:del"].

Definition _get_next_change_id (d : node) : Z :=
  (fold_left Z.max (change_ids d) (-1) + 1)%Z.

(** [is_inside_deletion(elem)]: some ancestor is a w:del element. *)
Definition is_inside_deletion (d : node) (elem : path) : bool :=
  existsb (fun k =>
             match node_at d (take k elem) with
             | Some (Element t _ _ _) => bool_decide (t = "w:del")
             | _ => false
             end)
          (seq 0 (length elem)).

Section WithConfig.

Variable cfg : config.

(** [f"{random.randint(1, 0x7FFFFFFE):08X}"]. *)
Definition _generate_hex_id : M string :=
  fun s => (inr (Py.format_08X (Py.randint 1 0x7FFFFFFE (random cfg (draws s)))),
            State (dom s) (ticks s) (S (draws s))).

(** [datetime.now(timezone.utc).strftime(...)]. *)
Definition now : M string :=
  fun s => (inr (clock cfg (ticks s)), State (dom s) (S (ticks s)) (draws s)).

Definition setAttr (elem : path) (name value : string) : M unit :=
  modify_dom (update_at elem (setAttribute name value)).

(** The receiver of [hasAttribute]: only an element has the method. *)
Definition element_at (elem : path) : M node :=
  e ← deref elem;
  if is_element e then ret e
  else raise (AttributeError "object has no attribute 'hasAttribute'").

(** [if not elem.hasAttribute(name): elem.setAttribute(name, value)]. *)
Definition set_if_absent (elem : path) (name value : string) : M unit :=
  e ← element_at elem;
  if hasAttribute e name then ret tt else setAttr elem name value.

(** [_ensure_w16du_namespace] and its two siblings. *)
Definition _ensure_namespace (name uri : string) : M unit :=
  d ← get_dom;
  match documentElement d with
  | None => raise (AttributeError "'NoneType' object has no attribute 'hasAttribute'")
  | Some root => set_if_absent root name uri
  end.

Definition _ensure_w16du_namespace : M unit :=
  _ensure_namespace "xmlns:w16du"
    "http://schemas.microsoft.com/office/word/2023/wordml/word16du".
Definition _ensure_w16cex_namespace : M unit :=
  _ensure_namespace "xmlns:w16cex"
    "http://schemas.microsoft.com/office/word/2018/wordml/cex".
Definition _ensure_w14_namespace : M unit :=
  _ensure_namespace "xmlns:w14"
    "http://schemas.microsoft.com/office/word/2010/wordml".

(** *** _inject_attributes_to_nodes *)

Definition add_hex_id (elem : path) (name : string) : M unit :=
  e ← element_at elem;
  if hasAttribute e name then ret tt
  else _ensure_w14_namespace ;;
       id ← _generate_hex_id;
       setAttr elem name id.

Definition add_rsid_to_p (elem : path) : M unit :=
  set_if_absent elem "w:rsidR" (rsid cfg) ;;
  set_if_absent elem "w:rsidRDefault" (rsid cfg) ;;
  set_if_absent elem "w:rsidP" (rsid cfg) ;;
  add_hex_id elem "w14:paraId" ;;
  add_hex_id elem "w14:textId".

Definition add_rsid_to_r (elem : path) : M unit :=
  d ← get_dom;
  if is_inside_deletion d elem
  then set_if_absent elem "w:rsidDel" (rsid cfg)
  else set_if_absent elem "w:rsidR" (rsid cfg).

Definition add_tracked_change_attrs (timestamp : string) (elem : path) : M unit :=
  (e ← element_at elem;
   if hasAttribute e "w:id" then ret tt
   else d ← get_dom;
        setAttr elem "w:id" (Py.str_of_Z (_get_next_change_id d))) ;;
  set_if_absent elem "w:author" (author cfg) ;;
  set_if_absent elem "w:date" timestamp ;;
  e ← element_at elem;
  if (bool_decide (nodeName e = "w:ins") || bool_decide (nodeName e = "w:del"))
     && negb (hasAttribute e "w16du:dateUtc")
  then _ensure_w16du_namespace ;; setAttr elem "w16du:dateUtc" timestamp
  else ret tt.

Definition add_comment_attrs (timestamp : string) (elem : path) : M unit :=
  set_if_absent elem "w:author" (author cfg) ;;
  set_if_absent elem "w:date" timestamp ;;
  set_if_absent elem "w:initials" (initials cfg).

Definition add_comment_extensible_date (timestamp : string) (elem : path)
    : M unit :=
  e ← element_at elem;
  if hasAttribute e "w16cex:dateUtc" then ret tt
  else _ensure_w16cex_namespace ;; setAttr elem "w16cex:dateUtc" timestamp.

(** The text of a w:t starts or ends with a blank. *)
Definition needs_preserve (e : node) : bool :=
  match childNodes e with
  | Text text :: _ =>
      match Py.first_char text, Py.last_char text with
      | Some c1, Some c2 => Py.isspace c1 || Py.isspace c2
      | _, _ => false
      end
  | _ => false
  end.

Definition add_xml_space_to_t (elem : path) : M unit :=
  e ← deref elem;
  if needs_preserve e then set_if_absent elem "xml:space" "preserve"
  else ret tt.

(** [for elem in node.getElementsByTagName(tag): body(elem)]. *)
Definition for_elements (node : path) (tag : string) (body : path -> M unit)
    : M unit :=
  d ← get_dom;
  for_each (map fst (elements_below d node tag)) body.

(** The body of [for node in nodes] for an element named [tagName]. *)
Definition inject_element (timestamp : string) (tagName : string) (node : path)
    : M unit :=
  (if bool_decide (tagName = "w:p") then add_rsid_to_p node
   else if bool_decide (tagName = "w:r") then add_rsid_to_r node
   else if bool_decide (tagName = "w:t") then add_xml_space_to_t node
   else if bool_decide (tagName = "w:ins") || bool_decide (tagName = "w:del")
   then add_tracked_change_attrs timestamp node
   else if bool_decide (tagName = "w:comment")
   then add_comment_attrs timestamp node
   else if bool_decide (tagName = "w16cex:commentExtensible")
   then add_comment_extensible_date timestamp node
   else ret tt) ;;
  for_elements node "w:p" add_rsid_to_p ;;
  for_elements node "w:r" add_rsid_to_r ;;
  for_elements node "w:t" add_xml_space_to_t ;;
  for_each ["w:ins"; "w:del"]
    (fun tag => for_elements node tag (add_tracked_change_attrs timestamp)) ;;
  for_elements node "w:comment" (add_comment_attrs timestamp) ;;
  for_elements node "w16cex:commentExtensible"
    (add_comment_extensible_date timestamp).

Definition inject_node (timestamp : string) (node : path) : M unit :=
  n ← deref node;
  (* [node.nodeType != node.ELEMENT_NODE]: text, comment, or the Document *)
  if negb (is_element n) || bool_decide (node = []) then ret tt
  else inject_element timestamp (nodeName n) node.

Definition _inject_attributes_to_nodes (nodes : list path) : M unit :=
  timestamp ← now;
  for_each nodes (inject_node timestamp).

(** *** The mutation primitives with attribute injection *)

Definition replace_node (elem : path) (parsed : list node) : M (list path) :=
  nodes ← Editor.replace_node elem parsed;
  _inject_attributes_to_nodes nodes ;;
  ret nodes.

Definition insert_after (elem : path) (parsed : list node) : M (list path) :=
  nodes ← Editor.insert_after elem parsed;
  _inject_attributes_to_nodes nodes ;;
  ret nodes.

Definition insert_before (elem : path) (parsed : list node) : M (list path) :=
  nodes ← Editor.insert_before elem parsed;
  _inject_attributes_to_nodes nodes ;;
  ret nodes.

Definition append_to (elem : path) (parsed : list node) : M (list path) :=
  nodes ← Editor.append_to elem parsed;
  _inject_attributes_to_nodes nodes ;;
  ret nodes.

(** *** suggest_deletion *)

(** Run attributes: w:rsidR becomes w:rsidDel. *)
Definition rsid_to_del (run : node) : node :=
  if hasAttribute run "w:rsidR"
  then removeAttribute "w:rsidR"
         (setAttribute "w:rsidDel" (getAttribute run "w:rsidR") run)
  else if negb (hasAttribute run "w:rsidDel")
  then setAttribute "w:rsidDel" (rsid cfg) run
  else run.

(** [for run in elem.getElementsByTagName("w:r"): ...]: every run below
    [n]. *)
Fixpoint rsid_to_del_all (n : node) : node :=
  match n with
  | Element t a pos cs =>
      let n' := Element t a pos (map rsid_to_del_all cs) in
      if bool_decide (t = "w:r") then rsid_to_del n' else n'
  | _ => n
  end.

Definition rsid_to_del_below (n : node) : node :=
  set_children (map rsid_to_del_all (childNodes n)) n.

(** The <w:del/> marker in the w:rPr of the first w:pPr below a numbered
    paragraph. *)
Definition mark_numbering_deleted (elem : path) : M unit :=
  d ← get_dom;
  match elements_below d elem "w:pPr" with
  | [] => ret tt
  | (pPr, pPr_node) :: _ =>
      match getElementsByTagName pPr_node "w:numPr" with
      | [] => ret tt
      | _ :: _ =>
          rPr ← match elements_below d pPr "w:rPr" with
                | [] =>
                    appendChild pPr (createElement "w:rPr") ;;
                    ret (pPr ++ [length (childNodes pPr_node)])
                | (rPr, _) :: _ => ret rPr
                end;
          rPr_node ← deref rPr;
          match childNodes rPr_node with
          | _ :: _ => insertBefore rPr 0 (createElement "w:del")
          | [] => appendChild rPr (createElement "w:del")
          end
      end
  end.

(** [elem] is a w:r: it is wrapped in a new w:del. The result is the
    reference of the wrapper, which stands where the run stood. *)
Definition suggest_deletion_run (elem : path) : M path :=
  e ← deref elem;
  match getElementsByTagName e "w:delText" with
  | _ :: _ => raise (ValueError "w:r 要素に既に w:delText が含まれています")
  | [] =>
      modify_dom (update_at elem (rename_below "w:t" "w:delText")) ;;
      modify_dom (update_at elem rsid_to_del) ;;
      match parent_of elem with
      | None => raise (AttributeError "'NoneType' object has no attribute 'insertBefore'")
      | Some (parent, i) =>
          run ← deref elem;
          insertBefore parent i (createElement "w:del") ;;
          removeChild parent (S i) ;;
          appendChild elem run ;;
          _inject_attributes_to_nodes [elem] ;;
          ret elem
      end
  end.

(** [elem] is a w:p: its children other than w:pPr are moved into a new
    w:del, its last child. The result is the reference of the paragraph. *)
Definition suggest_deletion_paragraph (elem : path) : M path :=
  e ← deref elem;
  match getElementsByTagName e "w:ins", getElementsByTagName e "w:del" with
  | [], [] =>
      mark_numbering_deleted elem ;;
      modify_dom (update_at elem (rename_below "w:t" "w:delText")) ;;
      modify_dom (update_at elem rsid_to_del_below) ;;
      e ← deref elem;
      let moved := filter (fun c => nodeName c <> "w:pPr") (childNodes e) in
      let kept := filter (fun c => nodeName c = "w:pPr") (childNodes e) in
      modify_dom (update_at elem (set_children kept)) ;;
      appendChild elem (Element "w:del" ∅ None moved) ;;
      _inject_attributes_to_nodes [elem ++ [length kept]] ;;
      ret elem
  | _, _ =>
      raise (ValueError "w:p 要素に既に追跡変更（tracked changes）が含まれています")
  end.

Definition suggest_deletion (elem : path) : M path :=
  e ← deref elem;
  if bool_decide (nodeName e = "w:r") then suggest_deletion_run elem
  else if bool_decide (nodeName e = "w:p") then suggest_deletion_paragraph elem
  else raise (ValueError ("要素は w:r または w:p である必要があります: "
                          +:+ nodeName e)).

(** *** revert_deletion *)

(** Run attributes: w:rsidDel becomes w:rsidR. *)
Definition rsid_to_ins (run : node) : node :=
  if hasAttribute run "w:rsidDel"
  then removeAttribute "w:rsidDel"
         (setAttribute "w:rsidR" (getAttribute run "w:rsidDel") run)
  else if negb (hasAttribute run "w:rsidR")
  then setAttribute "w:rsidR" (rsid cfg) run
  else run.

(** One run of a deletion, cloned and turned into inserted content. *)
Definition restored_run (run : node) : node :=
  rsid_to_ins (rename_below "w:delText" "w:t" (cloneNode run)).

(** The w:ins built for one w:del, before it is serialised. *)
Definition restoring_insertion (del_elem : node) : node :=
  Element "w:ins" ∅ None
    (map (fun pe => restored_run (snd pe)) (getElementsByTagName del_elem "w:r")).

(** One turn of [for del_elem in del_elements]: the nodes inserted, none
    for a deletion without runs. *)
Definition revert_one (del_elem : path) : M (list path) :=
  d ← deref del_elem;
  match getElementsByTagName d "w:r" with
  | [] => ret []
  | _ :: _ => insert_after del_elem [reparse (restoring_insertion d)]
  end.

(** Where the node that was at [r] is once [count] nodes have been put in
    behind the node at [q]. *)
Definition shift_after (q : path) (count : nat) (r : path) : path :=
  match parent_of q with
  | None => r
  | Some (parent, i) =>
      if bool_decide (take (length parent) r = parent)
      then match drop (length parent) r with
           | j :: rest => if (i <? j)%nat then parent ++ (j + count) :: rest else r
           | [] => r
           end
      else r
  end.

(** [for del_elem in del_elements]; the list was collected before the loop,
    and [moved] says where a node of the tree before the loop is now. *)
Fixpoint revert_all (is_single_del : bool) (del_elements : list path)
    (moved : path -> path) (created_insertion : option path)
    : M (option path) :=
  match del_elements with
  | [] => ret created_insertion
  | del_elem :: rest =>
      let here := moved del_elem in
      nodes ← revert_one here;
      revert_all is_single_del rest
        (fun r => shift_after here (length nodes) (moved r))
        (match nodes with
         | first :: _ => if is_single_del then Some first else created_insertion
         | [] => created_insertion
         end)
  end.

Definition revert_deletion (elem : path) : M (list path) :=
  e ← deref elem;
  (* [elem.tagName]: a text node, a comment and the Document have none *)
  (if negb (is_element e) || bool_decide (elem = [])
   then raise (AttributeError "object has no attribute 'tagName'")
   else ret tt) ;;
  let is_single_del := bool_decide (nodeName e = "w:del") in
  d ← get_dom;
  let del_elements :=
    if is_single_del then [elem]
    else map fst (elements_below d elem "w:del") in
  match del_elements with
  | [] => raise (ValueError ("revert_deletion には w:del 要素が必要です。"
                  +:+ "指定された要素 <" +:+ nodeName e
                  +:+ "> には削除（w:del）が含まれません。"))
  | _ :: _ =>
      created_insertion ← revert_all is_single_del del_elements id None;
      match created_insertion with
      | Some ins => if is_single_del then ret [elem; ins] else ret [elem]
      | None => ret [elem]
      end
  end.

End WithConfig.

(** *** A concrete editor *)

Definition session : config :=
  Config "00AB12CD" "Claude" "C"
    (fun n => "2025-01-" +:+ Py.str_of_nat (10 + n) +:+ "T00:00:00Z")
    (fun n => (1000 * N.of_nat n + 2748)%N).

Definition opened (d : node) : state := State d 0 0.

(** The text of the w:t elements below a node, in document order. *)
Definition visible_text (n : node) : string :=
  Py.join "" (map (fun pe => text_content (snd pe)) (getElementsByTagName n "w:t")).

(** A paragraph whose run holds a text box, with a run of its own in it. *)
Definition text_box_run : node :=
  document
    [Element "w:document" ∅ (Some (1, 0))
       [Element "w:body" ∅ (Some (2, 2))
          [Element "w:p" ∅ (Some (3, 4))
             [Element "w:r" ∅ (Some (4, 6))
                [Element "w:pict" ∅ (Some (5, 8))
                   [Element "v:textbox" ∅ (Some (6, 10))
                      [Element "w:txbxContent" ∅ (Some (7, 12))
                         [Element "w:p" ∅ (Some (8, 14))
                            [run 9 "00AB12CD" "box"]]]]]]]]].

(** A paragraph with a deleted run that holds a text box, and in the text
    box a deletion of its own. *)
Definition nested_deletions : node :=
  document
    [Element "w:document" ∅ (Some (1, 0))
       [Element "w:body" ∅ (Some (2, 2))
          [Element "w:p" ∅ (Some (3, 4))
             [Element "w:del" {[ "w:id" := "1"; "w:author" := "Alice" ]}
                (Some (4, 6))
                [Element "w:r" ∅ (Some (5, 8))
                   [Element "w:delText" ∅ (Some (6, 10)) [Text "a"];
                    Element "w:pict" ∅ (Some (7, 10))
                      [Element "v:textbox" ∅ (Some (8, 12))
                         [Element "w:txbxContent" ∅ (Some (9, 14))
                            [Element "w:p" ∅ (Some (10, 16))
                               [Element "w:del"
                                  {[ "w:id" := "2"; "w:author" := "Alice" ]}
                                  (Some (11, 18))
                                  [Element "w:r" ∅ (Some (12, 20))
                                     [Element "w:delText" ∅ (Some (13, 22))
                                        [Text "b"]]]]]]]]]]]]].

(** A run that holds an insertion of another author, and no w:delText. *)
Definition run_with_insertion : node :=
  document
    [Element "w:document" ∅ (Some (1, 0))
       [Element "w:body" ∅ (Some (2, 2))
          [Element "w:p" ∅ (Some (3, 4))
             [Element "w:r" ∅ (Some (4, 6))
                [Element "w:ins" {[ "w:id" := "7"; "w:author" := "Alice" ]}
                   (Some (5, 8))
                   [run 6 "00FF00FF" "new"]]]]]].

End Docx.


(** ** scripts/document.py: Document (comments) *)

Module Comments.
Import Dom Editor Docx.

(** A Document: the XML files of the unpacked directory (each as the editor
    made for it holds it), the comments known so far with the paragraph id
    of each, the next comment id, and how often the clock and the random
    generator have been read. *)
Record Document : Type := Build_Document {
  files : gmap string node;
  existing_comments : gmap Z string;
  next_comment_id : Z;
  clock_reads : nat;
  random_draws : nat
}.

Definition DM (A : Type) : Type := Document -> (exn + A) * Document.

Definition dret {A} (a : A) : DM A := fun D => (inr a, D).
Definition draise {A} (e : exn) : DM A := fun D => (inl e, D).
Definition dbind {A B} (m : DM A) (k : A -> DM B) : DM B :=
  fun D =>
    match m D with
    | (inl e, D') => (inl e, D')
    | (inr a, D') => k a D'
    end.

#[global] Instance DM_ret : MRet DM := @dret.
#[global] Instance DM_bind : MBind DM := fun A B k m => dbind m k.

Definition document_xml : string := "word/document.xml".
Definition comments_xml : string := "word/comments.xml".
Definition comments_extended_xml : string := "word/commentsExtended.xml".
Definition comments_ids_xml : string := "word/commentsIds.xml".
Definition comments_extensible_xml : string := "word/commentsExtensible.xml".

(** *** The fragments, as the parser reads them *)

(** A character that may stand in an XML document as it is. (Strings are
    UTF-8; the two non-characters beyond ASCII that the parser also refuses
    are let through.) *)
Definition xml_char (c : ascii) : bool :=
  let n := nat_of_ascii c in
  (32 <=? n)%nat || (n =? 9)%nat || (n =? 10)%nat || (n =? 13)%nat.

(** [text.replace("&", "&amp;").replace("<", "&lt;").replace(">", "&gt;")]
    between two tags: no node for the empty string, otherwise one text node
    with the line ends normalized. *)
Definition parsed_text (text : string) : exn + list node :=
  if string_forall xml_char text
  then inr (if bool_decide (text = "") then []
            else [Text (Py.normalize_eol text)])
  else inl (ExpatError "not well-formed (invalid token)").

(** A value put between double quotes as it is. Markup characters in it are
    not followed. *)
Definition plain_char (c : ascii) : bool :=
  xml_char c && negb (Ascii.eqb c dquote) && negb (Ascii.eqb c "<"%char)
  && negb (Ascii.eqb c "&"%char).

Definition parsed_value (value : string) : exn + string :=
  if string_forall plain_char value then inr (Py.normalize_attribute value)
  else inl (NotModelled "markup characters in an attribute value").

Definition leaf (tag : string) (attrs : gmap string string) : node :=
  Element tag attrs None [].

(** [_comment_range_start_xml]. *)
Definition _comment_range_start_xml (comment_id : Z) : list node :=
  [leaf "w:commentRangeStart" {[ "w:id" := Py.str_of_Z comment_id ]}].

(** [_comment_ref_run_xml]. *)
Definition _comment_ref_run_xml (comment_id : Z) : list node :=
  [Element "w:r" ∅ None
     [Text (Py.nl +:+ "  ");
      Element "w:rPr" ∅ None
        [leaf "w:rStyle" {[ "w:val" := "CommentReference" ]}];
      Text (Py.nl +:+ "  ");
      leaf "w:commentReference" {[ "w:id" := Py.str_of_Z comment_id ]};
      Text Py.nl]].

(** [_comment_range_end_xml]. *)
Definition _comment_range_end_xml (comment_id : Z) : list node :=
  leaf "w:commentRangeEnd" {[ "w:id" := Py.str_of_Z comment_id ]}
  :: Text Py.nl :: _comment_ref_run_xml comment_id.

(** The f-string of [_add_to_comments_xml]. *)
Definition comment_xml (comment_id : Z) (para_id text : string)
    : exn + list node :=
  match parsed_value para_id, parsed_text text with
  | inl e, _ => inl e
  | _, inl e => inl e
  | inr para, inr body =>
      inr [Element "w:comment" {[ "w:id" := Py.str_of_Z comment_id ]} None
             [Text (Py.nl +:+ "  ");
              Element "w:p" {[ "w14:paraId" := para;
                               "w14:textId" := "77777777" ]} None
                [Text (Py.nl +:+ "    ");
                 Element "w:r" ∅ None
                   [Element "w:rPr" ∅ None
                      [leaf "w:rStyle" {[ "w:val" := "CommentReference" ]}];
                    leaf "w:annotationRef" ∅];
                 Text (Py.nl +:+ "    ");
                 Element "w:r" ∅ None
                   [Element "w:rPr" ∅ None
                      [leaf "w:color" {[ "w:val" := "000000" ]};
                       leaf "w:sz" {[ "w:val" := "20" ]};
                       leaf "w:szCs" {[ "w:val" := "20" ]}];
                    Element "w:t" ∅ None body];
                 Text (Py.nl +:+ "  ")];
              Text Py.nl]]
  end.

(** The f-strings of [_add_to_comments_extended_xml]. *)
Definition comment_ex_xml (para_id : string) (parent_para_id : option string)
    : exn + list node :=
  match parsed_value para_id with
  | inl e => inl e
  | inr para =>
      match parent_para_id with
      | Some parent_id =>
          if bool_decide (parent_id = "")
          then inr [leaf "w15:commentEx" {[ "w15:paraId" := para;
                                            "w15:done" := "0" ]}]
          else match parsed_value parent_id with
               | inl e => inl e
               | inr parent =>
                   inr [leaf "w15:commentEx"
                          {[ "w15:paraId" := para;
                             "w15:paraIdParent" := parent;
                             "w15:done" := "0" ]}]
               end
      | None => inr [leaf "w15:commentEx" {[ "w15:paraId" := para;
                                             "w15:done" := "0" ]}]
      end
  end.

Definition comment_id_xml (para_id durable_id : string) : exn + list node :=
  match parsed_value para_id, parsed_value durable_id with
  | inl e, _ => inl e
  | _, inl e => inl e
  | inr para, inr durable =>
      inr [leaf "w16cid:commentId" {[ "w16cid:paraId" := para;
                                      "w16cid:durableId" := durable ]}]
  end.

Definition comment_extensible_xml (durable_id : string) : exn + list node :=
  match parsed_value durable_id with
  | inl e => inl e
  | inr durable =>
      inr [leaf "w16cex:commentExtensible" {[ "w16cex:durableId" := durable ]}]
  end.

(** *** Notions used in the statements *)

(** Two Documents that differ at most in the file [xml_path] and in what
    has been read of the clock and the random generator. *)
Definition same_but (xml_path : string) (D D' : Document) : Prop :=
  (forall other, other <> xml_path -> files D' !! other = files D !! other)
  /\ existing_comments D' = existing_comments D
  /\ next_comment_id D' = next_comment_id D.

(** The tree [c] has one w:comment element with the id [comment_id]: it is
    at [p], its visible text is [body], and no w:comments element is below
    it. *)
Definition comment_at (c : node) (comment_id : Z) (p : path) (body : string)
    : Prop :=
  exists e,
    p <> [] /\ node_at c p = Some e /\ is_element e = true
    /\ nodeName e = "w:comment"
    /\ getAttribute e "w:id" = Py.str_of_Z comment_id
    /\ visible_text e = body
    /\ getElementsByTagName e "w:comments" = []
    /\ forall q e', node_at c q = Some e' -> nodeName e' = "w:comment" ->
                    getAttribute e' "w:id" = Py.str_of_Z comment_id -> q = p.

(** Every w:comment element of [c] whose w:id reads as an integer has an id
    below [bound]. *)
Definition ids_below (c : node) (bound : Z) : Prop :=
  forall q e n, node_at c q = Some e -> nodeName e = "w:comment" ->
                Py.int_of_str (getAttribute e "w:id") = Some n -> (n < bound)%Z.

(** The document element of [c] is not itself a w:comment. *)
Definition root_is_no_comment (c : node) : Prop :=
  forall root e, documentElement c = Some root -> node_at c root = Some e ->
                 nodeName e <> "w:comment".

Section WithSession.

Variable cfg : config.

(** [html.unescape], which [get_node] applies to [contains]. *)
Variable html_unescape : string -> string.

(** The files of TEMPLATE_DIR, parsed. *)
Variable template : string -> node.

(** [self[xml_path].method(...)]: the method runs on the tree of the file,
    with the clock and the random generator of the Document. *)
Definition editor {A} (xml_path : string) (m : M A) : DM A :=
  fun D =>
    match files D !! xml_path with
    | None => (inl (ValueError ("XMLファイルが見つかりません: " +:+ xml_path)), D)
    | Some d =>
        let r := m (State d (clock_reads D) (random_draws D)) in
        (fst r,
         Build_Document (<[ xml_path := dom (snd r) ]> (files D))
           (existing_comments D) (next_comment_id D)
           (ticks (snd r)) (draws (snd r)))
    end.

(** [_generate_hex_id()] and [datetime.now(...)] in the methods of
    Document. *)
Definition generate_hex_id : DM string :=
  fun D =>
    (inr (Py.format_08X (Py.randint 1 0x7FFFFFFE (random cfg (random_draws D)))),
     Build_Document (files D) (existing_comments D) (next_comment_id D)
       (clock_reads D) (S (random_draws D))).

Definition timestamp_now : DM string :=
  fun D =>
    (inr (clock cfg (clock_reads D)),
     Build_Document (files D) (existing_comments D) (next_comment_id D)
       (S (clock_reads D)) (random_draws D)).

(** [if not path.exists(): shutil.copy(TEMPLATE_DIR / name, path)]. *)
Definition copy_template_if_missing (xml_path name : string) : DM unit :=
  fun D =>
    match files D !! xml_path with
    | Some _ => (inr tt, D)
    | None =>
        (inr tt,
         Build_Document (<[ xml_path := template name ]> (files D))
           (existing_comments D) (next_comment_id D)
           (clock_reads D) (random_draws D))
    end.

(** [editor.append_to(root, xml)] with [root = editor.get_node(tag=...)];
    the fragment is parsed once the root has been found. *)
Definition append_to_root (xml_path root_tag : string)
    (fragment : exn + list node) : DM unit :=
  root ← editor xml_path (get_node html_unescape root_tag None None None);
  match fragment with
  | inl e => draise e
  | inr nodes => editor xml_path (append_to cfg root nodes) ;; mret tt
  end.

Definition _add_to_comments_xml (comment_id : Z) (para_id text : string)
    (author initials timestamp : string) : DM unit :=
  copy_template_if_missing comments_xml "comments.xml" ;;
  append_to_root comments_xml "w:comments"
    (comment_xml comment_id para_id text).

Definition _add_to_comments_extended_xml (para_id : string)
    (parent_para_id : option string) : DM unit :=
  copy_template_if_missing comments_extended_xml "commentsExtended.xml" ;;
  append_to_root comments_extended_xml "w15:commentsEx"
    (comment_ex_xml para_id parent_para_id).

Definition _add_to_comments_ids_xml (para_id durable_id : string) : DM unit :=
  copy_template_if_missing comments_ids_xml "commentsIds.xml" ;;
  append_to_root comments_ids_xml "w16cid:commentsIds"
    (comment_id_xml para_id durable_id).

Definition _add_to_comments_extensible_xml (durable_id : string) : DM unit :=
  copy_template_if_missing comments_extensible_xml "commentsExtensible.xml" ;;
  append_to_root comments_extensible_xml "w16cex:commentsExtensible"
    (comment_extensible_xml durable_id).

(** [self.existing_comments[comment_id] = {"para_id": para_id}] and
    [self.next_comment_id += 1]. *)
Definition record_comment (comment_id : Z) (para_id : string) : DM unit :=
  fun D =>
    (inr tt,
     Build_Document (files D) (<[ comment_id := para_id ]> (existing_comments D))
       (next_comment_id D + 1) (clock_reads D) (random_draws D)).

(** The four comment files, in the order of the two public methods. *)
Definition add_to_comment_files (comment_id : Z) (para_id durable_id text : string)
    (parent_para_id : option string) (timestamp : string) : DM unit :=
  _add_to_comments_xml comment_id para_id text (author cfg) (initials cfg)
    timestamp ;;
  _add_to_comments_extended_xml para_id parent_para_id ;;
  _add_to_comments_ids_xml para_id durable_id ;;
  _add_to_comments_extensible_xml durable_id.

(** Where the node that was at [r] is once [count] nodes have been put in
    before the node at [q]. *)
Definition shift_before (q : path) (count : nat) (r : path) : path :=
  match parent_of q with
  | None => r
  | Some (parent, i) =>
      if bool_decide (take (length parent) r = parent)
      then match drop (length parent) r with
           | j :: rest => if (i <=? j)%nat then parent ++ (j + count) :: rest
                          else r
           | [] => r
           end
      else r
  end.

(** [add_comment(start, end, text)]. *)
Definition add_comment (start end_ : path) (text : string) : DM Z :=
  comment_id ← (fun D => (inr (next_comment_id D), D));
  para_id ← generate_hex_id;
  durable_id ← generate_hex_id;
  timestamp ← timestamp_now;
  nodes ← editor document_xml
            (insert_before cfg start (_comment_range_start_xml comment_id));
  let end_ := shift_before start (length nodes) end_ in
  e ← editor document_xml (deref end_);
  (if negb (is_element e) || bool_decide (end_ = [])
   then draise (AttributeError "object has no attribute 'tagName'")
   else if bool_decide (nodeName e = "w:p")
   then editor document_xml
          (append_to cfg end_ (_comment_range_end_xml comment_id)) ;; mret tt
   else editor document_xml
          (insert_after cfg end_ (_comment_range_end_xml comment_id)) ;; mret tt) ;;
  add_to_comment_files comment_id para_id durable_id text None timestamp ;;
  record_comment comment_id para_id ;;
  mret comment_id.

(** [reply_to_comment(parent_comment_id, text)]. *)
Definition reply_to_comment (parent_comment_id : Z) (text : string) : DM Z :=
  known ← (fun D => (inr (existing_comments D), D));
  match known !! parent_comment_id with
  | None =>
      draise (ValueError ("親コメントが見つかりません: id="
                          +:+ Py.str_of_Z parent_comment_id))
  | Some parent_para_id =>
      comment_id ← (fun D => (inr (next_comment_id D), D));
      para_id ← generate_hex_id;
      durable_id ← generate_hex_id;
      timestamp ← timestamp_now;
      let by_id := Some [("w:id", Py.str_of_Z parent_comment_id)] in
      parent_start_elem ← editor document_xml
        (get_node html_unescape "w:commentRangeStart" by_id None None);
      parent_ref_elem ← editor document_xml
        (get_node html_unescape "w:commentReference" by_id None None);
      nodes ← editor document_xml
                (insert_after cfg parent_start_elem
                   (_comment_range_start_xml comment_id));
      let parent_ref_elem :=
        shift_after parent_start_elem (length nodes) parent_ref_elem in
      match parent_of parent_ref_elem with
      | None => draise StaleReference
      | Some (parent_ref_run, _) =>
          editor document_xml
            (insert_after cfg parent_ref_run
               [leaf "w:commentRangeEnd"
                  {[ "w:id" := Py.str_of_Z comment_id ]}]) ;;
          editor document_xml
            (insert_after cfg parent_ref_run (_comment_ref_run_xml comment_id)) ;;
          add_to_comment_files comment_id para_id durable_id text
            (Some parent_para_id) timestamp ;;
          record_comment comment_id para_id ;;
          mret comment_id
      end
  end.

End WithSession.

(** *** A concrete Document *)

(** Templates with nothing but their root element. *)
Definition bare_template (name : string) : node :=
  document
    [Element (if bool_decide (name = "comments.xml") then "w:comments"
              else if bool_decide (name = "commentsExtended.xml")
              then "w15:commentsEx"
              else if bool_decide (name = "commentsIds.xml")
              then "w16cid:commentsIds"
              else "w16cex:commentsExtensible")
       ∅ (Some (2, 0)) []].

(** A Document without comment files, its document.xml the paragraph of
    two runs. *)
Definition fresh_document : Document :=
  Build_Document {[ document_xml := two_runs ]} ∅ 0 0 0.

End Comments.

(** ** validation/base.py: the ID-uniqueness check

    The check reads each file with lxml: an element has a tag in Clark
    notation, its attributes in document order, a source line and child
    nodes. A comment or a processing instruction is a node of the tree too,
    and its tag is not a string. *)

Module UniqueIds.

Inductive node : Type :=
  | Element (tag : string) (attrib : list (string * string))
            (sourceline : nat) (children : list node)
  | Other.

Inductive scope : Type := File | Global.

#[global] Instance scope_eq_dec : EqDecision scope.
Proof. solve_decision. Defined.

(** element name -> (attribute name, scope) *)
Definition UNIQUE_ID_REQUIREMENTS : gmap string (string * scope) :=
  list_to_map
    [ ("comment", ("id", File));
      ("commentrangestart", ("id", File));
      ("commentrangeend", ("id", File));
      ("bookmarkstart", ("id", File));
      ("bookmarkend", ("id", File));
      ("sldid", ("id", File));
      ("sldmasterid", ("id", Global));
      ("sldlayoutid", ("id", Global));
      ("cm", ("authorid", File));
      ("sheet", ("sheetid", File));
      ("definedname", ("id", File));
      ("cxnsp", ("id", File));
      ("sp", ("id", File));
      ("pic", ("id", File));
      ("grpsp", ("id", File)) ].

Definition MC_NAMESPACE : string :=
  "http://schemas.openxmlformats.org/markup-compatibility/2006".
Definition alternate_content : string :=
  "{" +:+ MC_NAMESPACE +:+ "}AlternateContent".

Definition is_alternate_content (n : node) : bool :=
  match n with
  | Element tg _ _ _ => bool_decide (tg = alternate_content)
  | Other => false
  end.

(** [for elem in root.xpath(".//mc:AlternateContent"): elem.getparent().remove(elem)]:
    every mc:AlternateContent element below the root leaves the tree. *)
Fixpoint remove_alternate_content (n : node) : node :=
  match n with
  | Element tg a line cs =>
      Element tg a line
        (flat_map (fun c => if is_alternate_content c then []
                            else [remove_alternate_content c]) cs)
  | Other => Other
  end.

(** [root.iter()]: comments and processing instructions included. *)
Fixpoint iter (n : node) : list node :=
  match n with
  | Element _ _ _ cs => n :: flat_map iter cs
  | Other => [n]
  end.

(** [name.split("}")[-1].lower() if "}" in name else name.lower()]. *)
Definition local_lower (name : string) : string :=
  Py.lower (Py.after_last "}" name).

(** The value of the first attribute whose local name is [attr_name]. *)
Fixpoint find_id (attr_name : string) (items : list (string * string))
    : option string :=
  match items with
  | [] => None
  | (attr, value) :: rest =>
      if bool_decide (local_lower attr = attr_name) then Some value
      else find_id attr_name rest
  end.

(** What one file of the package parses to. *)
Inductive file : Type :=
  | Unparsable (message : string)
  | Parsed (root : node).

Section Check.

(** [str(e)] of the TypeError that [("}" in elem.tag)] raises on a node
    whose tag is not a string. *)
Variable not_a_string : string.

(** The dictionaries and the error list while one file is checked. *)
Record checking : Type := Checking {
  errors : list string;
  global_ids : gmap string (string * nat * string);
  file_ids : gmap (string * string) (gmap string nat)
}.

(** One turn of [for elem in root.iter()]; [None] when it raises. *)
Definition check_elem (rel : string) (elem : node) (s : checking)
    : option checking :=
  match elem with
  | Other => None
  | Element elem_tag attrib line _ =>
      let tag := local_lower elem_tag in
      match UNIQUE_ID_REQUIREMENTS !! tag with
      | None => Some s
      | Some (attr_name, scope) =>
          match find_id attr_name attrib with
          | None => Some s
          | Some id_value =>
              match scope with
              | Global =>
                  match global_ids s !! id_value with
                  | Some (prev_file, prev_line, prev_tag) =>
                      Some (Checking
                        (errors s ++
                         ["  " +:+ rel +:+ ": Line " +:+ Py.str_of_nat line
                          +:+ ": Global ID '" +:+ id_value +:+ "' in <" +:+ tag
                          +:+ "> already used in " +:+ prev_file
                          +:+ " at line " +:+ Py.str_of_nat prev_line
                          +:+ " in <" +:+ prev_tag +:+ ">"])
                        (global_ids s) (file_ids s))
                  | None =>
                      Some (Checking (errors s)
                        (<[ id_value := (rel, line, tag) ]> (global_ids s))
                        (file_ids s))
                  end
              | File =>
                  let key := (tag, attr_name) in
                  let seen := default ∅ (file_ids s !! key) in
                  match seen !! id_value with
                  | Some prev_line =>
                      Some (Checking
                        (errors s ++
                         ["  " +:+ rel +:+ ": Line " +:+ Py.str_of_nat line
                          +:+ ": Duplicate " +:+ attr_name +:+ "='" +:+ id_value
                          +:+ "' in <" +:+ tag +:+ "> (first occurrence at line "
                          +:+ Py.str_of_nat prev_line +:+ ")"])
                        (global_ids s) (<[ key := seen ]> (file_ids s)))
                  | None =>
                      Some (Checking (errors s) (global_ids s)
                        (<[ key := <[ id_value := line ]> seen ]> (file_ids s)))
                  end
              end
          end
      end
  end.

(** The loop over [root.iter()], up to the first turn that raises. *)
Fixpoint check_elems (rel : string) (elems : list node) (s : checking)
    : checking * bool :=
  match elems with
  | [] => (s, false)
  | elem :: rest =>
      match check_elem rel elem s with
      | None => (s, true)
      | Some s' => check_elems rel rest s'
      end
  end.

(** One turn of [for xml_file in self.xml_files], on the error list and
    the dictionary of global ids. *)
Definition check_file (acc : list string * gmap string (string * nat * string))
    (f : string * file) : list string * gmap string (string * nat * string) :=
  let rel := fst f in
  match snd f with
  | Unparsable e => (fst acc ++ ["  " +:+ rel +:+ ": エラー: " +:+ e], snd acc)
  | Parsed root =>
      let root' := remove_alternate_content root in
      let '(s, raised) := check_elems rel (iter root') (Checking (fst acc) (snd acc) ∅) in
      if raised
      then (errors s ++ ["  " +:+ rel +:+ ": エラー: " +:+ not_a_string],
            global_ids s)
      else (errors s, global_ids s)
  end.

Definition unique_id_errors (xml_files : list (string * file)) : list string :=
  fst (fold_left check_file xml_files ([], ∅)).

Definition validate_unique_ids (xml_files : list (string * file)) : bool :=
  match unique_id_errors xml_files with
  | [] => true
  | _ => false
  end.

End Check.

(** *** Notions used in the statements *)

(** The id an element carries for the check: element kind, attribute name,
    scope and value. *)
Definition id_entry (n : node) : option (string * string * scope * string) :=
  match n with
  | Other => None
  | Element tg attrib _ _ =>
      match UNIQUE_ID_REQUIREMENTS !! local_lower tg with
      | None => None
      | Some (attr_name, sc) =>
          match find_id attr_name attrib with
          | None => None
          | Some v => Some (local_lower tg, attr_name, sc, v)
          end
      end
  end.

Definition scope_of (n : node) : option scope :=
  match id_entry n with
  | Some (_, _, sc, _) => Some sc
  | None => None
  end.

(** The nodes the check visits in a file. *)
Definition visited (f : file) : list node :=
  match f with
  | Unparsable _ => []
  | Parsed root => iter (remove_alternate_content root)
  end.

(** The id [v] of kind [(k, a)] has been seen in the file. *)
Definition seen_in_file (s : checking) (k a v : string) : Prop :=
  exists m, file_ids s !! (k, a) = Some m /\ is_Some (m !! v).

(** No visited node of the file carries an id of global scope. *)
Definition no_global_ids (f : file) : Prop :=
  forall e, e ∈ visited f -> scope_of e <> Some Global.

Definition strip_file (f : string * file) : string * file :=
  match snd f with
  | Unparsable _ => f
  | Parsed root => (fst f, Parsed (remove_alternate_content root))
  end.

(** [x] comes before [y] in the list. *)
Definition before {A} (x y : A) (l : list A) : Prop :=
  exists l1 l2 l3, l = l1 ++ x :: l2 ++ y :: l3.

(** *** Concrete packages *)

Definition w_ns : string :=
  "http://schemas.openxmlformats.org/wordprocessingml/2006/main".
Definition comment (id : string) (line : nat) : node :=
  Element ("{" +:+ w_ns +:+ "}comment") [("{" +:+ w_ns +:+ "}id", id)] line [].
Definition comments_part (cs : list node) : file :=
  Parsed (Element ("{" +:+ w_ns +:+ "}comments") [] 1 cs).

(** Two comments with id "0" in one file. *)
Definition duplicated_package : list (string * file) :=
  [("word/comments.xml", comments_part [comment "0" 2; comment "0" 3])].

(** The id "0" once in each of two files. *)
Definition shared_package : list (string * file) :=
  [("word/comments.xml", comments_part [comment "0" 2]);
   ("word/footnotes.xml", comments_part [comment "0" 2])].

End UniqueIds.

(** ** validation/base.py: XSD validation diffed against the baseline *)

Module Xsd.

(** A path as its components; [unpacked_dir / rel] is [unpacked_dir ++ rel]. *)
Definition path : Type := list string.

Definition name (p : path) : string := default "" (last p).
Definition parent (p : path) : path := removelast p.
Definition str (p : path) : string := "/" +:+ Py.join "/" p.

(** Index of the last "." of a name, counted from its start. *)
Fixpoint rfind_dot (s : string) : option nat :=
  match s with
  | EmptyString => None
  | String c rest =>
      match rfind_dot rest with
      | Some i => Some (S i)
      | None => if Ascii.eqb c "."%char then Some 0 else None
      end
  end.

Fixpoint string_drop (n : nat) (s : string) : string :=
  match n, s with
  | S n', String _ rest => string_drop n' rest
  | _, _ => s
  end.

(** [PurePath.suffix]: from the last dot on, unless that dot starts or ends
    the name. *)
Definition suffix (p : path) : string :=
  let nm := name p in
  match rfind_dot nm with
  | Some i =>
      if (0 <? i)%nat && (i <? String.length nm - 1)%nat
      then string_drop i nm else ""
  | None => ""
  end.

Definition SCHEMA_MAPPINGS : gmap string string :=
  list_to_map
    [ ("word", "ISO-IEC29500-4_2016/wml.xsd");
      ("ppt", "ISO-IEC29500-4_2016/pml.xsd");
      ("xl", "ISO-IEC29500-4_2016/sml.xsd");
      ("[Content_Types].xml", "ecma/fouth-edition/opc-contentTypes.xsd");
      ("app.xml", "ISO-IEC29500-4_2016/shared-documentPropertiesExtended.xsd");
      ("core.xml", "ecma/fouth-edition/opc-coreProperties.xsd");
      ("custom.xml", "ISO-IEC29500-4_2016/shared-documentPropertiesCustom.xsd");
      (".rels", "ecma/fouth-edition/opc-relationships.xsd");
      ("people.xml", "microsoft/wml-2012.xsd");
      ("commentsIds.xml", "microsoft/wml-cid-2016.xsd");
      ("commentsExtensible.xml", "microsoft/wml-cex-2018.xsd");
      ("commentsExtended.xml", "microsoft/wml-2012.xsd");
      ("chart", "ISO-IEC29500-4_2016/dml-chart.xsd");
      ("theme", "ISO-IEC29500-4_2016/dml-main.xsd");
      ("drawing", "ISO-IEC29500-4_2016/dml-main.xsd") ].

Definition MAIN_CONTENT_FOLDERS : gset string :=
  {[ "word"; "ppt"; "xl" ]}.

(** [_get_schema_path]; the schema is named by its path below the schemas
    directory. *)
Definition _get_schema_path (xml_file : path) : option string :=
  match SCHEMA_MAPPINGS !! name xml_file with
  | Some schema => Some schema
  | None =>
      if bool_decide (suffix xml_file = ".rels")
      then SCHEMA_MAPPINGS !! ".rels"
      else if Py.contains "charts/" (str xml_file)
              && Py.startswith "chart" (name xml_file)
      then SCHEMA_MAPPINGS !! "chart"
      else if Py.contains "theme/" (str xml_file)
              && Py.startswith "theme" (name xml_file)
      then SCHEMA_MAPPINGS !! "theme"
      else if bool_decide (name (parent xml_file) ∈ MAIN_CONTENT_FOLDERS)
      then SCHEMA_MAPPINGS !! name (parent xml_file)
      else None
  end.

(** What lxml makes of one file: the schema accepts it, or it rejects it
    and logs errors, or loading, parsing or validating raised. *)
Inductive outcome : Type :=
  | Accepted
  | Rejected (error_log : list string)
  | Raised (message : string).

Section Validator.

(** The content of a file, and lxml: [schema_check schema clean content]
    loads the schema, parses and preprocesses the file (template tags and
    mc:Ignorable removed; with [clean], everything outside the OOXML
    namespaces too) and validates it. [io_error] is the message of the
    exception for a file that cannot be opened. *)
Variable content : Type.
Variable schema_check : string -> bool -> content -> outcome.
Variable io_error : path -> string.

(** A directory tree: the files below it by relative path. *)
Local Abbreviation tree := (gmap path content).

Record validator : Type := Validator {
  unpacked_dir : path;
  unpacked : tree;
  (** the original archive: [None] when it cannot be opened *)
  original_file : option tree;
  (** the temporary directory the original is extracted to *)
  temp_dir : path
}.

(** [_validate_single_file_xsd(base_path / rel, base_path)] over the files
    [files] of [base_path]: [(is_valid, errors)]. *)
Definition _validate_single_file_xsd (files : tree) (base_path rel : path)
    : option bool * option (gset string) :=
  let xml_file := base_path ++ rel in
  match _get_schema_path xml_file with
  | None => (None, None)
  | Some schema_path =>
      match files !! rel with
      | None => (Some false, Some {[ io_error xml_file ]})
      | Some xml_doc =>
          let clean :=
            match rel with
            | first :: _ => bool_decide (first ∈ MAIN_CONTENT_FOLDERS)
            | [] => false
            end in
          match schema_check schema_path clean xml_doc with
          | Accepted => (Some true, Some ∅)
          | Rejected error_log => (Some false, Some (list_to_set error_log))
          | Raised e => (Some false, Some {[ e ]})
          end
      end
  end.

(** [_get_original_file_errors]; [None] when opening the archive raises. *)
Definition _get_original_file_errors (v : validator) (rel : path)
    : option (gset string) :=
  match original_file v with
  | None => None
  | Some extracted =>
      match extracted !! rel with
      | None => Some ∅
      | Some _ =>
          match snd (_validate_single_file_xsd extracted (temp_dir v) rel) with
          | Some errors => if bool_decide (errors = ∅) then Some ∅ else Some errors
          | None => Some ∅
          end
      end
  end.

(** [validate_file_against_xsd]: [(is_valid, new_errors)], or [None] when
    the original archive cannot be opened. *)
Definition validate_file_against_xsd (v : validator) (rel : path)
    : option (option bool * gset string) :=
  match _validate_single_file_xsd (unpacked v) (unpacked_dir v) rel with
  | (None, _) => Some (None, ∅)
  | (Some true, _) => Some (Some true, ∅)
  | (Some false, current_errors) =>
      match _get_original_file_errors v rel with
      | None => None
      | Some original_errors =>
          let new_errors := default ∅ current_errors ∖ original_errors in
          if bool_decide (new_errors <> ∅)
          then Some (Some false, new_errors)
          else Some (Some true, ∅)
      end
  end.

(** *** Notions used in the statements *)

(** The schema-error messages one part produces: none when it is accepted,
    skipped or absent. *)
Definition errors_of (files : tree) (base_path rel : path) : gset string :=
  match files !! rel with
  | None => ∅
  | Some _ => default ∅ (snd (_validate_single_file_xsd files base_path rel))
  end.

End Validator.

(** *** A concrete validator

    A stand-in for lxml: a document is the list of the violations the
    schema finds in it. *)
Definition listed_check (schema : string) (clean : bool) (doc : list string)
    : outcome :=
  match doc with
  | [] => Accepted
  | _ => Rejected doc
  end.

Definition no_such_file (p : path) : string :=
  "No such file or directory: " +:+ str p.

Definition document_xml : path := ["word"; "document.xml"].

(** The baseline breaks the schema once; the working copy keeps that
    violation and adds a new one. *)
Definition demo_validator : validator (list string) :=
  {| unpacked_dir := ["work"; "unpacked"];
     unpacked := {[ document_xml := ["Element 'w:foo': not expected.";
                                     "Element 'w:bar': not expected."] ]};
     original_file := Some {[ document_xml := ["Element 'w:foo': not expected."] ]};
     temp_dir := ["tmp"; "tmpq1w2e3"] |}.

Abbreviation tree content := (gmap path content).

Arguments Validator {content} _ _ _ _.
Arguments unpacked_dir {content} _.
Arguments unpacked {content} _.
Arguments original_file {content} _.
Arguments temp_dir {content} _.

End Xsd.

(** * Part II: theorems *)

(** ** Strings *)

Section PyFacts.

Lemma append_cons (c : ascii) (a b : string) :
  String c a +:+ b = String c (a +:+ b).
Proof. reflexivity. Qed.

Lemma append_nil_r (a : string) : a +:+ "" = a.
Proof. induction a as [|c a IH]; [done|]. by rewrite append_cons, IH. Qed.

Lemma prefix_app (x b : string) : String.prefix x (x +:+ b) = true.
Proof.
  induction x as [|c x IH]; simpl; [by destruct b|].
  destruct (ascii_dec c c); [done|congruence].
Qed.

Lemma contains_unfold (x s : string) :
  Py.contains x s
  = String.prefix x s
    || match s with
       | EmptyString => false
       | String _ rest => Py.contains x rest
       end.
Proof. by destruct s. Qed.

Lemma contains_here (x b : string) : Py.contains x (x +:+ b) = true.
Proof. by rewrite contains_unfold, prefix_app. Qed.

Lemma contains_refl (x : string) : Py.contains x x = true.
Proof.
  rewrite <- (append_nil_r x) at 2. apply contains_here.
Qed.

Lemma prefix_nil (s : string) : String.prefix "" s = true.
Proof. by destruct s. Qed.

Lemma prefix_of_nil (x : string) : String.prefix x "" = true -> x = "".
Proof. by destruct x. Qed.

Lemma contains_app_r (x a b : string) :
  Py.contains x b = true -> Py.contains x (a +:+ b) = true.
Proof.
  intros Hb. induction a as [|c a IH]; [done|].
  rewrite append_cons, contains_unfold, IH. apply orb_true_r.
Qed.

Lemma prefix_app_l (x a b : string) :
  String.prefix x a = true -> String.prefix x (a +:+ b) = true.
Proof.
  revert a. induction x as [|c x IH]; intros a; [intros _; apply prefix_nil|].
  destruct a as [|c' a]; [done|]. rewrite append_cons. simpl.
  destruct (ascii_dec c c'); [apply IH | done].
Qed.

Lemma contains_app_l (x a b : string) :
  Py.contains x a = true -> Py.contains x (a +:+ b) = true.
Proof.
  induction a as [|c a IH]; intros H.
  - rewrite contains_unfold, orb_false_r in H. apply prefix_of_nil in H as ->.
    by rewrite contains_unfold, prefix_nil.
  - rewrite contains_unfold in H. rewrite append_cons, contains_unfold.
    apply orb_true_iff in H as [Hp|Hc].
    + by rewrite <- append_cons, (prefix_app_l _ _ b Hp).
    + rewrite (IH Hc). apply orb_true_r.
Qed.

Lemma contains_join (sep x : string) (l : list string) :
  x ∈ l -> Py.contains x (Py.join sep l) = true.
Proof.
  unfold Py.join. induction l as [|y l IH]; [by intros ?%elem_of_nil|].
  intros [->|Hx]%elem_of_cons.
  - destruct l; simpl; [apply contains_refl | apply contains_here].
  - destruct l as [|z l]; [by apply elem_of_nil in Hx|].
    change (String.concat sep (y :: z :: l))
      with (y +:+ sep +:+ String.concat sep (z :: l)).
    by apply contains_app_r, contains_app_r, IH.
Qed.

(** Stripping keeps a part of the string that ends in a character other
    than a blank. *)
Lemma all_space_prefix (x s : string) (c : ascii) :
  String.prefix x s = true -> Py.all_space s = true ->
  Py.last_char x = Some c -> Py.isspace c = true.
Proof.
  revert s. induction x as [|a x IH]; intros s Hp Hs Hl; [done|].
  destruct s as [|b s]; [done|]. simpl in Hp.
  destruct (ascii_dec a b) as [->|]; [|done].
  simpl in Hs. apply andb_true_iff in Hs as [Hb Hs].
  destruct x as [|a' x]; [by injection Hl as <-|].
  apply (IH s); [done..|]. exact Hl.
Qed.

Lemma all_space_contains (x s : string) (c : ascii) :
  Py.contains x s = true -> Py.all_space s = true ->
  Py.last_char x = Some c -> Py.isspace c = true.
Proof.
  induction s as [|b s IH]; simpl.
  - rewrite orb_false_r. intros Hp _ Hl. by destruct x.
  - intros [Hp|Hc]%orb_true_iff Hs Hl.
    + by apply (all_space_prefix x (String b s)).
    + apply andb_true_iff in Hs as [_ Hs]. by apply IH.
Qed.

Lemma prefix_rstrip (x s : string) (c : ascii) :
  String.prefix x s = true -> Py.last_char x = Some c -> Py.isspace c = false ->
  String.prefix x (Py.rstrip s) = true.
Proof.
  revert s. induction x as [|a x IH]; intros s Hp Hl Hc; [done|].
  destruct s as [|b s]; [done|].
  assert (Py.all_space (String b s) = false) as Hns.
  { destruct (Py.all_space (String b s)) eqn:Hs; [|done].
    pose proof (all_space_prefix _ _ _ Hp Hs Hl). congruence. }
  change (Py.rstrip (String b s))
    with (if Py.all_space (String b s) then "" else String b (Py.rstrip s)).
  rewrite Hns. simpl in *.
  destruct (ascii_dec a b) as [->|]; [|done].
  destruct x as [|a' x]; [by destruct (Py.rstrip s)|].
  by apply IH.
Qed.

Lemma rstrip_cons (b : ascii) (s : string) :
  Py.all_space (String b s) = false ->
  Py.rstrip (String b s) = String b (Py.rstrip s).
Proof.
  intros Hns.
  change (Py.rstrip (String b s))
    with (if Py.all_space (String b s) then "" else String b (Py.rstrip s)).
  by rewrite Hns.
Qed.

Lemma contains_rstrip (x s : string) (c : ascii) :
  Py.contains x s = true -> Py.last_char x = Some c -> Py.isspace c = false ->
  Py.contains x (Py.rstrip s) = true.
Proof.
  intros Hx Hl Hc. induction s as [|b s IH]; [by destruct x|].
  assert (Py.all_space (String b s) = false) as Hns.
  { destruct (Py.all_space (String b s)) eqn:Hs; [|done].
    pose proof (all_space_contains _ _ _ Hx Hs Hl). congruence. }
  rewrite contains_unfold in Hx. apply orb_true_iff in Hx as [Hp|Hx].
  - rewrite contains_unfold, (prefix_rstrip _ _ _ Hp Hl Hc). done.
  - rewrite rstrip_cons by done. rewrite contains_unfold, (IH Hx).
    apply orb_true_r.
Qed.

Lemma last_char_app (a b : string) (c : ascii) :
  Py.last_char b = Some c -> Py.last_char (a +:+ b) = Some c.
Proof.
  intros Hb. induction a as [|x a IH]; [done|].
  rewrite append_cons. simpl. by destruct (a +:+ b).
Qed.

(** *** Decimal numerals *)

Lemma uint_nil_or (d : Decimal.uint) : d = Decimal.Nil \/ d <> Decimal.Nil.
Proof. destruct d; [by left | by right..]. Qed.

Lemma last_char_uint (d : Decimal.uint) :
  d <> Decimal.Nil ->
  exists c, Py.last_char (NilEmpty.string_of_uint d) = Some c /\ is_digit c = true.
Proof.
  induction d as [|d IH|d IH|d IH|d IH|d IH|d IH|d IH|d IH|d IH|d IH];
    intros Hd; [done|..];
    (destruct (uint_nil_or d) as [->|Hne];
     [simpl; eexists; split; [done|by vm_compute]
     |destruct (IH Hne) as (c & Hc & Hdig); exists c; split; [|done];
      simpl; by destruct (NilEmpty.string_of_uint d)]).
Qed.

Lemma last_char_str_of_Z (z : Z) :
  exists c, Py.last_char (Py.str_of_Z z) = Some c /\ Py.isspace c = false.
Proof.
  assert (forall c, is_digit c = true -> Py.isspace c = false) as Hdig.
  { intros [[|] [|] [|] [|] [|] [|] [|] [|]]; by vm_compute. }
  assert (forall p, exists c,
            Py.last_char (NilZero.string_of_uint (Pos.to_uint p)) = Some c
            /\ is_digit c = true) as Hpos.
  { intros p. pose proof (DecimalPos.Unsigned.to_uint_nonnil p) as Hnn.
    destruct (last_char_uint _ Hnn) as (c & Hc & Hd). exists c. split; [|done].
    by destruct (Pos.to_uint p). }
  unfold Py.str_of_Z. destruct z as [|p|p]; simpl.
  - exists "0"%char. by vm_compute.
  - destruct (Hpos p) as (c & Hc & Hd). exists c. auto.
  - destruct (Hpos p) as (c & Hc & Hd). exists c. split; [|auto].
    change (Py.last_char (String "-" (NilZero.string_of_uint (Pos.to_uint p))) = Some c).
    simpl. rewrite Hc. by destruct (NilZero.string_of_uint (Pos.to_uint p)).
Qed.

Lemma numeral_uint (d : Decimal.uint) :
  string_forall numeral_char (NilEmpty.string_of_uint d) = true.
Proof. induction d; simpl; by rewrite ?IHd. Qed.

Lemma numeral_str_of_Z (z : Z) : string_forall numeral_char (Py.str_of_Z z) = true.
Proof.
  unfold Py.str_of_Z. destruct z as [|p|p]; simpl; [done| |].
  - pose proof (numeral_uint (Pos.to_uint p)). by destruct (Pos.to_uint p).
  - pose proof (numeral_uint (Pos.to_uint p)).
    change (string_forall numeral_char
              (String "-" (NilZero.string_of_uint (Pos.to_uint p))) = true).
    simpl. by destruct (Pos.to_uint p).
Qed.

Lemma numeral_not_space (c : ascii) : numeral_char c = true -> Py.isspace c = false.
Proof. destruct c as [[|] [|] [|] [|] [|] [|] [|] [|]]; by vm_compute. Qed.

Lemma strip_numeral (s : string) :
  string_forall numeral_char s = true -> Py.strip s = s.
Proof.
  intros Hs. unfold Py.strip.
  assert (Py.lstrip s = s) as ->.
  { destruct s as [|c s]; [done|]. simpl in *.
    apply andb_true_iff in Hs as [Hc _]. by rewrite (numeral_not_space c Hc). }
  induction s as [|c s IH]; [done|].
  simpl in Hs. apply andb_true_iff in Hs as [Hc Hs].
  rewrite rstrip_cons, IH; [done..|].
  simpl. by rewrite (numeral_not_space c Hc).
Qed.

(** [int(str(n))] is [n]. *)
Lemma int_of_str_of_Z (z : Z) : Py.int_of_str (Py.str_of_Z z) = Some z.
Proof.
  unfold Py.int_of_str. rewrite strip_numeral by apply numeral_str_of_Z.
  assert (NilZero.int_of_string (Py.str_of_Z z) = Some (Z.to_int z)) as Hint.
  { unfold Py.str_of_Z. apply NilZero.isi.
    - destruct z as [|p|p]; simpl; [done| |done].
      intros [= Hp]. by apply (DecimalPos.Unsigned.to_uint_nonnil p).
    - destruct z as [|p|p]; simpl; [done|done|].
      intros [= Hp]. by apply (DecimalPos.Unsigned.to_uint_nonnil p). }
  pose proof (numeral_str_of_Z z) as Hnum.
  destruct (Py.str_of_Z z) as [|c rest] eqn:Hstr; [done|].
  simpl in Hnum. apply andb_true_iff in Hnum as [Hc _].
  destruct (Ascii.eqb_spec c "+"%char) as [->|Hne]; [by vm_compute in Hc|].
  assert (match String c rest with
          | String "+"%char rest0 =>
              match NilZero.uint_of_string rest0 with
              | Some d => Some (Z.of_uint d)
              | None => None
              end
          | t => match NilZero.int_of_string t with
                 | Some d => Some (Z.of_int d)
                 | None => None
                 end
          end
          = match NilZero.int_of_string (String c rest) with
            | Some d => Some (Z.of_int d)
            | None => None
            end) as ->.
  { destruct c as [[|] [|] [|] [|] [|] [|] [|] [|]]; done. }
  rewrite Hint. by rewrite DecimalZ.of_to.
Qed.

End PyFacts.

(** ** The redlining validator *)

Section RedliningFacts.
Import Redlining.

(** Induction over an element with the hypothesis for every child. *)
Lemma element_ind' (P : element -> Prop) :
  (forall tg a tx tl cs, Forall P cs -> P (Element tg a tx tl cs)) ->
  forall e, P e.
Proof.
  intros IH. fix self 1. intros [tg a tx tl cs]. apply IH.
  induction cs as [|c cs IHcs]; constructor; [apply self | exact IHcs].
Qed.

(** *** The in-place loop over [to_process] is a splice *)

Lemma insert_all_at {A} (i : nat) (moved cs : list A) :
  i <= length cs ->
  fold_left (fun acc child => list_insert_at i child acc) (rev moved) cs
  = take i cs ++ moved ++ drop i cs.
Proof.
  revert cs. induction moved as [|y m IH] using rev_ind; intros cs Hi.
  - simpl. by rewrite take_drop.
  - rewrite rev_app_distr. simpl. rewrite IH.
    + unfold list_insert_at.
      rewrite take_app_le by (rewrite length_take; lia).
      rewrite take_take, Nat.min_id.
      rewrite drop_app_ge by (rewrite length_take; lia).
      rewrite length_take, Nat.min_l by lia. rewrite Nat.sub_diag. simpl.
      by rewrite <- !app_assoc.
    + unfold list_insert_at. rewrite length_app, length_take. simpl. lia.
Qed.

Lemma unwrap_one_at (l s : list element) (x : element) :
  unwrap_one (l ++ x :: s) (x, length l) = l ++ children (retag x) ++ s.
Proof.
  unfold unwrap_one. simpl.
  rewrite insert_all_at by (rewrite length_app; simpl; lia).
  rewrite take_app_length, drop_app_length.
  set (m := children (retag x)).
  unfold list_remove_at. rewrite (app_assoc l m).
  rewrite <- (length_app l m).
  rewrite take_app_length.
  replace (S (length (l ++ m))) with (length (l ++ m) + 1) by lia.
  rewrite drop_app_add. simpl. rewrite drop_0.
  by rewrite <- app_assoc.
Qed.

Lemma to_process_snoc (l : list element) (x : element) :
  to_process (l ++ [x])
  = to_process l ++ (if is_claude_del x then [(x, length l)] else []).
Proof.
  unfold to_process. rewrite length_app. simpl.
  rewrite Nat.add_1_r, seq_S. simpl.
  rewrite zip_with_app by (by rewrite length_seq).
  rewrite filter_app. f_equal. simpl.
  rewrite filter_cons. simpl. by destruct (is_claude_del x).
Qed.

Lemma to_process_index_lt (l : list element) (ci : element * nat) :
  ci ∈ to_process l -> l !! (snd ci) = Some (fst ci).
Proof.
  unfold to_process. intros [_ Hin]%list_elem_of_filter.
  destruct ci as [c i]. simpl.
  apply list_elem_of_lookup in Hin as [k Hk].
  apply lookup_zip_with_Some in Hk as (c' & i' & [= -> ->] & Hc & Hi).
  apply lookup_seq in Hi as [-> _]. exact Hc.
Qed.

Lemma unwrap_prefix (l s : list element) :
  fold_left unwrap_one (rev (to_process l)) (l ++ s) = flat_map splice l ++ s.
Proof.
  revert s. induction l as [|x l IH] using rev_ind; intros s.
  - reflexivity.
  - rewrite to_process_snoc, flat_map_app. simpl. rewrite app_nil_r.
    unfold splice at 2. destruct (is_claude_del x).
    + rewrite rev_app_distr. simpl. rewrite <- app_assoc. simpl.
      rewrite unwrap_one_at. rewrite IH. by rewrite <- app_assoc.
    + rewrite app_nil_r, <- app_assoc. simpl. rewrite IH.
      by rewrite <- app_assoc.
Qed.

(** The second loop, seen from one parent: every w:del child by Claude is
    replaced, where it stands, by its children with converted tags. *)
Lemma unwrap_children_splice (cs : list element) :
  unwrap_children cs = flat_map splice cs.
Proof.
  unfold unwrap_children.
  rewrite <- (app_nil_r cs) at 2. rewrite unwrap_prefix. apply app_nil_r.
Qed.

(** *** Facts on [retag] and on the fuel of [unwrap_dels] *)

Lemma tag_retag (e : element) :
  tag (retag e) = if bool_decide (tag e = deltext_tag) then t_tag else tag e.
Proof. by destruct e. Qed.

Lemma attrib_retag (e : element) : attrib (retag e) = attrib e.
Proof. by destruct e. Qed.

Lemma text_retag (e : element) : text (retag e) = text e.
Proof. by destruct e. Qed.

Lemma children_retag (e : element) : children (retag e) = map retag (children e).
Proof. by destruct e. Qed.

Lemma by_claude_retag (e : element) : by_claude (retag e) = by_claude e.
Proof. unfold by_claude, get. by rewrite attrib_retag. Qed.

Lemma is_claude_ins_retag (e : element) : is_claude_ins (retag e) = is_claude_ins e.
Proof.
  unfold is_claude_ins. rewrite by_claude_retag, tag_retag. f_equal.
  destruct (bool_decide (tag e = deltext_tag)) eqn:Hd; [|done].
  apply bool_decide_eq_true in Hd. rewrite Hd. by vm_compute.
Qed.

Lemma is_claude_del_retag (e : element) : is_claude_del (retag e) = is_claude_del e.
Proof.
  unfold is_claude_del. rewrite by_claude_retag, tag_retag. f_equal.
  destruct (bool_decide (tag e = deltext_tag)) eqn:Hd; [|done].
  apply bool_decide_eq_true in Hd. rewrite Hd. by vm_compute.
Qed.

Lemma iter_retag (e : element) : iter (retag e) = map retag (iter e).
Proof.
  induction e as [tg a tx tl cs IH] using element_ind'. simpl. f_equal.
  induction IH as [|c cs Hc _ IHcs]; [done|].
  simpl. by rewrite map_app, Hc, IHcs.
Qed.

Lemma height_retag (e : element) : height (retag e) = height e.
Proof.
  induction e as [tg a tx tl cs IH] using element_ind'. simpl. f_equal.
  induction IH as [|c cs Hc _ IHcs]; [done|].
  simpl. by rewrite Hc, IHcs.
Qed.

Lemma height_child (e c : element) : c ∈ children e -> height c < height e.
Proof.
  destruct e as [tg a tx tl cs]. simpl. intros Hc.
  assert (Forall (fun k => k <= list_max (map height cs)) (map height cs)) as HF
    by (by apply list_max_le).
  rewrite Forall_forall in HF.
  assert (height c ∈ map height cs) as Hin
    by (apply list_elem_of_In, in_map, list_elem_of_In, Hc).
  specialize (HF _ Hin). lia.
Qed.

Lemma height_splice (c c' : element) : c' ∈ splice c -> height c' <= height c.
Proof.
  unfold splice. destruct (is_claude_del c).
  - intros Hin. apply height_child in Hin. rewrite height_retag in Hin. lia.
  - intros ->%list_elem_of_singleton. lia.
Qed.

Lemma height_spliced (e c' : element) :
  c' ∈ flat_map splice (children e) -> height c' < height e.
Proof.
  intros Hin. apply list_elem_of_In, in_flat_map in Hin as (c & Hc & Hc').
  apply list_elem_of_In in Hc, Hc'.
  apply height_child in Hc. apply height_splice in Hc'. lia.
Qed.

(** Any fuel from the height on gives the same tree: the traversal visits
    every element it can reach. *)
Lemma unwrap_dels_fuel (n m : nat) (e : element) :
  height e <= n -> height e <= m -> unwrap_dels n e = unwrap_dels m e.
Proof.
  revert m e. induction n as [|n IH]; intros m e Hn Hm.
  - destruct e; simpl in Hn; lia.
  - destruct m as [|m]; [destruct e; simpl in Hm; lia|].
    destruct e as [tg a tx tl cs]. simpl. f_equal.
    rewrite unwrap_children_splice.
    apply map_ext_in. intros c' Hc'%list_elem_of_In.
    apply (height_spliced (Element tg a tx tl cs)) in Hc'.
    apply IH; simpl in *; lia.
Qed.

Lemma unwrap_dels_unfold (n : nat) (e : element) :
  unwrap_dels (S n) e
  = Element (tag e) (attrib e) (text e) (tail e)
            (map (unwrap_dels n) (flat_map splice (children e))).
Proof. destruct e. simpl. by rewrite unwrap_children_splice. Qed.

(** *** The first test of [validate] *)

Lemma filter_nil_iff {A} (P : A -> bool) (l : list A) :
  filter (fun x => P x) l = [] <-> forall x, x ∈ l -> P x = false.
Proof.
  induction l as [|y l IH].
  - split; [intros _ x Hx; inversion Hx | done].
  - rewrite filter_cons. destruct (P y) eqn:Hy; simpl.
    + split; [done|]. intros H. specialize (H y (list_elem_of_here _ _)). congruence.
    + rewrite IH. split.
      * intros H x [->|Hx]%elem_of_cons; auto.
      * intros H x Hx. apply H. by right.
Qed.

Lemma elem_of_findall (root x : element) (tg : string) :
  x ∈ findall root tg <-> x ∈ descendants root /\ tag x = tg.
Proof. unfold findall, descendants. rewrite list_elem_of_filter. tauto. Qed.

Lemma claude_check_iff (root : element) :
  bool_decide (filter (fun e => by_claude e) (findall root del_tag) = []) &&
  bool_decide (filter (fun e => by_claude e) (findall root ins_tag) = []) = true
  <-> no_claude_region root.
Proof.
  rewrite andb_true_iff, !bool_decide_eq_true, !filter_nil_iff.
  unfold no_claude_region, is_claude_ins, is_claude_del. split.
  - intros [Hd Hi] e He. split.
    + destruct (bool_decide (tag e = ins_tag)) eqn:Ht; [|done]. simpl.
      apply bool_decide_eq_true in Ht. apply Hi, elem_of_findall. done.
    + destruct (bool_decide (tag e = del_tag)) eqn:Ht; [|done]. simpl.
      apply bool_decide_eq_true in Ht. apply Hd, elem_of_findall. done.
  - intros H. split; intros e [He Ht]%elem_of_findall;
      destruct (H e He) as [Hi Hd]; rewrite Ht in *;
      rewrite bool_decide_eq_true_2 in * by done; done.
Qed.

Lemma validate_no_claude_region (fs : files) (root : element) :
  modified_file fs = Parsed root -> no_claude_region root -> validate fs = true.
Proof.
  intros Hm Hno. unfold validate. rewrite Hm.
  apply claude_check_iff in Hno. by rewrite Hno.
Qed.

Lemma validate_compare (fs : files) (m o : element) :
  modified_file fs = Parsed m -> original_docx_opens fs = true ->
  original_file fs = Parsed o -> ~ no_claude_region m ->
  validate fs = bool_decide
    (_extract_text_content (_remove_claude_tracked_changes m)
     = _extract_text_content (_remove_claude_tracked_changes o)).
Proof.
  intros Hm Hz Ho Hno. unfold validate. rewrite Hm, Hz, Ho.
  rewrite <- claude_check_iff in Hno. apply not_true_is_false in Hno.
  rewrite Hno. simpl. rewrite bool_decide_not.
  repeat case_bool_decide; done.
Qed.

(** *** Joining with line breaks *)

Lemma has_nl_app (a b : string) : has_nl (a +:+ b) = has_nl a || has_nl b.
Proof. induction a as [|c a IH]; simpl; [done|]. by rewrite IH, orb_assoc. Qed.

Lemma has_nl_nl : has_nl Py.nl = true.
Proof. reflexivity. Qed.

Lemma app_nl_inj (a a' r r' : string) :
  has_nl a = false -> has_nl a' = false ->
  a +:+ Py.nl +:+ r = a' +:+ Py.nl +:+ r' -> a = a' /\ r = r'.
Proof.
  revert a'. induction a as [|c a IH]; intros [|c' a'] Ha Ha' Heq; simpl in *.
  - by injection Heq.
  - injection Heq as Hc _. subst c'. by rewrite Ascii.eqb_refl in Ha'.
  - injection Heq as Hc _. subst c. by rewrite Ascii.eqb_refl in Ha.
  - injection Heq as -> Heq.
    apply orb_false_elim in Ha as [_ Ha]. apply orb_false_elim in Ha' as [_ Ha'].
    destruct (IH a' Ha Ha' Heq) as [-> ->]. done.
Qed.

Lemma join_cons2 (x y : string) (l : list string) :
  Py.join Py.nl (x :: y :: l) = x +:+ Py.nl +:+ Py.join Py.nl (y :: l).
Proof. reflexivity. Qed.

(** Two lists of non-empty strings without line breaks that join to the
    same text are the same list. *)
Lemma join_nl_inj (l1 l2 : list string) :
  Forall (fun s => s <> "" /\ has_nl s = false) l1 ->
  Forall (fun s => s <> "" /\ has_nl s = false) l2 ->
  Py.join Py.nl l1 = Py.join Py.nl l2 -> l1 = l2.
Proof.
  intros H1. revert l2. induction H1 as [|x l1 [Hx Hnx] H1 IH]; intros l2 H2 Heq.
  - destruct H2 as [|y l2 [Hy _] _]; [done|]. exfalso.
    destruct l2 as [|z l2]; simpl in Heq.
    + by apply Hy.
    + destruct y; [by apply Hy | discriminate].
  - destruct H2 as [|y l2 [Hy Hny] H2].
    + exfalso. destruct l1 as [|z l1]; simpl in Heq.
      * by apply Hx.
      * destruct x; [by apply Hx | discriminate].
    + destruct l1 as [|x' l1], l2 as [|y' l2].
      * simpl in Heq. by subst.
      * exfalso. rewrite join_cons2 in Heq.
        change (Py.join Py.nl [x]) with x in Heq. subst x.
        rewrite !has_nl_app, has_nl_nl in Hnx. simpl in Hnx.
        by rewrite orb_true_r in Hnx.
      * exfalso. rewrite join_cons2 in Heq.
        change (Py.join Py.nl [y]) with y in Heq. subst y.
        rewrite !has_nl_app, has_nl_nl in Hny. simpl in Hny.
        by rewrite orb_true_r in Hny.
      * rewrite !join_cons2 in Heq.
        apply app_nl_inj in Heq as [-> Heq]; [|done..].
        f_equal. by apply IH.
Qed.

Lemma paragraphs_nonempty (root : element) :
  Forall (fun s => s <> "") (paragraphs root).
Proof.
  unfold paragraphs. apply Forall_forall. by intros s [Hs _]%list_elem_of_filter.
Qed.

Lemma extract_inj (r1 r2 : element) :
  Forall (fun s => has_nl s = false) (paragraphs r1) ->
  Forall (fun s => has_nl s = false) (paragraphs r2) ->
  _extract_text_content r1 = _extract_text_content r2 ->
  paragraphs r1 = paragraphs r2.
Proof.
  intros H1 H2. apply join_nl_inj.
  - pose proof (paragraphs_nonempty r1) as Hn.
    rewrite Forall_forall in *. intros s Hs. split; auto.
  - pose proof (paragraphs_nonempty r2) as Hn.
    rewrite Forall_forall in *. intros s Hs. split; auto.
Qed.

(** *** What the reconstruction leaves in the tree *)

Lemma elem_of_iter (e x : element) : x ∈ iter e <-> x = e \/ x ∈ descendants e.
Proof. destruct e. unfold descendants. simpl. by rewrite elem_of_cons. Qed.

Lemma elem_of_descendants (e x : element) :
  x ∈ descendants e <-> exists c, c ∈ children e /\ x ∈ iter c.
Proof.
  unfold descendants. rewrite list_elem_of_In, in_flat_map.
  split; intros (c & Hc & Hx); exists c; by rewrite ?list_elem_of_In in *.
Qed.

Lemma descendants_child (e c x : element) :
  c ∈ children e -> x ∈ descendants c -> x ∈ descendants e.
Proof.
  intros Hc Hx. apply elem_of_descendants. exists c. split; [done|].
  apply elem_of_iter. by right.
Qed.

Lemma shallow_unwrap (n : nat) (e : element) :
  tag (unwrap_dels n e) = tag e /\ attrib (unwrap_dels n e) = attrib e /\
  text (unwrap_dels n e) = text e /\ tail (unwrap_dels n e) = tail e.
Proof. destruct n, e; done. Qed.

Lemma shallow_remove_ins (e : element) :
  tag (remove_ins e) = tag e /\ attrib (remove_ins e) = attrib e /\
  text (remove_ins e) = text e /\ tail (remove_ins e) = tail e.
Proof. destruct e; done. Qed.

Lemma is_claude_ins_shallow (x y : element) :
  tag y = tag x -> attrib y = attrib x -> is_claude_ins y = is_claude_ins x.
Proof. unfold is_claude_ins, by_claude, get. by intros -> ->. Qed.

Lemma is_claude_del_shallow (x y : element) :
  tag y = tag x -> attrib y = attrib x -> is_claude_del y = is_claude_del x.
Proof. unfold is_claude_del, by_claude, get. by intros -> ->. Qed.

Lemma elem_of_children_remove_ins (e y : element) :
  y ∈ children (remove_ins e)
  <-> exists c, c ∈ children e /\ is_claude_ins c = false /\ y = remove_ins c.
Proof.
  destruct e as [tg a tx tl cs]. simpl.
  rewrite list_elem_of_In, in_flat_map. split.
  - intros (c & Hc & Hy). exists c. apply list_elem_of_In in Hc.
    destruct (is_claude_ins c); [by destruct Hy|].
    destruct Hy as [<-|[]]. done.
  - intros (c & Hc & Hi & ->). exists c. apply list_elem_of_In in Hc.
    rewrite Hi. split; [done | by left].
Qed.

(** After the first loop no insertion by Claude is left below the root. *)
Lemma remove_ins_clean (e x : element) :
  x ∈ descendants (remove_ins e) -> is_claude_ins x = false.
Proof.
  revert x. induction e as [tg a tx tl cs IH] using element_ind'. intros x Hx.
  apply elem_of_descendants in Hx as (y & Hy & Hx).
  apply elem_of_children_remove_ins in Hy as (c & Hc & Hi & ->).
  rewrite Forall_forall in IH.
  apply elem_of_iter in Hx as [->|Hx]; [|by apply (IH c Hc)].
  destruct (shallow_remove_ins c) as (Ht & Ha & _).
  by rewrite (is_claude_ins_shallow c).
Qed.

Lemma iter_spliced (e c' x : element) :
  c' ∈ flat_map splice (children e) -> x ∈ iter c' ->
  exists x0, x0 ∈ descendants e /\ (x = x0 \/ x = retag x0).
Proof.
  intros Hc' Hx. apply list_elem_of_In, in_flat_map in Hc' as (c & Hc & Hc').
  apply list_elem_of_In in Hc, Hc'. unfold splice in Hc'.
  destruct (is_claude_del c).
  - rewrite children_retag in Hc'.
    apply list_elem_of_fmap in Hc' as (c0 & -> & Hc0).
    rewrite iter_retag in Hx. apply list_elem_of_fmap in Hx as (x0 & -> & Hx0).
    exists x0. split; [|by right].
    apply elem_of_descendants. exists c. split; [done|].
    apply elem_of_iter. right. apply elem_of_descendants. eauto.
  - apply list_elem_of_singleton in Hc' as ->.
    exists x. split; [|by left]. apply elem_of_descendants. eauto.
Qed.

(** The second loop keeps a property of the descendants that only looks at
    tag and attributes and that the tag conversion keeps. *)
Lemma unwrap_dels_keeps (Q : element -> Prop) :
  (forall x, Q x -> Q (retag x)) ->
  (forall x y, tag y = tag x -> attrib y = attrib x -> Q x -> Q y) ->
  forall n e, (forall x, x ∈ descendants e -> Q x) ->
              forall x, x ∈ descendants (unwrap_dels n e) -> Q x.
Proof.
  intros Hretag Hshallow. induction n as [|n IH]; intros e He x Hx; [by apply He|].
  rewrite unwrap_dels_unfold in Hx.
  apply elem_of_descendants in Hx as (y & Hy & Hx). simpl in Hy.
  apply list_elem_of_fmap in Hy as (c' & -> & Hc').
  assert (forall z, z ∈ iter c' -> Q z) as HQc'.
  { intros z Hz. destruct (iter_spliced e c' z Hc' Hz) as (z0 & Hz0 & [->| ->]);
      [|apply Hretag]; by apply He. }
  apply elem_of_iter in Hx as [->|Hx].
  - destruct (shallow_unwrap n c') as (Ht & Ha & _).
    apply (Hshallow c'); [done..|]. apply HQc', elem_of_iter. by left.
  - apply (IH c'); [|done]. intros z Hz. apply HQc', elem_of_iter. by right.
Qed.

(** No insertion by Claude is left below the root of the reconstruction. *)
Lemma reconstruction_has_no_claude_ins (root x : element) :
  x ∈ descendants (_remove_claude_tracked_changes root) ->
  is_claude_ins x = false.
Proof.
  unfold _remove_claude_tracked_changes.
  apply (unwrap_dels_keeps (fun x => is_claude_ins x = false)).
  - intros y. by rewrite is_claude_ins_retag.
  - intros y z Ht Ha. by rewrite (is_claude_ins_shallow y z).
  - apply remove_ins_clean.
Qed.

(** A tree without regions by Claude is left as it is. *)
Lemma remove_ins_id (e : element) :
  (forall x, x ∈ descendants e -> is_claude_ins x = false) -> remove_ins e = e.
Proof.
  induction e as [tg a tx tl cs IH] using element_ind'. intros Hno. simpl. f_equal.
  assert (forall c, c ∈ cs -> is_claude_ins c = false /\ remove_ins c = c) as Hcs.
  { intros c Hc. rewrite Forall_forall in IH. split.
    - apply Hno, elem_of_descendants. exists c. split; [done|].
      apply elem_of_iter. by left.
    - apply IH; [done|]. intros x Hx. apply Hno.
      by apply (descendants_child _ c). }
  clear IH Hno. induction cs as [|c cs IHcs]; [done|]. simpl.
  destruct (Hcs c (list_elem_of_here _ _)) as [-> ->]. simpl. f_equal.
  apply IHcs. intros c' Hc'. apply Hcs. by right.
Qed.

Lemma unwrap_dels_id (n : nat) (e : element) :
  (forall x, x ∈ descendants e -> is_claude_del x = false) ->
  unwrap_dels n e = e.
Proof.
  revert e. induction n as [|n IH]; intros e Hno; [done|].
  rewrite unwrap_dels_unfold. destruct e as [tg a tx tl cs]. simpl. f_equal.
  assert (forall c, c ∈ cs -> is_claude_del c = false /\ unwrap_dels n c = c) as Hcs.
  { intros c Hc. split.
    - apply Hno, elem_of_descendants. exists c. split; [done|].
      apply elem_of_iter. by left.
    - apply IH. intros x Hx. apply Hno.
      by apply (descendants_child _ c). }
  clear IH Hno. induction cs as [|c cs IHcs]; [done|]. simpl.
  destruct (Hcs c (list_elem_of_here _ _)) as [Hd Hu].
  unfold splice at 1. rewrite Hd. simpl. rewrite Hu. f_equal.
  apply IHcs. intros c' Hc'. apply Hcs. by right.
Qed.

Lemma reconstruction_id (root : element) :
  no_claude_region root -> _remove_claude_tracked_changes root = root.
Proof.
  intros Hno. unfold _remove_claude_tracked_changes.
  rewrite remove_ins_id by (intros x Hx; by apply Hno).
  apply unwrap_dels_id. intros x Hx. by apply Hno.
Qed.

(** *** What the reconstruction keeps *)

Lemma same_but_retagged_shallow (x y : element) :
  tag y = tag x -> attrib y = attrib x -> text y = text x -> tail y = tail x ->
  same_but_retagged x y.
Proof. unfold same_but_retagged. auto. Qed.

Lemma same_but_retagged_retag (x : element) : same_but_retagged x (retag x).
Proof.
  destruct x as [tg a tx tl cs]. unfold same_but_retagged. simpl.
  repeat split. case_bool_decide; auto.
Qed.

Lemma same_but_retagged_trans (x y z : element) :
  same_but_retagged x y -> same_but_retagged y z -> same_but_retagged x z.
Proof.
  intros (Ha & Hx & Hl & Ht) (Ha' & Hx' & Hl' & Ht').
  unfold same_but_retagged. rewrite Ha', Ha, Hx', Hx, Hl', Hl. repeat split.
  destruct Ht as [Ht|[Ht1 Ht2]], Ht' as [Ht'|[Ht1' Ht2']].
  - left. congruence.
  - right. split; congruence.
  - right. split; congruence.
  - right. split; congruence.
Qed.

Lemma survive_remove_ins (root x : element) :
  outside_claude_ins root x -> remove_ins x ∈ iter (remove_ins root).
Proof.
  induction 1 as [root | root c x Hc Hi _ IH].
  - apply elem_of_iter. by left.
  - apply elem_of_iter. right. apply elem_of_descendants.
    exists (remove_ins c). split; [|done].
    apply elem_of_children_remove_ins. eauto.
Qed.

Lemma iter_unwrap_child (n : nat) (t c' z : element) :
  c' ∈ flat_map splice (children t) -> z ∈ iter (unwrap_dels n c') ->
  z ∈ iter (unwrap_dels (S n) t).
Proof.
  intros Hc' Hz. apply elem_of_iter. right. apply elem_of_descendants.
  exists (unwrap_dels n c'). split; [|done].
  rewrite unwrap_dels_unfold. simpl. apply list_elem_of_fmap. eauto.
Qed.

Lemma elem_of_spliced (t c c' : element) :
  c ∈ children t -> c' ∈ splice c -> c' ∈ flat_map splice (children t).
Proof.
  intros Hc Hc'. apply list_elem_of_In, in_flat_map. exists c.
  by rewrite <- !list_elem_of_In.
Qed.

Lemma survive_unwrap_dels (n : nat) (t y : element) :
  y ∈ iter t -> y = t \/ is_claude_del y = false ->
  exists z, z ∈ iter (unwrap_dels n t) /\ same_but_retagged y z.
Proof.
  revert t y. induction n as [|n IH]; intros t y Hy Hyt.
  - exists y. split; [done|]. by apply same_but_retagged_shallow.
  - assert (y = t \/ (is_claude_del y = false /\ y ∈ descendants t)) as [->|[Hd Hdesc]].
    { apply elem_of_iter in Hy. tauto. }
    + exists (unwrap_dels (S n) t). split; [apply elem_of_iter; by left|].
      destruct (shallow_unwrap (S n) t) as (? & ? & ? & ?).
      by apply same_but_retagged_shallow.
    + apply elem_of_descendants in Hdesc as (c & Hc & Hyc).
      destruct (is_claude_del c) eqn:Hdc.
      * apply elem_of_iter in Hyc as [->|Hyc]; [congruence|].
        apply elem_of_descendants in Hyc as (c0 & Hc0 & Hy0).
        assert (retag c0 ∈ flat_map splice (children t)) as Hsp.
        { apply (elem_of_spliced t c); [done|]. unfold splice. rewrite Hdc.
          rewrite children_retag. apply list_elem_of_fmap. eauto. }
        destruct (IH (retag c0) (retag y)) as (z & Hz & Hyz).
        { rewrite iter_retag. apply list_elem_of_fmap. eauto. }
        { right. by rewrite is_claude_del_retag. }
        exists z. split; [by apply (iter_unwrap_child n t (retag c0))|].
        apply (same_but_retagged_trans _ (retag y)); [|done].
        apply same_but_retagged_retag.
      * assert (c ∈ flat_map splice (children t)) as Hsp.
        { apply (elem_of_spliced t c); [done|]. unfold splice. rewrite Hdc.
          by apply list_elem_of_singleton. }
        destruct (IH c y Hyc) as (z & Hz & Hyz); [by right|].
        exists z. split; [by apply (iter_unwrap_child n t c)|done].
Qed.

(** Every element outside the insertions by Claude that is not itself a
    deletion by Claude is still in the reconstructed tree. *)
Lemma reconstruction_keeps (root x : element) :
  outside_claude_ins root x -> x = root \/ is_claude_del x = false ->
  exists y, y ∈ iter (_remove_claude_tracked_changes root)
            /\ same_but_retagged x y.
Proof.
  intros Hout Hx. unfold _remove_claude_tracked_changes.
  destruct (shallow_remove_ins x) as (Ht & Ha & Htx & Htl).
  destruct (survive_unwrap_dels (height (remove_ins root)) (remove_ins root)
              (remove_ins x)) as (z & Hz & Hxz).
  - by apply survive_remove_ins.
  - destruct Hx as [->|Hd]; [by left|right].
    by rewrite (is_claude_del_shallow x).
  - exists z. split; [done|].
    apply (same_but_retagged_trans _ (remove_ins x)); [|done].
    by apply same_but_retagged_shallow.
Qed.

(** *** The claims on the redlining validator *)




(** C10: whatever author the session is configured with and whatever the
    baseline holds, validation passes when the working copy parses and has
    no w:ins / w:del whose author is "Claude", and the reconstruction then
    leaves the tree as it is. In every tree, an element that is neither in
    an insertion by Claude nor itself a deletion by Claude is still there
    after the reconstruction (with w:delText turned into w:t at most). *)
Theorem C10_only_claude_regions (s : session) (root : element) :
  modified_file (session_files s) = Parsed root ->
  (no_claude_region root ->
     session_redlining s = true
     /\ _remove_claude_tracked_changes root = root)
  /\ (forall x, outside_claude_ins root x ->
                x = root \/ is_claude_del x = false ->
                exists y, y ∈ iter (_remove_claude_tracked_changes root)
                          /\ same_but_retagged x y).
Proof.
  intros Hm. split.
  - intros Hno. split.
    + by apply (validate_no_claude_region _ root).
    + by apply reconstruction_id.
  - apply reconstruction_keeps.
Qed.

Lemma C10_only_claude_regions_witness :
  session_redlining x_session = true
  /\ _remove_claude_tracked_changes x_modified = x_modified.
Proof.
  refine (proj1 (C10_only_claude_regions x_session x_modified eq_refl) _).
  rewrite <- claude_check_iff. by vm_compute.
Defined.

End RedliningFacts.

(** ** minidom trees and XMLEditor.get_node *)

Section DomFacts.
Import Dom.

(** Induction over a node with the hypothesis for every child. *)
Lemma node_ind' (P : node -> Prop) :
  (forall t a pos cs, Forall P cs -> P (Element t a pos cs)) ->
  (forall s, P (Text s)) -> (forall s, P (Comment s)) ->
  forall n, P n.
Proof.
  intros He Ht Hc. fix self 1. intros [t a pos cs|s|s]; [|apply Ht|apply Hc].
  apply He. induction cs as [|c cs IHcs]; constructor; [apply self | exact IHcs].
Qed.

Lemma elem_of_flat_mapi {A B} (f : nat -> A -> list B) (i : nat) (l : list A) (y : B) :
  y ∈ flat_mapi f i l <-> exists k x, l !! k = Some x /\ y ∈ f (i + k) x.
Proof.
  revert i. induction l as [|x l IH]; intros i; simpl.
  - split; [by intros ?%elem_of_nil | by intros (k & x & ? & _)].
  - rewrite elem_of_app, IH. split.
    + intros [Hy|(k & x' & Hk & Hy)].
      * exists 0, x. by rewrite Nat.add_0_r.
      * exists (S k), x'. by rewrite Nat.add_succ_r.
    + intros ([|k] & x' & Hk & Hy); simpl in Hk.
      * injection Hk as <-. left. by rewrite Nat.add_0_r in Hy.
      * right. exists k, x'. by rewrite Nat.add_succ_r in Hy.
Qed.

Lemma node_at_cons (n : node) (i : nat) (q : path) :
  node_at n (i :: q) = c ← childNodes n !! i; node_at c q.
Proof. simpl. by destruct (childNodes n !! i). Qed.

(** [descendant_elements] lists exactly the elements below a node, each
    with its path. *)
Lemma elem_of_descendant_elements (n : node) (p : path) (e : node) :
  (p, e) ∈ descendant_elements n
  <-> p <> [] /\ node_at n p = Some e /\ is_element e = true.
Proof.
  revert p. induction n as [t a pos cs IH|s|s] using node_ind'; intros p;
    [|split; [by intros ?%elem_of_nil
            |intros (Hp & Hat & _); by destruct p as [|[|i] q]]..].
  simpl. rewrite elem_of_flat_mapi. rewrite Forall_forall in IH. split.
  - intros (k & c & Hk & Hy). simpl in Hy.
    destruct (is_element c) eqn:Hc; [|by apply elem_of_nil in Hy].
    apply elem_of_cons in Hy as [[= -> ->]|Hy].
    + simpl. by rewrite Hk.
    + apply list_elem_of_fmap in Hy as ([q e'] & [= -> ->] & Hq).
      apply IH in Hq as (Hq & Hat & He); [|by eapply list_elem_of_lookup_2].
      simpl. by rewrite Hk.
  - intros (Hp & Hat & He). destruct p as [|i q]; [done|].
    simpl in Hat. destruct (cs !! i) as [c|] eqn:Hk; [|done].
    exists i, c. split; [done|]. simpl.
    destruct q as [|j q].
    + injection Hat as ->. rewrite He. by left.
    + assert (is_element c = true) as ->.
      { destruct c; [done|by destruct j..]. }
      right. apply list_elem_of_fmap. exists (j :: q, e). split; [done|].
      apply IH; [by eapply list_elem_of_lookup_2|done].
Qed.

Lemma elem_of_getElementsByTagName (n : node) (name : string) (p : path) (e : node) :
  (p, e) ∈ getElementsByTagName n name
  <-> p <> [] /\ node_at n p = Some e /\ is_element e = true
      /\ tag_matches name (nodeName e) = true.
Proof.
  unfold getElementsByTagName.
  rewrite list_elem_of_filter, elem_of_descendant_elements. simpl.
  rewrite Is_true_true. tauto.
Qed.

End DomFacts.

Section GetNodeFacts.
Import Dom Editor.

Variable html_unescape : string -> string.

Local Abbreviation passes := (passes_filters html_unescape).
Local Abbreviation lookup_node := (get_node_in html_unescape).

Lemma filter_description_ends (attrs : option (list (string * string)))
    (line_number : option line_filter) (contains : option string) (desc : string) :
  desc ∈ filter_descriptions attrs line_number contains ->
  exists c, Py.last_char desc = Some c /\ Py.isspace c = false.
Proof.
  unfold filter_descriptions. rewrite !elem_of_app.
  intros [Hd|[Hd|Hd]].
  - destruct line_number as [[n|start stop step]|];
      [| |by apply elem_of_nil in Hd];
      apply list_elem_of_singleton in Hd as ->.
    + destruct (last_char_str_of_Z n) as (c & Hc & Hs). exists c.
      split; [by apply last_char_app|done].
    + destruct (last_char_str_of_Z (stop - 1)) as (c & Hc & Hs). exists c.
      split; [by do 3 apply last_char_app|done].
  - destruct attrs as [items|]; [|by apply elem_of_nil in Hd].
    apply list_elem_of_singleton in Hd as ->. exists "}"%char.
    split; [|done]. unfold repr_dict. by do 3 apply last_char_app.
  - destruct contains as [text|]; [|by apply elem_of_nil in Hd].
    apply list_elem_of_singleton in Hd as ->. exists "'"%char.
    split; [|done]. by do 2 apply last_char_app.
Qed.

(** The message for no match names every filter in use, and ends in the
    hint. *)
Lemma not_found_message_mentions (tag : string)
    (attrs : option (list (string * string)))
    (line_number : option line_filter) (contains : option string) :
  (forall desc, desc ∈ filter_descriptions attrs line_number contains ->
     Py.contains desc (not_found_message tag attrs line_number contains) = true)
  /\ Py.contains (not_found_hint attrs line_number contains)
       (not_found_message tag attrs line_number contains) = true.
Proof.
  unfold not_found_message. split.
  - intros desc Hd. apply contains_app_l.
    destruct (filter_description_ends _ _ _ _ Hd) as (c & Hc & Hs).
    unfold Py.strip.
    assert (forall s, Py.lstrip ("Node not found: <" +:+ s) = "Node not found: <" +:+ s)
      as -> by done.
    apply (contains_rstrip _ _ c); [|done..].
    do 3 apply contains_app_r. by apply contains_join.
  - do 2 apply contains_app_r. apply contains_refl.
Qed.



End GetNodeFacts.

(** ** Trees that differ by added attributes *)

Section ExtFacts.
Import Dom.

Lemma ext_refl (n : node) : ext n n.
Proof.
  induction n as [t a pos cs IH|s|s] using node_ind'; constructor; [done|].
  induction IH; constructor; auto.
Qed.

Lemma ext_ind' (P : node -> node -> Prop) :
  (forall t a a' pos cs cs',
     a ⊆ a' -> Forall2 ext cs cs' -> Forall2 P cs cs' ->
     P (Element t a pos cs) (Element t a' pos cs')) ->
  (forall s, P (Text s) (Text s)) ->
  (forall s, P (Comment s) (Comment s)) ->
  forall n n', ext n n' -> P n n'.
Proof.
  intros He Ht Hc. fix self 3. intros n n' [t a a' pos cs cs' Ha Hcs|s|s];
    [|apply Ht|apply Hc].
  apply He; [done..|].
  induction Hcs as [|c c' cs cs' Hcc' Hcs IH]; constructor; [by apply self|exact IH].
Qed.

Lemma ext_trans (n1 n2 n3 : node) : ext n1 n2 -> ext n2 n3 -> ext n1 n3.
Proof.
  intros H12. revert n3.
  induction H12 as [t a a' pos cs cs' Ha Hcs IH|s|s] using ext_ind';
    intros n3 H23; [|done..].
  inversion H23 as [t' a2 a3 pos' cs2 cs3 Ha' Hcs' | |]; subst.
  constructor; [by etrans|].
  clear -IH Hcs'. revert cs3 Hcs'.
  induction IH as [|c c' cs cs' Hc _ IHcs]; intros cs3 Hcs3.
  - inversion Hcs3. constructor.
  - inversion Hcs3 as [|c2 c3 cs2 cs3' Hc23 Hcs23]; subst.
    constructor; auto.
Qed.

Lemma ext_nodeName (n n' : node) : ext n n' -> nodeName n' = nodeName n.
Proof. by destruct 1. Qed.

Lemma ext_is_element (n n' : node) : ext n n' -> is_element n' = is_element n.
Proof. by destruct 1. Qed.

Lemma ext_parse_position (n n' : node) :
  ext n n' -> parse_position n' = parse_position n.
Proof. by destruct 1. Qed.

Lemma ext_children (n n' : node) :
  ext n n' -> Forall2 ext (childNodes n) (childNodes n').
Proof. destruct 1; simpl; [done|constructor..]. Qed.

Lemma ext_attributes (n n' : node) : ext n n' -> attributes n ⊆ attributes n'.
Proof. by destruct 1. Qed.

Lemma ext_hasAttribute (n n' : node) (name : string) :
  ext n n' -> hasAttribute n name = true -> hasAttribute n' name = true.
Proof.
  intros Hext%ext_attributes. unfold hasAttribute.
  rewrite !bool_decide_eq_true. intros [v Hv]. exists v.
  by eapply lookup_weaken.
Qed.

Lemma ext_getAttribute (n n' : node) (name : string) :
  ext n n' -> hasAttribute n name = true ->
  getAttribute n' name = getAttribute n name.
Proof.
  intros Hext%ext_attributes. unfold hasAttribute, getAttribute.
  rewrite bool_decide_eq_true. intros [v Hv].
  by rewrite Hv, (lookup_weaken _ _ _ _ Hv Hext).
Qed.

Lemma ext_node_at (d d' : node) (p : path) :
  ext d d' ->
  match node_at d p, node_at d' p with
  | Some n, Some n' => ext n n'
  | None, None => True
  | _, _ => False
  end.
Proof.
  revert d d'. induction p as [|i p IH]; intros d d' Hext; [done|].
  simpl. pose proof (ext_children _ _ Hext) as Hcs.
  destruct (childNodes d !! i) as [c|] eqn:Hc.
  - destruct (Forall2_lookup_l _ _ _ _ _ Hcs Hc) as (c' & -> & Hcc').
    by apply IH.
  - apply lookup_ge_None in Hc. rewrite (Forall2_length _ _ _ Hcs) in Hc.
    apply lookup_ge_None in Hc. by rewrite Hc.
Qed.

Lemma ext_node_at_Some (d d' : node) (p : path) (n : node) :
  ext d d' -> node_at d p = Some n ->
  exists n', node_at d' p = Some n' /\ ext n n'.
Proof.
  intros Hext Hn. pose proof (ext_node_at d d' p Hext) as H. rewrite Hn in H.
  destruct (node_at d' p) as [n'|]; [eauto|done].
Qed.

Lemma ext_node_at_Some_r (d d' : node) (p : path) (n' : node) :
  ext d d' -> node_at d' p = Some n' ->
  exists n, node_at d p = Some n /\ ext n n'.
Proof.
  intros Hext Hn. pose proof (ext_node_at d d' p Hext) as H. rewrite Hn in H.
  destruct (node_at d p) as [n|]; [eauto|done].
Qed.

(** *** Updates in place *)

Lemma node_at_app (d : node) (p q : path) :
  node_at d (p ++ q) = n ← node_at d p; node_at n q.
Proof.
  revert d. induction p as [|i p IH]; intros d; [done|].
  simpl. destruct (childNodes d !! i); [apply IH|done].
Qed.

Lemma node_at_update_same (d : node) (p : path) (f : node -> node) (n : node) :
  node_at d p = Some n -> node_at (update_at p f d) p = Some (f n).
Proof.
  revert d. induction p as [|i p IH]; intros d; simpl; [by intros [= ->]|].
  destruct d as [t a pos cs|s|s]; simpl; [|done..].
  destruct (cs !! i) as [c|] eqn:Hc; [|done]. intros Hn.
  rewrite list_lookup_alter_eq, Hc. simpl. by apply IH.
Qed.

Lemma update_at_stale (d : node) (p : path) (f : node -> node) :
  node_at d p = None -> update_at p f d = d.
Proof.
  revert d. induction p as [|i p IH]; intros d; simpl; [done|].
  destruct d as [t a pos cs|s|s]; simpl; [|done..].
  intros Hn. f_equal. apply list_eq. intros j.
  destruct (decide (i = j)) as [<-|Hne]; [|by rewrite list_lookup_alter_ne].
  rewrite list_lookup_alter_eq.
  destruct (cs !! i) as [c|]; simpl; [by rewrite IH|done].
Qed.

Lemma ext_update_at (d : node) (p : path) (f : node -> node) :
  (forall n, node_at d p = Some n -> ext n (f n)) ->
  ext d (update_at p f d).
Proof.
  revert d. induction p as [|i p IH]; intros d Hf; simpl; [by apply Hf|].
  destruct d as [t a pos cs|s|s]; [|constructor..].
  constructor; [done|].
  apply Forall2_same_length_lookup. split; [by rewrite length_alter|].
  intros j c c' Hc Hc'.
  destruct (decide (i = j)) as [<-|Hne].
  - rewrite list_lookup_alter_eq, Hc in Hc'. injection Hc' as <-.
    apply IH. intros n Hn. apply Hf. simpl. by rewrite Hc.
  - rewrite list_lookup_alter_ne, Hc in Hc' by done. injection Hc' as <-.
    apply ext_refl.
Qed.

Lemma ext_setAttribute (n : node) (name value : string) :
  hasAttribute n name = false -> ext n (setAttribute name value n).
Proof.
  unfold hasAttribute. intros Hno%bool_decide_eq_false.
  destruct n as [t a pos cs|s|s]; simpl in *; [|constructor..].
  constructor.
  - apply insert_subseteq. by apply eq_None_not_Some.
  - apply Forall2_same_length_lookup. split; [done|].
    intros j c c' Hc Hc'. rewrite Hc in Hc'. injection Hc' as <-. apply ext_refl.
Qed.

Lemma hasAttribute_setAttribute (n : node) (name value : string) :
  is_element n = true -> hasAttribute (setAttribute name value n) name = true.
Proof.
  destruct n as [t a pos cs|s|s]; [|done..]. intros _. unfold hasAttribute.
  simpl. apply bool_decide_eq_true. rewrite lookup_insert_eq. eauto.
Qed.

(** *** What does not depend on the attributes *)

Lemma ext_listed_paths (l l' : list (path * node)) :
  ext_listed l l' -> map fst l = map fst l'.
Proof. induction 1 as [|x y l l' [Hxy _] _ IH]; simpl; congruence. Qed.

Lemma ext_listed_app (l1 l1' l2 l2' : list (path * node)) :
  ext_listed l1 l1' -> ext_listed l2 l2' -> ext_listed (l1 ++ l2) (l1' ++ l2').
Proof. apply Forall2_app. Qed.

Lemma ext_listed_map (f : path -> path) (l l' : list (path * node)) :
  ext_listed l l' ->
  ext_listed (map (fun q => (f (fst q), snd q)) l)
             (map (fun q => (f (fst q), snd q)) l').
Proof.
  induction 1 as [|x y l l' [Hxy Hext] _ IH]; simpl; constructor; [|done].
  simpl. by rewrite Hxy.
Qed.

Lemma ext_listed_filter (P : path * node -> bool) (l l' : list (path * node)) :
  (forall x y, fst x = fst y -> ext (snd x) (snd y) -> P x = P y) ->
  ext_listed l l' ->
  ext_listed (filter (fun q => P q) l) (filter (fun q => P q) l').
Proof.
  intros HP. induction 1 as [|x y l l' [Hxy Hext] _ IH]; [constructor|].
  rewrite !filter_cons. rewrite (HP x y Hxy Hext).
  destruct (P y); simpl; [constructor|]; done.
Qed.

Lemma ext_descendant_elements (n n' : node) :
  ext n n' -> ext_listed (descendant_elements n) (descendant_elements n').
Proof.
  induction 1 as [t a a' pos cs cs' Ha Hcs IH|s|s] using ext_ind';
    [|constructor..].
  simpl. generalize 0 as i.
  induction IH as [|c c' cs0 cs0' Hc _ IHcs]; intros i; simpl; [constructor|].
  inversion Hcs as [|? ? ? ? Hcc' Hcs']; subst.
  apply ext_listed_app; [|by apply IHcs].
  rewrite (ext_is_element _ _ Hcc'). destruct (is_element c); [|constructor].
  constructor; [done|]. by apply (ext_listed_map (cons i)).
Qed.

Lemma ext_getElementsByTagName (n n' : node) (name : string) :
  ext n n' ->
  ext_listed (getElementsByTagName n name) (getElementsByTagName n' name).
Proof.
  intros Hext. unfold getElementsByTagName.
  apply (ext_listed_filter (fun q => tag_matches name (nodeName (snd q)))).
  - intros x y _ Hxy. by rewrite (ext_nodeName _ _ Hxy).
  - by apply ext_descendant_elements.
Qed.

Lemma ext_elements_below (d d' : node) (p : path) (name : string) :
  ext d d' -> ext_listed (elements_below d p name) (elements_below d' p name).
Proof.
  intros Hext. unfold elements_below.
  pose proof (ext_node_at d d' p Hext) as Hat.
  destruct (node_at d p) as [n|], (node_at d' p) as [n'|]; try done;
    [|constructor].
  apply (ext_listed_map (app p)). by apply ext_getElementsByTagName.
Qed.

Lemma ext_first_element (cs cs' : list node) (i : nat) :
  Forall2 ext cs cs' -> first_element i cs' = first_element i cs.
Proof.
  intros H. revert i. induction H as [|c c' cs cs' Hc _ IH]; intros i; [done|].
  simpl. destruct Hc; simpl; auto.
Qed.

Lemma ext_documentElement (d d' : node) :
  ext d d' -> documentElement d' = documentElement d.
Proof. intros H. apply ext_first_element. by apply ext_children. Qed.

End ExtFacts.


(** ** The attribute injection of DocxXMLEditor *)

Section InjectFacts.
Import Dom Editor Docx.

Lemma bind_run {A B} (m : M A) (k : A -> M B) (s : state) :
  (m ≫= k) s = match m s with
               | (inl e, s') => (inl e, s')
               | (inr a, s') => k a s'
               end.
Proof. reflexivity. Qed.

Lemma deref_run (p : path) (s : state) :
  deref p s = match node_at (dom s) p with
              | Some n => (inr n, s)
              | None => (inl StaleReference, s)
              end.
Proof. unfold deref. rewrite bind_run. simpl. by destruct (node_at _ _). Qed.

Lemma element_at_run (p : path) (s : state) :
  element_at p s =
  match node_at (dom s) p with
  | Some n => if is_element n then (inr n, s)
              else (inl (AttributeError "object has no attribute 'hasAttribute'"), s)
  | None => (inl StaleReference, s)
  end.
Proof.
  unfold element_at. rewrite bind_run, deref_run.
  destruct (node_at _ _) as [n|]; [|done]. by destruct (is_element n).
Qed.

(** *** Computations that only add attributes *)

Lemma extends_ret {A} (a : A) : extends (mret a : M A).
Proof. intros s. apply ext_refl. Qed.

Lemma extends_raise {A} (e : exn) : extends (raise e : M A).
Proof. intros s. apply ext_refl. Qed.

Lemma extends_bind {A B} (m : M A) (k : A -> M B) :
  extends m -> (forall a, extends (k a)) -> extends (m ≫= k).
Proof.
  intros Hm Hk s. rewrite bind_run. specialize (Hm s).
  destruct (m s) as [[e|a] s1]; [done|].
  eapply ext_trans; [exact Hm|apply Hk].
Qed.

Lemma extends_get_dom : extends get_dom.
Proof. intros s. apply ext_refl. Qed.

Lemma extends_deref (p : path) : extends (deref p).
Proof. intros s. rewrite deref_run. destruct (node_at _ _); apply ext_refl. Qed.

Lemma extends_element_at (p : path) : extends (element_at p).
Proof.
  intros s. rewrite element_at_run.
  destruct (node_at _ _) as [n|]; [destruct (is_element n)|]; apply ext_refl.
Qed.

Lemma extends_for_each {A} (l : list A) (body : A -> M unit) :
  (forall x, extends (body x)) -> extends (for_each l body).
Proof.
  intros Hb. induction l as [|x l IH]; [apply extends_ret|].
  apply extends_bind; [apply Hb|done].
Qed.

(** *** What the injection reads of the shape of the tree *)

Lemma ext_is_inside_deletion (d d' : node) (p : path) :
  ext d d' -> is_inside_deletion d' p = is_inside_deletion d p.
Proof.
  intros Hext. unfold is_inside_deletion.
  induction (seq 0 (length p)) as [|k l IH]; [done|].
  simpl. rewrite IH. f_equal.
  pose proof (ext_node_at d d' (take k p) Hext) as Hat.
  destruct (node_at d (take k p)) as [n|], (node_at d' (take k p)) as [n'|];
    try done.
  by destruct Hat.
Qed.

Lemma ext_needs_preserve (n n' : node) :
  ext n n' -> needs_preserve n' = needs_preserve n.
Proof.
  intros Hext%ext_children. unfold needs_preserve.
  destruct Hext as [|c c' cs cs' Hc _]; [done|]. by destruct Hc.
Qed.

Lemma needs_preserve_element (n : node) :
  needs_preserve n = true -> is_element n = true.
Proof. by destruct n. Qed.

(** Setting an attribute somewhere leaves the other attributes of every node
    as they are. *)
Lemma node_at_setAttribute (d : node) (p q : path) (ns v : string) (n : node) :
  node_at d p = Some n ->
  exists n', node_at (update_at q (setAttribute ns v) d) p = Some n'
             /\ is_element n' = is_element n
             /\ forall name, name <> ns -> hasAttribute n' name = hasAttribute n name.
Proof.
  revert d q. induction p as [|i p IH]; intros d q.
  - intros [= ->]. simpl. eexists. split; [done|].
    destruct q as [|j q]; simpl.
    + destruct n as [t a pos cs|s|s]; simpl; [|done..].
      split; [done|]. intros name Hne. unfold hasAttribute. simpl.
      by rewrite lookup_insert_ne.
    + by destruct n.
  - simpl. destruct d as [t a pos cs|s|s]; simpl; [|done..].
    destruct (cs !! i) as [c|] eqn:Hc; [|done]. intros Hn.
    destruct q as [|j q]; simpl.
    + rewrite Hc. eauto.
    + destruct (decide (j = i)) as [->|Hne].
      * rewrite list_lookup_alter_eq, Hc. simpl. by apply IH.
      * rewrite list_lookup_alter_ne, Hc by done. eauto.
Qed.

Lemma has_at_ext (d d' : node) (p : path) (name : string) :
  ext d d' -> has_at d p name -> has_at d' p name.
Proof.
  intros Hext (n & Hn & Hel & Hhas).
  destruct (ext_node_at_Some d d' p n Hext Hn) as (n' & Hn' & Hnn').
  exists n'. split; [done|]. split.
  - by rewrite (ext_is_element _ _ Hnn').
  - by apply (ext_hasAttribute n).
Qed.

(** *** Computations that settle *)

Lemma settles_ret : settles (mret tt) (fun _ => True).
Proof. split; [apply extends_ret|done]. Qed.

Lemma settles_seq (m1 m2 : M unit) (D1 D2 : node -> Prop) :
  settles m1 D1 -> settles m2 D2 ->
  settles (m1 ;; m2) (fun d => D1 d /\ D2 d).
Proof.
  intros (He1 & Hd1 & Hs1 & Hn1) (He2 & Hd2 & Hs2 & Hn2).
  split; [|split; [|split]].
  - apply extends_bind; [done|]. by intros _.
  - intros s. rewrite bind_run. specialize (Hd1 s).
    destruct (m1 s) as [[e|[]] s1]; [done|]. intros Hok.
    split; [|by apply Hd2].
    eapply Hs1; [apply He2|]. by apply Hd1.
  - intros d d' Hext [H1 H2]. eauto.
  - intros s [H1 H2]. rewrite bind_run, (Hn1 s H1). by apply Hn2.
Qed.

Lemma settles_if (c : bool) (m1 m2 : M unit) (D1 D2 : node -> Prop) :
  settles m1 D1 -> settles m2 D2 ->
  settles (if c then m1 else m2) (if c then D1 else D2).
Proof. by destruct c. Qed.

Lemma settles_for_each {A} (l : list A) (body : A -> M unit)
    (D : A -> node -> Prop) :
  (forall x, settles (body x) (D x)) ->
  settles (for_each l body) (fun d => Forall (fun x => D x d) l).
Proof.
  intros Hb. induction l as [|x l IH]; simpl.
  - split; [apply extends_ret|]. split; [by constructor|]. split; [done|].
    done.
  - destruct (settles_seq _ _ _ _ (Hb x) IH) as (He & Hd & Hs & Hn).
    split; [done|]. split; [|split].
    + intros s Hok. constructor; by apply (Hd s Hok).
    + intros d d' Hext [H1 H2]%Forall_cons. apply Forall_cons.
      apply (Hs d d' Hext). done.
    + intros s [H1 H2]%Forall_cons. by apply Hn.
Qed.

(** A computation chosen by what it reads of the shape of the tree. *)
Lemma settles_get_dom {S} (shape : node -> S) (k : S -> M unit)
    (D : S -> node -> Prop) :
  (forall d d', ext d d' -> shape d' = shape d) ->
  (forall x, settles (k x) (D x)) ->
  settles (d ← get_dom; k (shape d)) (fun d => D (shape d) d).
Proof.
  intros Hshape Hk. split; [|split; [|split]].
  - apply extends_bind; [apply extends_get_dom|]. intros d. apply Hk.
  - intros s. rewrite bind_run. simpl. intros Hok.
    destruct (Hk (shape (dom s))) as (He & Hd & _).
    rewrite (Hshape (dom s)) by apply He. by apply Hd.
  - intros d d' Hext Hd. rewrite (Hshape d d' Hext).
    destruct (Hk (shape d)) as (_ & _ & Hs & _). by apply (Hs d).
  - intros s Hd. rewrite bind_run. simpl.
    destruct (Hk (shape (dom s))) as (_ & _ & _ & Hn). by apply Hn.
Qed.

(** *** The six local functions of the injection *)

Lemma extends_setAttr_absent (elem : path) (name value : string) (s : state)
    (n : node) :
  node_at (dom s) elem = Some n -> hasAttribute n name = false ->
  ext (dom s) (dom (snd (setAttr elem name value s))).
Proof.
  intros Hn Hno. simpl. apply ext_update_at. intros n0 Hn0.
  rewrite Hn in Hn0. injection Hn0 as <-. by apply ext_setAttribute.
Qed.

Lemma has_at_setAttr (elem : path) (name value : string) (s : state)
    (n : node) :
  node_at (dom s) elem = Some n -> is_element n = true ->
  has_at (dom (snd (setAttr elem name value s))) elem name.
Proof.
  intros Hn Hel. simpl. exists (setAttribute name value n).
  split; [by apply node_at_update_same|].
  split; [by destruct n|by apply hasAttribute_setAttribute].
Qed.

(** [if not elem.hasAttribute(name): before; elem.setAttribute(name, value)],
    where [before] only adds attributes and leaves [name] at [elem] absent,
    and computing [value] does not touch the tree. *)
Lemma settles_fill (elem : path) (name : string) (before : M unit)
    (value : M string) :
  extends before ->
  (forall s n, node_at (dom s) elem = Some n -> is_element n = true ->
               hasAttribute n name = false ->
               exists n', node_at (dom (snd (before s))) elem = Some n'
                          /\ is_element n' = true
                          /\ hasAttribute n' name = false) ->
  (forall s, dom (snd (value s)) = dom s) ->
  settles (e ← element_at elem;
           if hasAttribute e name then mret tt
           else before ;; v ← value; setAttr elem name v)
          (fun d => has_at d elem name).
Proof.
  intros Hpre Hkeep Hval. split; [|split; [|split]].
  - intros s. rewrite bind_run, element_at_run.
    destruct (node_at (dom s) elem) as [n|] eqn:Hn; [|apply ext_refl].
    destruct (is_element n) eqn:Hel; [|apply ext_refl].
    destruct (hasAttribute n name) eqn:Hhas; [apply ext_refl|].
    rewrite bind_run. destruct (Hkeep s n Hn Hel Hhas) as (n' & Hn' & _ & Hno).
    specialize (Hpre s). destruct (before s) as [[e|[]] s1]; [done|].
    rewrite bind_run. specialize (Hval s1).
    destruct (value s1) as [[e|v] s2]; simpl in *; [by rewrite Hval|].
    eapply ext_trans; [exact Hpre|]. rewrite <- Hval in *.
    by eapply extends_setAttr_absent.
  - intros s. rewrite bind_run, element_at_run.
    destruct (node_at (dom s) elem) as [n|] eqn:Hn; [|done].
    destruct (is_element n) eqn:Hel; [|done].
    destruct (hasAttribute n name) eqn:Hhas; [intros _; by exists n|].
    rewrite bind_run. destruct (Hkeep s n Hn Hel Hhas) as (n' & Hn' & Hel' & _).
    destruct (before s) as [[e|[]] s1]; [done|].
    rewrite bind_run. specialize (Hval s1).
    destruct (value s1) as [[e|v] s2]; [done|]. intros _.
    simpl in Hval, Hn'. rewrite <- Hval in Hn'. by eapply has_at_setAttr.
  - intros d d' Hext. by apply has_at_ext.
  - intros s (n & Hn & Hel & Hhas).
    by rewrite bind_run, element_at_run, Hn, Hel, Hhas.
Qed.

(** The same under a condition on the element that does not depend on its
    attributes. *)
Lemma settles_fill_if (elem : path) (name : string) (cond : node -> bool)
    (before : M unit) (value : M string) :
  (forall n n', ext n n' -> cond n' = cond n) ->
  extends before ->
  (forall s n, node_at (dom s) elem = Some n -> is_element n = true ->
               hasAttribute n name = false ->
               exists n', node_at (dom (snd (before s))) elem = Some n'
                          /\ is_element n' = true
                          /\ hasAttribute n' name = false) ->
  (forall s, dom (snd (value s)) = dom s) ->
  settles (e ← element_at elem;
           if cond e && negb (hasAttribute e name)
           then before ;; v ← value; setAttr elem name v
           else mret tt)
          (fun d => exists n, node_at d elem = Some n /\ is_element n = true
                              /\ (cond n = true -> hasAttribute n name = true)).
Proof.
  intros Hcond Hpre Hkeep Hval. split; [|split; [|split]].
  - intros s. rewrite bind_run, element_at_run.
    destruct (node_at (dom s) elem) as [n|] eqn:Hn; [|apply ext_refl].
    destruct (is_element n) eqn:Hel; [|apply ext_refl].
    destruct (cond n); [|apply ext_refl].
    destruct (hasAttribute n name) eqn:Hhas; [apply ext_refl|]. simpl.
    rewrite bind_run. destruct (Hkeep s n Hn Hel Hhas) as (n' & Hn' & _ & Hno).
    specialize (Hpre s). destruct (before s) as [[e|[]] s1]; [done|].
    rewrite bind_run. specialize (Hval s1).
    destruct (value s1) as [[e|v] s2]; simpl in *; [by rewrite Hval|].
    eapply ext_trans; [exact Hpre|]. rewrite <- Hval in *.
    by eapply extends_setAttr_absent.
  - intros s. rewrite bind_run, element_at_run.
    destruct (node_at (dom s) elem) as [n|] eqn:Hn; [|done].
    destruct (is_element n) eqn:Hel; [|done].
    destruct (cond n) eqn:Hc;
      [|intros _; exists n; split_and!; [done..|congruence]].
    destruct (hasAttribute n name) eqn:Hhas; [intros _; by exists n|]. simpl.
    rewrite bind_run. destruct (Hkeep s n Hn Hel Hhas) as (n' & Hn' & Hel' & _).
    destruct (before s) as [[e|[]] s1]; [done|].
    rewrite bind_run. specialize (Hval s1).
    destruct (value s1) as [[e|v] s2]; [done|]. intros _.
    simpl in Hval, Hn'. rewrite <- Hval in Hn'.
    destruct (has_at_setAttr elem name v s2 n' Hn' Hel') as (m & Hm & Hmel & Hmhas).
    exists m. eauto.
  - intros d d' Hext (n & Hn & Hel & Hhas).
    destruct (ext_node_at_Some d d' elem n Hext Hn) as (n' & Hn' & Hnn').
    exists n'. split; [done|]. split; [by rewrite (ext_is_element _ _ Hnn')|].
    rewrite (Hcond _ _ Hnn'). intros Hc. by apply (ext_hasAttribute n), Hhas.
  - intros s (n & Hn & Hel & Hhas).
    rewrite bind_run, element_at_run, Hn, Hel.
    destruct (cond n); [|done]. by rewrite Hhas.
Qed.

(** A computation chosen by what it reads of the shape of a node. *)
Lemma settles_deref {S} (p : path) (shape : node -> S) (k : S -> M unit)
    (D : S -> node -> Prop) :
  (forall n n', ext n n' -> shape n' = shape n) ->
  (forall x, settles (k x) (D x)) ->
  settles (n ← deref p; k (shape n))
          (fun d => exists n, node_at d p = Some n /\ D (shape n) d).
Proof.
  intros Hshape Hk. split; [|split; [|split]].
  - apply extends_bind; [apply extends_deref|]. intros d. apply Hk.
  - intros s. rewrite bind_run, deref_run.
    destruct (node_at (dom s) p) as [n|] eqn:Hn; [|done]. intros Hok.
    destruct (Hk (shape n)) as (He & Hd & _).
    destruct (ext_node_at_Some _ _ p n (He s) Hn) as (n' & Hn' & Hnn').
    exists n'. split; [done|]. rewrite (Hshape _ _ Hnn'). by apply Hd.
  - intros d d' Hext (n & Hn & Hd).
    destruct (ext_node_at_Some d d' p n Hext Hn) as (n' & Hn' & Hnn').
    exists n'. split; [done|]. rewrite (Hshape _ _ Hnn').
    destruct (Hk (shape n)) as (_ & _ & Hs & _). by apply (Hs d).
  - intros s (n & Hn & Hd). rewrite bind_run, deref_run, Hn.
    destruct (Hk (shape n)) as (_ & _ & _ & Hnoop). by apply Hnoop.
Qed.

Section WithConfig.

Variable cfg : config.

Lemma settles_set_if_absent (elem : path) (name value : string) :
  settles (set_if_absent elem name value) (fun d => has_at d elem name).
Proof.
  refine (settles_fill elem name (mret tt) (mret value) _ _ _);
    [apply extends_ret| |done].
  intros s n Hn Hel Hno. by exists n.
Qed.

Lemma extends_set_if_absent (elem : path) (name value : string) :
  extends (set_if_absent elem name value).
Proof. apply settles_set_if_absent. Qed.

Lemma extends_ensure_namespace (ns uri : string) :
  extends (_ensure_namespace ns uri).
Proof.
  apply extends_bind; [apply extends_get_dom|]. intros d.
  destruct (documentElement d); [apply extends_set_if_absent|apply extends_raise].
Qed.

Lemma ensure_namespace_keeps (ns uri : string) (elem : path) (name : string)
    (s : state) (n : node) :
  name <> ns ->
  node_at (dom s) elem = Some n -> is_element n = true ->
  hasAttribute n name = false ->
  exists n', node_at (dom (snd (_ensure_namespace ns uri s))) elem = Some n'
             /\ is_element n' = true /\ hasAttribute n' name = false.
Proof.
  intros Hne Hn Hel Hno. unfold _ensure_namespace. rewrite bind_run. simpl.
  destruct (documentElement (dom s)) as [root|]; [|by exists n].
  unfold set_if_absent. rewrite bind_run, element_at_run.
  destruct (node_at (dom s) root) as [r|]; [|by exists n].
  destruct (is_element r); [|by exists n].
  destruct (hasAttribute r ns); [by exists n|]. simpl.
  destruct (node_at_setAttribute (dom s) elem root ns uri n Hn)
    as (n' & Hn' & Hel' & Hsame).
  exists n'. split; [done|]. split; [congruence|]. by rewrite Hsame.
Qed.

Lemma settles_add_hex_id (elem : path) (name : string) :
  name <> "xmlns:w14" ->
  settles (add_hex_id cfg elem name) (fun d => has_at d elem name).
Proof.
  intros Hne.
  refine (settles_fill elem name _ensure_w14_namespace (_generate_hex_id cfg)
            _ _ _); [apply extends_ensure_namespace| |done].
  intros s n. by apply ensure_namespace_keeps.
Qed.

Lemma settles_add_rsid_to_p (elem : path) :
  settles (add_rsid_to_p cfg elem)
    (fun d => has_at d elem "w:rsidR" /\ has_at d elem "w:rsidRDefault"
              /\ has_at d elem "w:rsidP" /\ has_at d elem "w14:paraId"
              /\ has_at d elem "w14:textId").
Proof.
  unfold add_rsid_to_p.
  repeat (apply settles_seq; [apply settles_set_if_absent|]).
  apply settles_seq; by apply settles_add_hex_id.
Qed.

Lemma settles_add_rsid_to_r (elem : path) :
  settles (add_rsid_to_r cfg elem)
    (fun d => has_at d elem (if is_inside_deletion d elem then "w:rsidDel"
                             else "w:rsidR")).
Proof.
  refine (settles_get_dom (fun d => is_inside_deletion d elem)
            (fun b => if b then set_if_absent elem "w:rsidDel" (rsid cfg)
                      else set_if_absent elem "w:rsidR" (rsid cfg))
            (fun b d => has_at d elem (if b then "w:rsidDel" else "w:rsidR"))
            _ _).
  - intros d d'. apply ext_is_inside_deletion.
  - intros []; apply settles_set_if_absent.
Qed.

Lemma settles_add_xml_space_to_t (elem : path) :
  settles (add_xml_space_to_t elem)
    (fun d => exists n, node_at d elem = Some n
                        /\ if needs_preserve n then has_at d elem "xml:space"
                           else True).
Proof.
  refine (settles_deref elem needs_preserve
            (fun b => if b then set_if_absent elem "xml:space" "preserve"
                      else mret tt)
            (fun b d => if b then has_at d elem "xml:space" else True) _ _).
  - apply ext_needs_preserve.
  - intros []; [apply settles_set_if_absent|apply settles_ret].
Qed.

(** The element is a w:ins or a w:del. *)
Lemma ext_is_tracked (n n' : node) :
  ext n n' ->
  bool_decide (nodeName n' = "w:ins") || bool_decide (nodeName n' = "w:del")
  = bool_decide (nodeName n = "w:ins") || bool_decide (nodeName n = "w:del").
Proof. intros H. by rewrite (ext_nodeName _ _ H). Qed.

Lemma settles_add_tracked_change_attrs (timestamp : string) (elem : path) :
  settles (add_tracked_change_attrs cfg timestamp elem)
    (fun d => has_at d elem "w:id" /\ has_at d elem "w:author"
              /\ has_at d elem "w:date"
              /\ exists n, node_at d elem = Some n /\ is_element n = true
                   /\ (bool_decide (nodeName n = "w:ins")
                       || bool_decide (nodeName n = "w:del") = true ->
                       hasAttribute n "w16du:dateUtc" = true)).
Proof.
  unfold add_tracked_change_attrs.
  apply settles_seq.
  { refine (settles_fill elem "w:id" (mret tt)
              (d ← get_dom; mret (Py.str_of_Z (_get_next_change_id d))) _ _ _);
      [apply extends_ret| |done].
    intros s n Hn Hel Hno. by exists n. }
  repeat (apply settles_seq; [apply settles_set_if_absent|]).
  refine (settles_fill_if elem "w16du:dateUtc"
            (fun e => bool_decide (nodeName e = "w:ins")
                      || bool_decide (nodeName e = "w:del"))
            _ensure_w16du_namespace (mret timestamp) _ _ _ _);
    [apply ext_is_tracked|apply extends_ensure_namespace| |done].
  intros s n. by apply ensure_namespace_keeps.
Qed.

Lemma settles_add_comment_attrs (timestamp : string) (elem : path) :
  settles (add_comment_attrs cfg timestamp elem)
    (fun d => has_at d elem "w:author" /\ has_at d elem "w:date"
              /\ has_at d elem "w:initials").
Proof.
  unfold add_comment_attrs.
  repeat (apply settles_seq; [apply settles_set_if_absent|]).
  apply settles_set_if_absent.
Qed.

Lemma settles_add_comment_extensible_date (timestamp : string) (elem : path) :
  settles (add_comment_extensible_date timestamp elem)
    (fun d => has_at d elem "w16cex:dateUtc").
Proof.
  refine (settles_fill elem "w16cex:dateUtc" _ensure_w16cex_namespace
            (mret timestamp) _ _ _);
    [apply extends_ensure_namespace| |done].
  intros s n. by apply ensure_namespace_keeps.
Qed.

Lemma settles_for_elements (node : path) (tag : string) (body : path -> M unit)
    (D : path -> Dom.node -> Prop) :
  (forall elem, settles (body elem) (D elem)) ->
  settles (for_elements node tag body)
    (fun d => Forall (fun elem => D elem d) (map fst (elements_below d node tag))).
Proof.
  intros Hbody.
  refine (settles_get_dom (fun d => map fst (elements_below d node tag))
            (fun l => for_each l body)
            (fun l d => Forall (fun elem => D elem d) l) _ _).
  - intros d d' Hext. symmetry. apply ext_listed_paths.
    by apply ext_elements_below.
  - intros l. by apply settles_for_each.
Qed.

(** What the injection leaves to do does not depend on the timestamp. *)
Lemma settles_inject_element :
  exists D : string -> path -> node -> Prop,
    forall timestamp tagName node,
      settles (inject_element cfg timestamp tagName node) (D tagName node).
Proof.
  eexists. intros timestamp tagName node. unfold inject_element.
  eapply settles_seq.
  { eapply settles_if; [apply settles_add_rsid_to_p|].
    eapply settles_if; [apply settles_add_rsid_to_r|].
    eapply settles_if; [apply settles_add_xml_space_to_t|].
    eapply settles_if; [apply settles_add_tracked_change_attrs|].
    eapply settles_if; [apply settles_add_comment_attrs|].
    eapply settles_if; [apply settles_add_comment_extensible_date|].
    apply settles_ret. }
  eapply settles_seq;
    [apply settles_for_elements, settles_add_rsid_to_p|].
  eapply settles_seq;
    [apply settles_for_elements, settles_add_rsid_to_r|].
  eapply settles_seq;
    [apply settles_for_elements, settles_add_xml_space_to_t|].
  eapply settles_seq.
  { apply settles_for_each. intros tag.
    apply settles_for_elements, settles_add_tracked_change_attrs. }
  eapply settles_seq;
    [apply settles_for_elements, settles_add_comment_attrs|].
  apply settles_for_elements, settles_add_comment_extensible_date.
Qed.

Lemma settles_inject_node :
  exists D : path -> node -> Prop,
    forall timestamp node, settles (inject_node cfg timestamp node) (D node).
Proof.
  destruct settles_inject_element as [D HD].
  exists (fun node d =>
            exists n, node_at d node = Some n
                      /\ (if negb (is_element n) || bool_decide (node = [])
                          then fun _ => True
                          else D (nodeName n) node) d).
  intros timestamp node.
  refine (settles_deref node (fun n => (is_element n, nodeName n))
            (fun x => if negb (fst x) || bool_decide (node = []) then mret tt
                      else inject_element cfg timestamp (snd x) node)
            (fun x => if negb (fst x) || bool_decide (node = [])
                      then fun _ => True
                      else D (snd x) node) _ _).
  - intros n n' Hext.
    by rewrite (ext_is_element _ _ Hext), (ext_nodeName _ _ Hext).
  - intros [b t]. simpl. apply settles_if; [apply settles_ret|apply HD].
Qed.

Lemma settles_inject_nodes (nodes : list path) :
  exists D : node -> Prop,
    forall timestamp,
      settles (for_each nodes (inject_node cfg timestamp)) D.
Proof.
  destruct settles_inject_node as [D HD].
  exists (fun d => Forall (fun node => D node d) nodes).
  intros timestamp. apply settles_for_each. intros node. apply HD.
Qed.

(** C7. The attribute injection never overwrites and is idempotent:
    whatever the nodes handed to [_inject_attributes_to_nodes], the tree
    after the pass is the tree before it with attributes added (the same
    nodes at the same places, and every attribute that a node had keeps its
    value); and once a pass has returned, a second pass over the same nodes,
    at any later time, returns and leaves the tree as it is. *)
Theorem C7_inject_attributes (nodes : list path) (s : state) :
  let r := _inject_attributes_to_nodes cfg nodes s in
  ext (dom s) (dom (snd r))
  /\ (forall p n name value,
        node_at (dom s) p = Some n -> attributes n !! name = Some value ->
        exists n', node_at (dom (snd r)) p = Some n'
                   /\ attributes n' !! name = Some value)
  /\ (fst r = inr tt ->
      forall later drawn,
        _inject_attributes_to_nodes cfg nodes (State (dom (snd r)) later drawn)
        = (inr tt, State (dom (snd r)) (S later) drawn)).
Proof.
  destruct (settles_inject_nodes nodes) as [D HD].
  assert (ext (dom s) (dom (snd (_inject_attributes_to_nodes cfg nodes s))))
    as Hext.
  { unfold _inject_attributes_to_nodes. rewrite bind_run. simpl.
    destruct (HD (clock cfg (ticks s))) as (He & _).
    apply (He (State (dom s) (S (ticks s)) (draws s))). }
  simpl. split; [done|]. split.
  - intros p n name value Hn Hv.
    destruct (ext_node_at_Some _ _ p n Hext Hn) as (n' & Hn' & Hnn').
    exists n'. split; [done|].
    eapply lookup_weaken; [exact Hv|]. by apply ext_attributes.
  - unfold _inject_attributes_to_nodes. rewrite bind_run. simpl.
    intros Hok later drawn. rewrite bind_run. simpl.
    destruct (HD (clock cfg (ticks s))) as (_ & Hd & _).
    specialize (Hd _ Hok).
    destruct (HD (clock cfg later)) as (_ & _ & _ & Hnoop).
    by rewrite Hnoop.
Qed.

End WithConfig.

Lemma C7_inject_attributes_witness :
  let s' := snd (_inject_attributes_to_nodes session [[0; 0; 0]]
                   (opened two_runs)) in
  _inject_attributes_to_nodes session [[0; 0; 0]] (State (dom s') 5 7)
  = (inr tt, State (dom s') 6 7).
Proof.
  destruct (C7_inject_attributes session [[0; 0; 0]] (opened two_runs))
    as (_ & _ & Hagain).
  apply Hagain. vm_compute. reflexivity.
Defined.

End InjectFacts.


(** ** suggest_deletion and revert_deletion *)

Section DeletionFacts.
Import Dom Editor Docx.




(** C5 (what the code does on a run that holds a run). The run of
    [text_box_run] has no tracked change and the visible text "box".
    [suggest_deletion] wraps it in a w:del; [revert_deletion] of that w:del
    returns the w:del and a w:ins whose visible text is "boxbox": the run in
    the text box is cloned as part of the outer run and once more on its
    own. *)
Lemma C5_nested_run_duplicated :
  exists e del s1 ins s2 inserted,
    node_at text_box_run [0; 0; 0; 0] = Some e
    /\ nodeName e = "w:r"
    /\ getElementsByTagName e "w:ins" = []
    /\ getElementsByTagName e "w:del" = []
    /\ getElementsByTagName e "w:delText" = []
    /\ suggest_deletion session [0; 0; 0; 0] (opened text_box_run)
       = (inr del, s1)
    /\ revert_deletion session del s1 = (inr [del; ins], s2)
    /\ node_at (dom s2) ins = Some inserted
    /\ nodeName inserted = "w:ins"
    /\ visible_text e = "box"
    /\ visible_text inserted = "boxbox".
Proof.
  do 6 eexists. split; [reflexivity|].
  split; [reflexivity|]. split; [by vm_compute|]. split; [by vm_compute|].
  split; [by vm_compute|].
  split; [vm_compute; reflexivity|].
  split; [vm_compute; reflexivity|].
  split; [vm_compute; reflexivity|].
  split; [reflexivity|]. split; by vm_compute.
Qed.

End DeletionFacts.


(** ** What the attribute injection leaves alone, and when it returns *)

Section FrameFacts.
Import Dom Editor Docx.

Lemma attributes_update_other (d : node) (p q : path) (name value : string) :
  p <> q ->
  attributes <$> node_at (update_at q (setAttribute name value) d) p
  = attributes <$> node_at d p.
Proof.
  revert d q. induction p as [|i p IH]; intros d q Hne.
  - destruct q as [|j q]; [done|]. simpl. by destruct d.
  - destruct q as [|j q]; simpl.
    + by destruct d.
    + destruct d as [t a pos cs|s|s]; simpl; [|done..].
      destruct (decide (j = i)) as [->|Hji].
      * rewrite list_lookup_alter_eq. destruct (cs !! i) as [c|]; [|done].
        simpl. apply IH. congruence.
      * by rewrite list_lookup_alter_ne.
Qed.

Lemma first_element_spec (cs : list node) (i : nat) (p : path) :
  first_element i cs = Some p ->
  exists k c, p = [i + k] /\ cs !! k = Some c /\ is_element c = true.
Proof.
  revert i. induction cs as [|c cs IH]; intros i; [done|]. simpl.
  destruct c as [t a pos ds|s|s].
  - intros [= <-]. exists 0, (Element t a pos ds).
    by rewrite Nat.add_0_r.
  - intros (k & c & -> & Hk & Hel)%IH. exists (S k), c.
    split; [f_equal; lia|done].
  - intros (k & c & -> & Hk & Hel)%IH. exists (S k), c.
    split; [f_equal; lia|done].
Qed.

Lemma documentElement_element (d : node) (root : path) :
  documentElement d = Some root -> is_element_at d root.
Proof.
  intros (k & c & -> & Hk & Hel)%first_element_spec. exists c.
  split; [|done]. simpl. by rewrite Hk.
Qed.

Lemma is_element_at_ext (d d' : node) (p : path) :
  ext d d' -> is_element_at d p -> is_element_at d' p.
Proof.
  intros Hext (n & Hn & Hel).
  destruct (ext_node_at_Some d d' p n Hext Hn) as (n' & Hn' & Hnn').
  exists n'. split; [done|]. by rewrite (ext_is_element _ _ Hnn').
Qed.

Lemma elements_below_spec (d : node) (node : path) (tag : string) (p : path) :
  p ∈ map fst (elements_below d node tag) ->
  node `prefix_of` p /\ is_element_at d p.
Proof.
  unfold elements_below. destruct (node_at d node) as [n|] eqn:Hn;
    [|by intros ?%elem_of_nil].
  rewrite <- list_fmap_compose.
  intros ([q e] & -> & Hq%elem_of_getElementsByTagName)%list_elem_of_fmap.
  simpl. split; [by apply prefix_app_r|].
  destruct Hq as (_ & Hat & Hel & _). exists e. split; [|done].
  rewrite node_at_app, Hn. done.
Qed.

(** *** Confinement *)

Lemma confined_weaken {A} (m : M A) (F G : path -> Prop) :
  (forall p, F p -> G p) -> confined m F -> confined m G.
Proof. intros HFG Hm s p Hp. apply Hm. auto. Qed.

Lemma confined_pure {A} (m : M A) (F : path -> Prop) :
  (forall s, dom (snd (m s)) = dom s) -> confined m F.
Proof. intros Hm s p _ _. by rewrite Hm. Qed.

Lemma confined_bind {A B} (m : M A) (k : A -> M B) (F : path -> Prop) :
  extends m -> confined m F -> (forall a, confined (k a) F) ->
  confined (m ≫= k) F.
Proof.
  intros He Hm Hk s p Hp Hroot. rewrite bind_run.
  specialize (Hm s p Hp Hroot). specialize (He s).
  destruct (m s) as [[e|a] s1]; [done|]. simpl in *.
  rewrite <- Hm. apply Hk; [done|]. by rewrite (ext_documentElement _ _ He).
Qed.

Lemma confined_for_each {A} (l : list A) (body : A -> M unit)
    (F : path -> Prop) :
  (forall x, x ∈ l -> extends (body x) /\ confined (body x) F) ->
  confined (for_each l body) F.
Proof.
  induction l as [|x l IH]; intros Hb; [by apply confined_pure|].
  apply confined_bind.
  - apply Hb. by left.
  - apply Hb. by left.
  - intros _. apply IH. intros y Hy. apply Hb. by right.
Qed.

Lemma deref_dom (p : path) (s : state) : dom (snd (deref p s)) = dom s.
Proof. rewrite deref_run. by destruct (node_at _ _). Qed.

Lemma element_at_dom (p : path) (s : state) :
  dom (snd (element_at p s)) = dom s.
Proof.
  rewrite element_at_run.
  destruct (node_at _ _) as [n|]; [by destruct (is_element n)|done].
Qed.

Lemma confined_setAttr (elem : path) (name value : string) :
  confined (setAttr elem name value) (fun p => p = elem).
Proof. intros s p Hp _. simpl. by apply attributes_update_other. Qed.

(** *** Returning *)

Lemma returns_weaken {A} (m : M A) (pre pre' : node -> Prop) :
  (forall d, pre' d -> pre d) -> returns m pre -> returns m pre'.
Proof. intros Hpre Hm s Hs. apply Hm. auto. Qed.

Lemma returns_bind {A B} (m : M A) (k : A -> M B) (pre : node -> Prop) :
  (forall d d', ext d d' -> pre d -> pre d') ->
  extends m -> returns m pre -> (forall a, returns (k a) pre) ->
  returns (m ≫= k) pre.
Proof.
  intros Hclosed He Hm Hk s Hs. rewrite bind_run.
  destruct (Hm s Hs) as [a Ha]. specialize (He s).
  destruct (m s) as [[e|a'] s1]; [done|]. simpl in *.
  apply Hk. by apply (Hclosed (dom s)).
Qed.

Lemma returns_for_each {A} (l : list A) (body : A -> M unit)
    (pre : A -> node -> Prop) :
  (forall x d d', ext d d' -> pre x d -> pre x d') ->
  (forall x, extends (body x)) ->
  (forall x, returns (body x) (pre x)) ->
  returns (for_each l body) (fun d => Forall (fun x => pre x d) l).
Proof.
  intros Hclosed He Hb. induction l as [|x l IH]; intros s Hs; [by exists tt|].
  apply Forall_cons in Hs as [Hx Hl]. simpl. rewrite bind_run.
  destruct (Hb x s Hx) as [[] Ha]. pose proof (He x s) as Hext.
  destruct (body x s) as [[e|[]] s1]; [done|]. simpl in *.
  apply IH. eapply Forall_impl; [exact Hl|]. intros y. by apply Hclosed.
Qed.

(** The tree has a document element and an element at [elem]. *)
Lemma ready_ext (d d' : node) (elem : path) :
  ext d d' ->
  is_element_at d elem /\ is_Some (documentElement d) ->
  is_element_at d' elem /\ is_Some (documentElement d').
Proof.
  intros Hext [Hel Hroot]. split; [by apply (is_element_at_ext d)|].
  by rewrite (ext_documentElement _ _ Hext).
Qed.

(** The frame of [if not elem.hasAttribute(name): before;
    elem.setAttribute(name, value)]. *)
Lemma fill_frame (elem : path) (name : string) (before : M unit)
    (value : M string) (pre : node -> Prop) :
  extends before -> confined before (fun p => p = elem) ->
  returns before pre ->
  (forall s, dom (snd (value s)) = dom s) ->
  (forall s, exists v, fst (value s) = inr v) ->
  let m := (e ← element_at elem;
            if hasAttribute e name then mret tt
            else before ;; v ← value; setAttr elem name v) : M unit in
  confined m (fun p => p = elem)
  /\ returns m (fun d => is_element_at d elem /\ pre d).
Proof.
  intros He Hc Hr Hval Hret. split.
  - intros s p Hp Hroot. rewrite bind_run, element_at_run.
    destruct (node_at (dom s) elem) as [n|]; [|done].
    destruct (is_element n); [|done].
    destruct (hasAttribute n name); [done|].
    rewrite bind_run. specialize (Hc s p Hp Hroot). specialize (He s).
    destruct (before s) as [[e|[]] s1]; [done|]. simpl in *.
    rewrite bind_run. specialize (Hval s1).
    destruct (value s1) as [[e|v] s2]; simpl in *; [by rewrite Hval|].
    rewrite attributes_update_other by done. by rewrite Hval.
  - intros s [(n & Hn & Hel) Hpre]. rewrite bind_run, element_at_run, Hn, Hel.
    destruct (hasAttribute n name); [by exists tt|].
    rewrite bind_run. destruct (Hr s Hpre) as [[] Hok].
    destruct (before s) as [[e|[]] s1]; [done|].
    rewrite bind_run. destruct (Hret s1) as [v Hv].
    destruct (value s1) as [[e|v'] s2]; [done|]. by exists tt.
Qed.

Lemma fill_if_frame (elem : path) (name : string) (cond : node -> bool)
    (before : M unit) (value : M string) (pre : node -> Prop) :
  extends before -> confined before (fun p => p = elem) ->
  returns before pre ->
  (forall s, dom (snd (value s)) = dom s) ->
  (forall s, exists v, fst (value s) = inr v) ->
  let m := (e ← element_at elem;
            if cond e && negb (hasAttribute e name)
            then before ;; v ← value; setAttr elem name v
            else mret tt) : M unit in
  confined m (fun p => p = elem)
  /\ returns m (fun d => is_element_at d elem /\ pre d).
Proof.
  intros He Hc Hr Hval Hret. split.
  - intros s p Hp Hroot. rewrite bind_run, element_at_run.
    destruct (node_at (dom s) elem) as [n|]; [|done].
    destruct (is_element n); [|done].
    destruct (cond n && negb (hasAttribute n name)); [|done].
    rewrite bind_run. specialize (Hc s p Hp Hroot). specialize (He s).
    destruct (before s) as [[e|[]] s1]; [done|]. simpl in *.
    rewrite bind_run. specialize (Hval s1).
    destruct (value s1) as [[e|v] s2]; simpl in *; [by rewrite Hval|].
    rewrite attributes_update_other by done. by rewrite Hval.
  - intros s [(n & Hn & Hel) Hpre]. rewrite bind_run, element_at_run, Hn, Hel.
    destruct (cond n && negb (hasAttribute n name)); [|by exists tt].
    rewrite bind_run. destruct (Hr s Hpre) as [[] Hok].
    destruct (before s) as [[e|[]] s1]; [done|].
    rewrite bind_run. destruct (Hret s1) as [v Hv].
    destruct (value s1) as [[e|v'] s2]; [done|]. by exists tt.
Qed.

Section WithConfig.

Variable cfg : config.

Lemma set_if_absent_frame (elem : path) (name value : string) :
  confined (set_if_absent elem name value) (fun p => p = elem)
  /\ returns (set_if_absent elem name value) (fun d => is_element_at d elem).
Proof.
  destruct (fill_frame elem name (mret tt) (mret value) (fun _ => True))
    as [Hc Hr]; try done.
  - apply extends_ret.
  - by intros s; exists tt.
  - by intros s; exists value.
  - split; [exact Hc|]. intros s Hs. by apply Hr.
Qed.

Lemma confined_ensure_namespace (ns uri : string) (F : path -> Prop) :
  confined (_ensure_namespace ns uri) F.
Proof.
  intros s p _ Hroot. unfold _ensure_namespace. rewrite bind_run. simpl.
  destruct (documentElement (dom s)) as [root|] eqn:Hr; [|done].
  apply set_if_absent_frame; [|by rewrite Hr]. congruence.
Qed.

Lemma returns_ensure_namespace (ns uri : string) :
  returns (_ensure_namespace ns uri) (fun d => is_Some (documentElement d)).
Proof.
  intros s [root Hr]. unfold _ensure_namespace. rewrite bind_run. simpl.
  rewrite Hr. apply set_if_absent_frame. by apply documentElement_element.
Qed.

Lemma returns_seq (m1 m2 : M unit) (pre : node -> Prop) :
  (forall d d', ext d d' -> pre d -> pre d') ->
  extends m1 -> returns m1 pre -> returns m2 pre -> returns (m1 ;; m2) pre.
Proof. intros Hcl He H1 H2. apply returns_bind; auto. Qed.

Lemma confined_seq (m1 m2 : M unit) (F : path -> Prop) :
  extends m1 -> confined m1 F -> confined m2 F -> confined (m1 ;; m2) F.
Proof. intros He H1 H2. apply confined_bind; auto. Qed.

Lemma add_hex_id_frame (elem : path) (name : string) :
  confined (add_hex_id cfg elem name) (fun p => p = elem)
  /\ returns (add_hex_id cfg elem name)
       (fun d => is_element_at d elem /\ is_Some (documentElement d)).
Proof.
  apply (fill_frame elem name _ensure_w14_namespace (_generate_hex_id cfg)
           (fun d => is_Some (documentElement d))); try done.
  - apply extends_ensure_namespace.
  - apply confined_ensure_namespace.
  - apply returns_ensure_namespace.
  - intros s. by eexists.
Qed.

Lemma ready_weaken (m : M unit) (elem : path) :
  returns m (fun d => is_element_at d elem) ->
  returns m (fun d => is_element_at d elem /\ is_Some (documentElement d)).
Proof. apply returns_weaken. by intros d [H _]. Qed.

Lemma add_rsid_to_p_frame (elem : path) :
  confined (add_rsid_to_p cfg elem) (fun p => p = elem)
  /\ returns (add_rsid_to_p cfg elem)
       (fun d => is_element_at d elem /\ is_Some (documentElement d)).
Proof.
  unfold add_rsid_to_p. split.
  - repeat (apply confined_seq;
            [apply extends_set_if_absent|apply set_if_absent_frame|]).
    apply confined_seq; [|apply add_hex_id_frame..].
    by apply settles_add_hex_id.
  - repeat (apply returns_seq;
            [intros d d'; apply ready_ext|apply extends_set_if_absent
            |apply ready_weaken, set_if_absent_frame|]).
    apply returns_seq; [intros d d'; apply ready_ext| |apply add_hex_id_frame..].
    by apply settles_add_hex_id.
Qed.

Lemma add_rsid_to_r_frame (elem : path) :
  confined (add_rsid_to_r cfg elem) (fun p => p = elem)
  /\ returns (add_rsid_to_r cfg elem)
       (fun d => is_element_at d elem /\ is_Some (documentElement d)).
Proof.
  unfold add_rsid_to_r. split.
  - apply confined_bind; [apply extends_get_dom|by apply confined_pure|].
    intros d. destruct (is_inside_deletion d elem); apply set_if_absent_frame.
  - apply returns_bind; [intros d d'; apply ready_ext|apply extends_get_dom
                        |by intros s _; eexists|].
    intros d. destruct (is_inside_deletion d elem);
      apply ready_weaken, set_if_absent_frame.
Qed.

Lemma add_xml_space_to_t_frame (elem : path) :
  confined (add_xml_space_to_t elem) (fun p => p = elem)
  /\ returns (add_xml_space_to_t elem)
       (fun d => is_element_at d elem /\ is_Some (documentElement d)).
Proof.
  unfold add_xml_space_to_t. split.
  - apply confined_bind; [apply extends_deref
                         |apply confined_pure, deref_dom|].
    intros e. destruct (needs_preserve e);
      [apply set_if_absent_frame|by apply confined_pure].
  - apply returns_bind; [intros d d'; apply ready_ext|apply extends_deref| |].
    + intros s [(n & Hn & _) _]. rewrite deref_run, Hn. by eexists.
    + intros e. destruct (needs_preserve e);
        [apply ready_weaken, set_if_absent_frame|by intros s _; exists tt].
Qed.

Lemma tracked_id_frame (elem : path) :
  let m := (e ← element_at elem;
            if hasAttribute e "w:id" then mret tt
            else d ← get_dom;
                 setAttr elem "w:id" (Py.str_of_Z (_get_next_change_id d)))
           : M unit in
  extends m /\ confined m (fun p => p = elem)
  /\ returns m (fun d => is_element_at d elem /\ is_Some (documentElement d)).
Proof.
  split.
  - refine (proj1 (settles_fill elem "w:id" (mret tt)
              (d ← get_dom; mret (Py.str_of_Z (_get_next_change_id d))) _ _ _));
      [apply extends_ret| |done].
    intros s n Hn Hel Hno. by exists n.
  - destruct (fill_frame elem "w:id" (mret tt)
                (d ← get_dom; mret (Py.str_of_Z (_get_next_change_id d)))
                (fun _ => True)) as [Hc Hr]; try done.
    + apply extends_ret.
    + by intros s; exists tt.
    + intros s. by eexists.
    + split; [exact Hc|]. intros s [Hs _]. by apply Hr.
Qed.

Lemma tracked_utc_frame (timestamp : string) (elem : path) :
  let m := (e ← element_at elem;
            if (bool_decide (nodeName e = "w:ins")
                || bool_decide (nodeName e = "w:del"))
               && negb (hasAttribute e "w16du:dateUtc")
            then _ensure_w16du_namespace ;;
                 setAttr elem "w16du:dateUtc" timestamp
            else mret tt) : M unit in
  confined m (fun p => p = elem)
  /\ returns m (fun d => is_element_at d elem /\ is_Some (documentElement d)).
Proof.
  refine (fill_if_frame elem "w16du:dateUtc"
            (fun e => bool_decide (nodeName e = "w:ins")
                      || bool_decide (nodeName e = "w:del"))
            _ensure_w16du_namespace (mret timestamp)
            (fun d => is_Some (documentElement d)) _ _ _ _ _); try done.
  - apply extends_ensure_namespace.
  - apply confined_ensure_namespace.
  - apply returns_ensure_namespace.
  - intros s. by eexists.
Qed.

Lemma add_tracked_change_attrs_frame (timestamp : string) (elem : path) :
  confined (add_tracked_change_attrs cfg timestamp elem) (fun p => p = elem)
  /\ returns (add_tracked_change_attrs cfg timestamp elem)
       (fun d => is_element_at d elem /\ is_Some (documentElement d)).
Proof.
  unfold add_tracked_change_attrs.
  destruct (tracked_id_frame elem) as (He & Hc & Hr).
  destruct (tracked_utc_frame timestamp elem) as (Hc' & Hr').
  split.
  - apply confined_seq; [exact He|exact Hc|].
    repeat (apply confined_seq;
            [apply extends_set_if_absent|apply set_if_absent_frame|]).
    exact Hc'.
  - apply returns_seq; [intros d d'; apply ready_ext|exact He|exact Hr|].
    repeat (apply returns_seq;
            [intros d d'; apply ready_ext|apply extends_set_if_absent
            |apply ready_weaken, set_if_absent_frame|]).
    exact Hr'.
Qed.

Lemma add_comment_attrs_frame (timestamp : string) (elem : path) :
  confined (add_comment_attrs cfg timestamp elem) (fun p => p = elem)
  /\ returns (add_comment_attrs cfg timestamp elem)
       (fun d => is_element_at d elem /\ is_Some (documentElement d)).
Proof.
  unfold add_comment_attrs. split.
  - repeat (apply confined_seq;
            [apply extends_set_if_absent|apply set_if_absent_frame|]).
    apply set_if_absent_frame.
  - repeat (apply returns_seq;
            [intros d d'; apply ready_ext|apply extends_set_if_absent
            |apply ready_weaken, set_if_absent_frame|]).
    apply ready_weaken, set_if_absent_frame.
Qed.

Lemma add_comment_extensible_date_frame (timestamp : string) (elem : path) :
  confined (add_comment_extensible_date timestamp elem) (fun p => p = elem)
  /\ returns (add_comment_extensible_date timestamp elem)
       (fun d => is_element_at d elem /\ is_Some (documentElement d)).
Proof.
  refine (fill_frame elem "w16cex:dateUtc" _ensure_w16cex_namespace
            (mret timestamp) (fun d => is_Some (documentElement d))
            _ _ _ _ _); try done.
  - apply extends_ensure_namespace.
  - apply confined_ensure_namespace.
  - apply returns_ensure_namespace.
  - intros s. by eexists.
Qed.

(** The loops over the elements below a node. *)
Lemma for_elements_frame (node : path) (tag : string) (body : path -> M unit) :
  (forall elem, extends (body elem)) ->
  (forall elem, confined (body elem) (fun p => p = elem)) ->
  (forall elem, returns (body elem)
     (fun d => is_element_at d elem /\ is_Some (documentElement d))) ->
  extends (for_elements node tag body)
  /\ confined (for_elements node tag body) (fun p => node `prefix_of` p)
  /\ returns (for_elements node tag body)
       (fun d => is_Some (documentElement d)).
Proof.
  intros He Hc Hr. unfold for_elements. split; [|split].
  - apply extends_bind; [apply extends_get_dom|]. intros d.
    by apply extends_for_each.
  - apply confined_bind; [apply extends_get_dom|by apply confined_pure|].
    intros d. apply confined_for_each. intros x Hx. split; [done|].
    eapply confined_weaken; [|apply Hc]. intros p ->.
    by apply (elements_below_spec d node tag).
  - intros s Hroot. rewrite bind_run. simpl.
    apply (returns_for_each _ body
             (fun x d => is_element_at d x /\ is_Some (documentElement d)));
      [intros x d d'; apply ready_ext|done..|].
    apply Forall_forall. intros x Hx. split; [|done].
    by apply (elements_below_spec (dom s) node tag).
Qed.

Lemma dispatch_frame (timestamp tagName : string) (node : path) :
  let m := (if bool_decide (tagName = "w:p") then add_rsid_to_p cfg node
            else if bool_decide (tagName = "w:r") then add_rsid_to_r cfg node
            else if bool_decide (tagName = "w:t") then add_xml_space_to_t node
            else if bool_decide (tagName = "w:ins")
                    || bool_decide (tagName = "w:del")
            then add_tracked_change_attrs cfg timestamp node
            else if bool_decide (tagName = "w:comment")
            then add_comment_attrs cfg timestamp node
            else if bool_decide (tagName = "w16cex:commentExtensible")
            then add_comment_extensible_date timestamp node
            else mret tt) : M unit in
  extends m /\ confined m (fun p => p = node)
  /\ returns m (fun d => is_element_at d node /\ is_Some (documentElement d)).
Proof.
  simpl.
  destruct (bool_decide (tagName = "w:p"));
    [split; [apply settles_add_rsid_to_p|apply add_rsid_to_p_frame]|].
  destruct (bool_decide (tagName = "w:r"));
    [split; [apply settles_add_rsid_to_r|apply add_rsid_to_r_frame]|].
  destruct (bool_decide (tagName = "w:t"));
    [split; [apply settles_add_xml_space_to_t|apply add_xml_space_to_t_frame]|].
  destruct (bool_decide (tagName = "w:ins") || bool_decide (tagName = "w:del"));
    [split; [apply settles_add_tracked_change_attrs
            |apply add_tracked_change_attrs_frame]|].
  destruct (bool_decide (tagName = "w:comment"));
    [split; [apply settles_add_comment_attrs|apply add_comment_attrs_frame]|].
  destruct (bool_decide (tagName = "w16cex:commentExtensible"));
    [split; [apply settles_add_comment_extensible_date
            |apply add_comment_extensible_date_frame]|].
  split; [apply extends_ret|]. split; [by apply confined_pure|].
  intros s _. by exists tt.
Qed.

Lemma tracked_loops_frame (timestamp : string) (node : path) :
  let m := for_each ["w:ins"; "w:del"]
             (fun tag => for_elements node tag
                           (add_tracked_change_attrs cfg timestamp)) in
  extends m /\ confined m (fun p => node `prefix_of` p)
  /\ returns m (fun d => is_Some (documentElement d)).
Proof.
  assert (forall tag,
            extends (for_elements node tag (add_tracked_change_attrs cfg timestamp))
            /\ confined (for_elements node tag
                           (add_tracked_change_attrs cfg timestamp))
                 (fun p => node `prefix_of` p)
            /\ returns (for_elements node tag
                          (add_tracked_change_attrs cfg timestamp))
                 (fun d => is_Some (documentElement d))) as Hloop.
  { intros tag. apply for_elements_frame; intros elem.
    - apply settles_add_tracked_change_attrs.
    - apply add_tracked_change_attrs_frame.
    - apply add_tracked_change_attrs_frame. }
  split; [|split].
  - apply extends_for_each. intros tag. apply Hloop.
  - apply confined_for_each. intros tag _. split; apply Hloop.
  - intros s Hroot.
    apply (returns_for_each _ _ (fun _ d => is_Some (documentElement d))).
    + intros _ d d' Hext. by rewrite (ext_documentElement _ _ Hext).
    + intros tag. apply Hloop.
    + intros tag. apply Hloop.
    + by repeat constructor.
Qed.

Lemma inject_element_frame (timestamp tagName : string) (node : path) :
  extends (inject_element cfg timestamp tagName node)
  /\ confined (inject_element cfg timestamp tagName node)
       (fun p => node `prefix_of` p)
  /\ returns (inject_element cfg timestamp tagName node)
       (fun d => is_element_at d node /\ is_Some (documentElement d)).
Proof.
  destruct (dispatch_frame timestamp tagName node) as (He0 & Hc0 & Hr0).
  destruct (for_elements_frame node "w:p" (add_rsid_to_p cfg))
    as (He1 & Hc1 & Hr1);
    [intros; apply settles_add_rsid_to_p|intros; apply add_rsid_to_p_frame..|].
  destruct (for_elements_frame node "w:r" (add_rsid_to_r cfg))
    as (He2 & Hc2 & Hr2);
    [intros; apply settles_add_rsid_to_r|intros; apply add_rsid_to_r_frame..|].
  destruct (for_elements_frame node "w:t" add_xml_space_to_t)
    as (He3 & Hc3 & Hr3);
    [intros; apply settles_add_xml_space_to_t
    |intros; apply add_xml_space_to_t_frame..|].
  destruct (tracked_loops_frame timestamp node) as (He4 & Hc4 & Hr4).
  destruct (for_elements_frame node "w:comment" (add_comment_attrs cfg timestamp))
    as (He5 & Hc5 & Hr5);
    [intros; apply settles_add_comment_attrs
    |intros; apply add_comment_attrs_frame..|].
  destruct (for_elements_frame node "w16cex:commentExtensible"
              (add_comment_extensible_date timestamp))
    as (He6 & Hc6 & Hr6);
    [intros; apply settles_add_comment_extensible_date
    |intros; apply add_comment_extensible_date_frame..|].
  assert (forall m : M unit,
            returns m (fun d => is_Some (documentElement d)) ->
            returns m (fun d => is_element_at d node
                                /\ is_Some (documentElement d))) as Hw.
  { intros m. apply returns_weaken. by intros d [_ H]. }
  unfold inject_element. split; [|split].
  - repeat (apply extends_bind; [assumption|intros _]). assumption.
  - apply confined_seq; [assumption| |].
    { eapply confined_weaken; [|exact Hc0]. by intros p ->. }
    repeat (apply confined_seq; [assumption|assumption|]). assumption.
  - apply returns_seq; [intros d d'; apply ready_ext|assumption|assumption|].
    repeat (apply returns_seq;
            [intros d d'; apply ready_ext|assumption|by apply Hw|]).
    by apply Hw.
Qed.

Lemma inject_node_frame (timestamp : string) (node : path) :
  extends (inject_node cfg timestamp node)
  /\ confined (inject_node cfg timestamp node) (fun p => node `prefix_of` p)
  /\ returns (inject_node cfg timestamp node)
       (fun d => is_Some (node_at d node) /\ is_Some (documentElement d)).
Proof.
  unfold inject_node. split; [|split].
  - apply extends_bind; [apply extends_deref|]. intros n.
    destruct (negb (is_element n) || bool_decide (node = []));
      [apply extends_ret|apply inject_element_frame].
  - apply confined_bind; [apply extends_deref|apply confined_pure, deref_dom|].
    intros n. destruct (negb (is_element n) || bool_decide (node = []));
      [by apply confined_pure|apply inject_element_frame].
  - intros s [[n Hn] Hroot]. rewrite bind_run, deref_run, Hn.
    destruct (is_element n) eqn:Hel; simpl; [|by exists tt].
    destruct (bool_decide (node = [])); [by exists tt|].
    apply inject_element_frame. split; [by exists n|done].
Qed.

(** The attribute injection only adds attributes, touches nothing but the
    document element and what lies at or below the nodes it is given, and
    returns when the tree has a document element and the nodes are in it. *)
Lemma inject_frame (nodes : list path) :
  extends (_inject_attributes_to_nodes cfg nodes)
  /\ confined (_inject_attributes_to_nodes cfg nodes)
       (fun p => exists node, node ∈ nodes /\ node `prefix_of` p)
  /\ returns (_inject_attributes_to_nodes cfg nodes)
       (fun d => Forall (fun node => is_Some (node_at d node)) nodes
                 /\ is_Some (documentElement d)).
Proof.
  unfold _inject_attributes_to_nodes. split; [|split].
  - apply extends_bind; [intros s; apply ext_refl|]. intros timestamp.
    apply extends_for_each. intros node. apply inject_node_frame.
  - apply confined_bind; [intros s; apply ext_refl|by apply confined_pure|].
    intros timestamp. apply confined_for_each. intros node Hnode.
    split; [apply inject_node_frame|].
    eapply confined_weaken; [|apply inject_node_frame]. intros p Hp. eauto.
  - intros s [Hnodes Hroot]. rewrite bind_run. simpl.
    apply (returns_for_each _ _
             (fun node d => is_Some (node_at d node)
                            /\ is_Some (documentElement d))).
    + intros node d d' Hext [[n Hn] Hr].
      destruct (ext_node_at_Some d d' node n Hext Hn) as (n' & Hn' & _).
      split; [by exists n'|]. by rewrite (ext_documentElement _ _ Hext).
    + intros node. apply inject_node_frame.
    + intros node. apply inject_node_frame.
    + simpl. eapply Forall_impl; [exact Hnodes|]. by intros node Hn.
Qed.

End WithConfig.

End FrameFacts.


(** ** The mutation primitives of XMLEditor, as changes of the tree *)

Section StructureFacts.
Import Dom Editor Docx.

Lemma parent_of_spec (p parent : path) (i : nat) :
  parent_of p = Some (parent, i) <-> p = parent ++ [i].
Proof.
  unfold parent_of. split.
  - destruct (reverse p) as [|j rev_parent] eqn:Hrev; [done|].
    intros [= <- <-]. rewrite <- (reverse_involutive p), Hrev.
    by rewrite reverse_cons.
  - intros ->. rewrite reverse_app. simpl. by rewrite reverse_involutive.
Qed.

Lemma update_at_compose (p : path) (f g : node -> node) (d : node) :
  update_at p f (update_at p g d) = update_at p (fun n => f (g n)) d.
Proof.
  revert d. induction p as [|i p IH]; intros d; [done|].
  destruct d as [t a pos cs|s|s]; simpl; [|done..]. f_equal.
  rewrite list_alter_alter_eq. apply list_alter_ext; [|done].
  intros c _. apply IH.
Qed.

Lemma update_at_ext (p : path) (f g : node -> node) (d : node) :
  (forall n, node_at d p = Some n -> f n = g n) ->
  update_at p f d = update_at p g d.
Proof.
  revert d. induction p as [|i p IH]; intros d Hfg; [by apply Hfg|].
  destruct d as [t a pos cs|s|s]; simpl; [|done..]. f_equal.
  apply list_alter_ext; [|done]. intros c Hc. apply IH. intros n Hn.
  apply Hfg. simpl. by rewrite Hc.
Qed.

Lemma node_at_update_below (d : node) (p q : path) (f : node -> node)
    (n : node) :
  node_at d p = Some n ->
  node_at (update_at p f d) (p ++ q) = node_at (f n) q.
Proof.
  intros Hn. rewrite node_at_app, (node_at_update_same d p f n Hn). done.
Qed.

(** A change at [p] is not seen from a path that does not pass [p]. *)
Lemma node_at_update_apart (d : node) (p q : path) (f : node -> node) :
  ~ p `prefix_of` q -> ~ q `prefix_of` p ->
  node_at (update_at p f d) q = node_at d q.
Proof.
  revert d q. induction p as [|i p IH]; intros d q Hpq Hqp.
  - destruct Hpq. by exists q.
  - destruct q as [|j q]; [destruct Hqp; by exists (i :: p)|].
    destruct d as [t a pos cs|s|s]; simpl; [|done..].
    destruct (decide (i = j)) as [->|Hij].
    + rewrite list_lookup_alter_eq. destruct (cs !! j) as [c|]; [|done].
      simpl. apply IH.
      * intros H. apply Hpq. by apply prefix_cons.
      * intros H. apply Hqp. by apply prefix_cons.
    + by rewrite list_lookup_alter_ne.
Qed.

Lemma update_at_id (p : path) (d : node) : update_at p (fun n => n) d = d.
Proof.
  revert d. induction p as [|i p IH]; intros d; [done|].
  destruct d as [t a pos cs|s|s]; simpl; [|done..]. f_equal.
  apply list_eq. intros j. destruct (decide (j = i)) as [->|Hne].
  - rewrite list_lookup_alter_eq. destruct (cs !! i) as [c|]; [|done].
    simpl. by rewrite IH.
  - by rewrite list_lookup_alter_ne.
Qed.

Lemma insert_then_rest {A} (index : nat) (new : A) (nodes l : list A) :
  take (S index) (list_insert_at index new l) ++ nodes
    ++ drop (S index) (list_insert_at index new l)
  = take index l ++ (new :: nodes) ++ drop index l.
Proof.
  unfold list_insert_at. destruct (decide (index <= length l)) as [Hle|Hgt].
  - assert (length (take index l) = index) as Hlen
      by (rewrite length_take; lia).
    replace (S index) with (length (take index l) + 1) at 1 2 by lia.
    rewrite take_app_add, drop_app_add. simpl. by rewrite <- app_assoc.
  - rewrite (take_ge l index), (drop_ge l index) by lia.
    rewrite take_ge, drop_ge by (rewrite length_app; simpl; lia).
    by rewrite <- app_assoc.
Qed.

(** The children of [parent] with [nodes] put in at [index]. *)
Lemma insert_all_before_run (parent : path) (index : nat) (nodes : list node)
    (s : state) :
  parent <> [] ->
  insert_all_before parent index nodes s
  = (inr tt,
     State (update_at parent
              (fun n => set_children (take index (childNodes n) ++ nodes
                                      ++ drop index (childNodes n)) n)
              (dom s))
           (ticks s) (draws s)).
Proof.
  intros Hparent. revert index s.
  induction nodes as [|new nodes IH]; intros index s.
  - simpl. unfold mret, M_ret, ret. f_equal. destruct s as [d t r]. simpl.
    f_equal. rewrite <- (update_at_id parent d) at 1.
    apply update_at_ext. intros n _. rewrite take_drop. by destruct n.
  - simpl. rewrite bind_run. unfold insertBefore.
    replace (allowed_child parent new) with true by (by destruct parent).
    simpl. rewrite IH. simpl. f_equal. f_equal.
    rewrite update_at_compose. apply update_at_ext. intros n _.
    destruct n as [t a pos cs|x|x]; simpl; [|done..]. f_equal.
    apply insert_then_rest.
Qed.

Lemma appendChild_run (parent : path) (new : node) (s : state) (p : node) :
  parent <> [] -> node_at (dom s) parent = Some p -> is_element p = true ->
  appendChild parent new s
  = (inr tt,
     State (update_at parent
              (fun n => set_children (childNodes n ++ [new]) n) (dom s))
           (ticks s) (draws s)).
Proof.
  intros Hparent Hp Hel. unfold appendChild.
  rewrite bind_run, deref_run, Hp, Hel.
  replace (allowed_child parent new) with true by (by destruct parent).
  by destruct parent.
Qed.

Lemma append_all_run (parent : path) (nodes : list node) (s : state)
    (p : node) :
  parent <> [] -> node_at (dom s) parent = Some p -> is_element p = true ->
  for_each nodes (appendChild parent) s
  = (inr tt,
     State (update_at parent
              (fun n => set_children (childNodes n ++ nodes) n) (dom s))
           (ticks s) (draws s)).
Proof.
  intros Hparent. revert s p.
  induction nodes as [|new nodes IH]; intros s p Hp Hel.
  - simpl. unfold mret, M_ret, ret. f_equal. destruct s as [d t r]. simpl.
    f_equal. rewrite <- (update_at_id parent d) at 1.
    apply update_at_ext. intros n _. rewrite app_nil_r. by destruct n.
  - simpl. rewrite bind_run, (appendChild_run parent new s p) by done.
    erewrite IH; [|simpl; by apply node_at_update_same|by destruct p].
    simpl. f_equal. f_equal.
    rewrite update_at_compose. apply update_at_ext. intros n _.
    destruct n as [t a pos cs|x|x]; simpl; [|done..].
    by rewrite <- app_assoc.
Qed.

Lemma importNode_length (parsed : list node) :
  length (map importNode parsed) = length parsed.
Proof. apply length_map. Qed.

(** [insert_after] puts the nodes of the fragment right behind [elem]. *)
Lemma insert_after_run (parent : path) (i : nat) (parsed : list node)
    (s : state) (e : node) :
  parent <> [] ->
  node_at (dom s) (parent ++ [i]) = Some e ->
  filter (fun n => is_element n) (map importNode parsed) <> [] ->
  Editor.insert_after (parent ++ [i]) parsed s
  = (inr (refs_from parent (S i) (length parsed)),
     State (update_at parent
              (fun n => set_children (take (S i) (childNodes n)
                                      ++ map importNode parsed
                                      ++ drop (S i) (childNodes n)) n)
              (dom s))
           (ticks s) (draws s)).
Proof.
  intros Hparent He Hfrag. unfold Editor.insert_after.
  rewrite (proj2 (parent_of_spec _ parent i) eq_refl).
  rewrite bind_run, deref_run, He.
  rewrite node_at_app in He.
  destruct (node_at (dom s) parent) as [p|] eqn:Hp; [|done]. simpl in He.
  rewrite bind_run, deref_run, Hp. rewrite bind_run.
  unfold _parse_fragment.
  destruct (filter _ (map importNode parsed)) as [|x xs] eqn:Hels; [done|].
  simpl. rewrite bind_run.
  destruct (childNodes p !! S i) as [next|] eqn:Hnext.
  - rewrite insert_all_before_run by done. simpl.
    by rewrite importNode_length.
  - rewrite (append_all_run parent _ s p);
      [|done|done|destruct p; [done|by destruct i..]]. simpl.
    rewrite importNode_length. f_equal. f_equal.
    apply update_at_ext. intros n Hn. rewrite Hp in Hn. injection Hn as <-.
    apply lookup_ge_None in Hnext.
    by rewrite take_ge, drop_ge, app_nil_r by lia.
Qed.

(** Two trees that differ by added attributes and have the same attributes
    everywhere are the same tree. *)
Lemma ext_eq (n n' : node) :
  ext n n' ->
  (forall q, attributes <$> node_at n' q = attributes <$> node_at n q) ->
  n' = n.
Proof.
  induction 1 as [t a a' pos cs cs' Ha Hcs IH|s|s] using ext_ind';
    intros Hattrs; [|done..].
  pose proof (Hattrs []) as Hroot. simpl in Hroot. injection Hroot as ->.
  f_equal. assert (forall i q,
    attributes <$> (c ← cs' !! i; node_at c q)
    = attributes <$> (c ← cs !! i; node_at c q)) as Hbelow.
  { intros i q. apply (Hattrs (i :: q)). }
  clear Hattrs Ha Hcs. induction IH as [|c c' cs cs' Hc _ IHcs]; [done|].
  f_equal.
  - apply Hc. intros q. apply (Hbelow 0 q).
  - apply IHcs. intros i q. apply (Hbelow (S i) q).
Qed.

Lemma is_element_update_at (p : path) (f : node -> node) (n : node) :
  (forall m, is_element (f m) = is_element m) ->
  is_element (update_at p f n) = is_element n.
Proof. intros Hf. destruct p; [apply Hf|by destruct n]. Qed.

Lemma first_element_alter (f : node -> node) (k i : nat) (cs : list node) :
  (forall m, is_element (f m) = is_element m) ->
  first_element i (alter f k cs) = first_element i cs.
Proof.
  intros Hf. revert k i. induction cs as [|c cs IH]; intros k i; [done|].
  destruct k as [|k]; simpl.
  - specialize (Hf c). destruct (f c), c; simpl in *; congruence.
  - destruct c; [done|apply IH..].
Qed.

Lemma documentElement_update_at (p : path) (f : node -> node) (d : node) :
  (forall m, is_element (f m) = is_element m) -> p <> [] ->
  documentElement (update_at p f d) = documentElement d.
Proof.
  intros Hf Hp. destruct p as [|k p]; [done|].
  destruct d as [t a pos cs|s|s]; [|done..]. unfold documentElement. simpl.
  apply first_element_alter. intros m. by apply is_element_update_at.
Qed.

Lemma first_element_is_Some (cs : list node) (i k : nat) (c : node) :
  cs !! k = Some c -> is_element c = true -> is_Some (first_element i cs).
Proof.
  revert i k. induction cs as [|x cs IH]; intros i k; [done|].
  destruct x as [t a pos ds|s|s]; simpl; [by eexists|..];
    (destruct k as [|k]; simpl; [by intros [= <-]|by apply IH]).
Qed.

(** A tree with a node two levels down has a document element. *)
Lemma documentElement_above (d : node) (k : nat) (p : path) (i : nat)
    (n : node) :
  node_at d (k :: p ++ [i]) = Some n -> is_Some (documentElement d).
Proof.
  simpl. destruct (childNodes d !! k) as [c|] eqn:Hc; [|done]. intros Hn.
  apply (first_element_is_Some _ 0 k c Hc).
  destruct c as [t a pos cs|s|s]; [done|..]; by destruct p.
Qed.

Lemma importNode_data (n : node) :
  importNode n = n -> importNode (reparse_data n) = reparse_data n.
Proof. by destruct n. Qed.

Lemma importNode_merge_text (l : list node) :
  Forall (fun n => importNode n = n) l ->
  Forall (fun n => importNode n = n) (merge_text l).
Proof.
  induction 1 as [|n l Hn Hl IH]; [constructor|].
  destruct n as [t a pos cs|s|s]; simpl; [by constructor| |by constructor].
  destruct (merge_text l) as [|[t a pos cs|s'|s'] rest] eqn:Hm.
  - destruct (bool_decide (s = "")); by repeat constructor.
  - destruct (bool_decide (s = "")); [done|by constructor].
  - apply Forall_cons in IH as [_ IH]. by constructor.
  - destruct (bool_decide (s = "")); [done|by constructor].
Qed.

Lemma importNode_reparse (n : node) : importNode (reparse n) = reparse n.
Proof.
  induction n as [t a pos cs IH|s|s] using node_ind'; [|done..].
  simpl. f_equal. rewrite <- (map_id (map reparse_data _)) at 2.
  apply map_ext_Forall.
  assert (Forall (fun n => importNode n = n) (map reparse cs)) as Hcs.
  { clear -IH. induction IH; by constructor. }
  apply importNode_merge_text in Hcs.
  induction Hcs as [|x l Hx _ IHl]; constructor; [|done].
  by apply importNode_data.
Qed.

Lemma prefix_snoc_apart (parent q : path) (i j : nat) :
  i <> j -> ~ (parent ++ [j]) `prefix_of` (parent ++ [i] ++ q).
Proof.
  intros Hij [k Hk]. rewrite <- !app_assoc in Hk.
  apply app_inv_head in Hk. simpl in Hk. congruence.
Qed.

Lemma documentElement_length (d : node) (p : path) :
  documentElement d = Some p -> length p = 1.
Proof. by intros (k & c & -> & _)%first_element_spec. Qed.

End StructureFacts.


(** ** revert_deletion on one deletion *)

Section RevertFacts.
Import Dom Editor Docx.

Section WithConfig.

Variable cfg : config.

(** [insert_after] of DocxXMLEditor with one element behind [parent ++ [i]]:
    the node at [parent ++ [i]] and what is below it stay as they are, and
    the element, with attributes added, is its next sibling. *)
Lemma insert_one_after (parent : path) (i : nat) (new : node) (s : state)
    (e : node) :
  parent <> [] ->
  node_at (dom s) (parent ++ [i]) = Some e ->
  is_element new = true -> importNode new = new ->
  exists s' inserted,
    insert_after cfg (parent ++ [i]) [new] s = (inr [parent ++ [S i]], s')
    /\ node_at (dom s') (parent ++ [i]) = Some e
    /\ node_at (dom s') (parent ++ [S i]) = Some inserted
    /\ ext new inserted.
Proof.
  intros Hparent He Hel Himport.
  pose proof He as Hp. rewrite node_at_app in Hp.
  destruct (node_at (dom s) parent) as [p|] eqn:Hpn; [|done]. simpl in Hp.
  destruct (childNodes p !! i) as [e'|] eqn:Hi; [|done].
  injection Hp as ->.
  unfold insert_after. rewrite bind_run.
  rewrite (insert_after_run parent i [new] s e Hparent He)
    by (simpl; rewrite Himport, filter_cons, Hel; done).
  simpl. rewrite Himport.
  set (d1 := update_at parent _ (dom s)).
  set (s1 := State d1 (ticks s) (draws s)).
  assert (length (take (S i) (childNodes p)) = S i) as Hlen.
  { rewrite length_take. apply lookup_lt_Some in Hi. lia. }
  assert (node_at d1 (parent ++ [i]) = Some e) as He1.
  { unfold d1. rewrite (node_at_update_below _ _ _ _ p Hpn).
    destruct p as [t a pos cs|x|x]; [|done..]. simpl in *.
    rewrite lookup_app_l by lia. rewrite lookup_take_lt by lia.
    by rewrite Hi. }
  assert (node_at d1 (parent ++ [S i]) = Some new) as Hnew1.
  { unfold d1. rewrite (node_at_update_below _ _ _ _ p Hpn).
    destruct p as [t a pos cs|x|x]; [|done..]. simpl in *.
    rewrite lookup_app_r by lia. by rewrite Hlen, Nat.sub_diag. }
  assert (is_Some (documentElement d1)) as Hroot1.
  { destruct parent as [|k rest]; [done|].
    by apply (documentElement_above d1 k rest i e). }
  destruct (inject_frame cfg [parent ++ [S i]]) as (Hext & Hconf & Hret).
  destruct (Hret s1) as [[] Hok].
  { change (dom s1) with d1. split; [|done].
    constructor; [by rewrite Hnew1|constructor]. }
  specialize (Hext s1). specialize (Hconf s1).
  change (refs_from parent (S i) 1) with [parent ++ [S i]].
  rewrite bind_run.
  destruct (_inject_attributes_to_nodes cfg [parent ++ [S i]] s1)
    as [[err|[]] s2]; [done|]. simpl in *.
  exists s2.
  destruct (ext_node_at_Some _ _ _ _ Hext Hnew1) as (inserted & Hins & Hni).
  destruct (ext_node_at_Some _ _ _ _ Hext He1) as (e2 & He2 & Hee).
  exists inserted. split; [done|]. split; [|done].
  rewrite He2. f_equal. apply ext_eq; [done|]. intros q.
  assert (attributes <$> node_at (dom s2) (parent ++ [i] ++ q)
          = attributes <$> node_at d1 (parent ++ [i] ++ q)) as Hq.
  { apply Hconf.
    - intros (node & ->%list_elem_of_singleton & Hpre).
      by apply (prefix_snoc_apart parent q i (S i)) in Hpre; [|lia].
    - intros Hr%documentElement_length.
      rewrite !length_app in Hr. destruct parent; simpl in *; [done|lia]. }
  rewrite !app_assoc in Hq.
  rewrite (node_at_app (dom s2) (parent ++ [i]) q),
    (node_at_app d1 (parent ++ [i]) q), He2, He1 in Hq. done.
Qed.


End WithConfig.



End RevertFacts.


(** ** Looking elements up in a tree *)

Section TreeFacts.
Import Dom Editor Docx.

Lemma descendant_paths (cs : list node) (i : nat) :
  Forall (fun c => NoDup (map fst (descendant_elements c))) cs ->
  let block := fun i (c : node) =>
                 if is_element c
                 then ([i], c) :: map (below i) (descendant_elements c)
                 else [] in
  NoDup (map fst (flat_mapi block i cs))
  /\ forall p, p ∈ map fst (flat_mapi block i cs) ->
               exists j q, p = j :: q /\ i <= j.
Proof.
  intros Hcs block. revert i.
  induction Hcs as [|c cs Hc _ IH]; intros i; simpl.
  - split; [constructor|]. by intros p ?%elem_of_nil.
  - destruct (IH (S i)) as [IHnodup IHhead].
    assert (forall p, p ∈ map fst (block i c) -> exists q, p = i :: q) as Hhead.
    { intros p. unfold block. destruct (is_element c); [|by intros ?%elem_of_nil].
      simpl. rewrite elem_of_cons. intros [->|Hp]; [by eexists|].
      rewrite map_map in Hp. apply list_elem_of_fmap in Hp as (x & -> & _).
      by eexists. }
    rewrite map_app. split.
    + apply NoDup_app. split; [|split; [|done]].
      * unfold block. destruct (is_element c); [|constructor]. simpl.
        rewrite map_map. simpl. apply NoDup_cons. split.
        -- intros ([q e] & Heq & Hin)%list_elem_of_fmap. simpl in Heq.
           injection Heq as Heq.
           apply elem_of_descendant_elements in Hin as [Hq _]. congruence.
        -- rewrite <- (map_map fst (cons i)).
           by apply (NoDup_fmap_2 (cons i)).
      * intros p (q & ->)%Hhead (j & q' & [= -> ->] & Hle)%IHhead. lia.
    + intros p [(q & ->)%Hhead|(j & q & -> & Hle)%IHhead]%elem_of_app.
      * by exists i, q.
      * exists j, q. split; [done|lia].
Qed.

(** No path is listed twice. *)
Lemma NoDup_descendant_elements (n : node) :
  NoDup (map fst (descendant_elements n)).
Proof.
  induction n as [t a pos cs IH|s|s] using node_ind'; [|constructor..].
  simpl. by apply (descendant_paths cs 0).
Qed.

Lemma NoDup_getElementsByTagName (n : node) (name : string) :
  NoDup (map fst (getElementsByTagName n name)).
Proof.
  unfold getElementsByTagName.
  eapply sublist_NoDup; [apply NoDup_descendant_elements|].
  apply (fmap_sublist fst), sublist_filter.
Qed.

Lemma singleton_of_unique {A B} (l : list (A * B)) (x : A * B) :
  NoDup (map fst l) -> x ∈ l -> (forall y, y ∈ l -> fst y = fst x) ->
  exists b, l = [(fst x, b)].
Proof.
  intros Hnodup Hx Hall. destruct l as [|y [|z l]].
  - by apply elem_of_nil in Hx.
  - exists (snd y). apply list_elem_of_singleton in Hx as ->. by destruct y.
  - exfalso. simpl in Hnodup. apply NoDup_cons in Hnodup as [Hnotin _].
    apply Hnotin. rewrite (Hall y), <- (Hall z); [by left| |by left].
    right. by left.
Qed.

(** [get_node] by tag and attributes finds the element that is the only one
    with them. *)
Lemma get_node_in_unique (html : string -> string) (d : node) (tag : string)
    (attrs : list (string * string)) (p : path) (e : node) :
  tag <> "*" ->
  p <> [] -> node_at d p = Some e -> is_element e = true ->
  nodeName e = tag ->
  (forall kv, kv ∈ attrs -> getAttribute e (fst kv) = snd kv) ->
  (forall q e', node_at d q = Some e' -> is_element e' = true ->
                nodeName e' = tag ->
                (forall kv, kv ∈ attrs -> getAttribute e' (fst kv) = snd kv) ->
                q = p) ->
  get_node_in html d tag (Some attrs) None None = inr p.
Proof.
  intros Hstar Hp He Hel Htag Hattrs Hunique. unfold get_node_in.
  set (matches := filter _ (getElementsByTagName d tag)).
  assert (forall e', passes_filters html (Some attrs) None None e' = true
                     <-> forall kv, kv ∈ attrs -> getAttribute e' (fst kv) = snd kv)
    as Hpass.
  { intros e'. unfold passes_filters. simpl. rewrite andb_true_r.
    rewrite forallb_forall. split.
    - intros H kv Hkv. eapply bool_decide_eq_true_1, H.
      by apply list_elem_of_In.
    - intros H kv Hkv. apply bool_decide_eq_true_2, H.
      by apply list_elem_of_In. }
  assert (forall q e', (q, e') ∈ matches
            <-> q <> [] /\ node_at d q = Some e' /\ is_element e' = true
                /\ nodeName e' = tag
                /\ forall kv, kv ∈ attrs -> getAttribute e' (fst kv) = snd kv)
    as Hmatches.
  { intros q e'. unfold matches.
    rewrite list_elem_of_filter, elem_of_getElementsByTagName. simpl.
    rewrite Is_true_true, Hpass. unfold tag_matches.
    rewrite (bool_decide_eq_false_2 _ Hstar). simpl.
    rewrite bool_decide_eq_true. tauto. }
  destruct (singleton_of_unique matches (p, e)) as [b ->]; [| | |done].
  - eapply sublist_NoDup; [apply (NoDup_getElementsByTagName d tag)|].
    apply (fmap_sublist fst), sublist_filter.
  - by apply Hmatches.
  - intros [q e'] (Hq & Hat & Hel' & Htag' & Hattrs')%Hmatches. simpl.
    by apply (Hunique q e').
Qed.

(** *** A tree with one more child at [r] *)

(** A node of the new tree is in the new child, or stands where a node of
    the old tree stood, with its name and attributes; it is that node
    unless the new child is below it. *)
Lemma node_at_appended (d : node) (r : path) (rn new : node) (q : path)
    (e1 : node) :
  node_at d r = Some rn -> is_element rn = true ->
  node_at (update_at r (fun n => set_children (childNodes n ++ [new]) n) d) q
  = Some e1 ->
  (exists q', q = r ++ length (childNodes rn) :: q'
              /\ node_at new q' = Some e1)
  \/ (exists e0, node_at d q = Some e0
                 /\ nodeName e1 = nodeName e0
                 /\ attributes e1 = attributes e0
                 /\ is_element e1 = is_element e0
                 /\ (~ q `prefix_of` r -> e1 = e0)).
Proof.
  revert d q. induction r as [|i r IH]; intros d q Hrn Hel.
  - injection Hrn as ->. simpl. destruct rn as [t a pos cs|x|x]; [|done..].
    simpl. destruct q as [|j q].
    + intros [= <-]. right. eexists. split; [done|].
      repeat split; try done; try (intros H; destruct H; by exists []).
    + simpl. destruct (decide (j < length cs)) as [Hlt|Hge].
      * rewrite lookup_app_l by done. intros Hq. right. exists e1.
        split; [done|]. by repeat split.
      * rewrite lookup_app_r by lia.
        destruct (j - length cs) as [|k] eqn:Hk; [|by destruct k].
        simpl. intros Hq. left. exists q. split; [|done].
        f_equal. lia.
  - simpl in Hrn. destruct d as [t a pos cs|x|x]; [|done..]. simpl in Hrn.
    destruct (cs !! i) as [c|] eqn:Hc; [|done]. simpl.
    destruct q as [|j q].
    + intros [= <-]. right. eexists. split; [done|].
      repeat split; try done; try (intros H; destruct H; by eexists).
    + simpl. destruct (decide (i = j)) as [->|Hij].
      * rewrite list_lookup_alter_eq, Hc. simpl. intros Hq.
        destruct (IH c q Hrn Hel Hq) as [(q' & -> & Hnew)|(e0 & H0 & Hlabel)].
        -- left. by exists q'.
        -- right. exists e0. split; [done|].
           destruct Hlabel as (? & ? & ? & Hsame). repeat split; try done.
           intros Hpre. apply Hsame. intros Hqr. apply Hpre.
           by apply prefix_cons.
      * rewrite list_lookup_alter_ne by done. intros Hq. right. exists e1.
        split; [done|]. repeat split; try done.
Qed.

(** A node of the old tree stands where it stood, with its name and
    attributes; it is the same node unless the new child is below it. *)
Lemma node_at_kept (d : node) (r : path) (rn new : node) (q : path)
    (e0 : node) :
  node_at d r = Some rn -> is_element rn = true ->
  node_at d q = Some e0 ->
  exists e1,
    node_at (update_at r (fun n => set_children (childNodes n ++ [new]) n) d) q
    = Some e1
    /\ nodeName e1 = nodeName e0 /\ attributes e1 = attributes e0
    /\ is_element e1 = is_element e0
    /\ (~ q `prefix_of` r -> e1 = e0).
Proof.
  revert d q. induction r as [|i r IH]; intros d q Hrn Hel.
  - injection Hrn as ->. simpl. destruct rn as [t a pos cs|x|x]; [|done..].
    simpl. destruct q as [|j q].
    + intros [= <-]. eexists. split; [done|].
      repeat split; try done; try (intros H; destruct H; by exists []).
    + simpl. intros Hq. exists e0.
      destruct (cs !! j) as [c|] eqn:Hc; [|done].
      rewrite (lookup_app_l_Some _ _ _ _ Hc). by repeat split.
  - simpl in Hrn. destruct d as [t a pos cs|x|x]; [|done..]. simpl in Hrn.
    destruct (cs !! i) as [c|] eqn:Hc; [|done]. simpl.
    destruct q as [|j q].
    + intros [= <-]. eexists. split; [done|].
      repeat split; try done; try (intros H; destruct H; by eexists).
    + simpl. destruct (decide (i = j)) as [->|Hij].
      * rewrite list_lookup_alter_eq, Hc. simpl. intros Hq.
        destruct (IH c q Hrn Hel Hq) as (e1 & H1 & ? & ? & ? & Hsame).
        exists e1. repeat split; try done.
        intros Hpre. apply Hsame. intros Hqr. apply Hpre.
        by apply prefix_cons.
      * rewrite list_lookup_alter_ne by done. intros Hq. exists e0.
        by repeat split.
Qed.

(** *** The visible text does not depend on the attributes *)

Lemma ext_text_content (n n' : node) :
  ext n n' -> text_content n' = text_content n.
Proof.
  induction 1 as [t a a' pos cs cs' Ha Hcs IH|s|s] using ext_ind'; [|done..].
  simpl. f_equal. clear Hcs. induction IH as [|c c' cs cs' Hc _ IHcs]; [done|].
  simpl. by rewrite Hc, IHcs.
Qed.

Lemma ext_visible_text (n n' : node) :
  ext n n' -> visible_text n' = visible_text n.
Proof.
  intros Hext. unfold visible_text. f_equal.
  pose proof (ext_getElementsByTagName n n' "w:t" Hext) as Hl.
  induction Hl as [|x y l l' [_ Hxy] _ IH]; [done|].
  simpl. by rewrite IH, (ext_text_content _ _ Hxy).
Qed.

End TreeFacts.


(** ** Comments: add_comment and reply_to_comment *)

Section CommentFacts.
Import Dom Editor Docx Comments.

Lemma dbind_run {A B} (m : DM A) (k : A -> DM B) (D : Document) :
  (m ≫= k) D = match m D with
               | (inl e, D') => (inl e, D')
               | (inr a, D') => k a D'
               end.
Proof. reflexivity. Qed.

(** *** Editor.append_to as a change of the tree *)

Lemma append_to_run (elem : path) (parsed : list node) (s : state) (e : node) :
  elem <> [] -> node_at (dom s) elem = Some e -> is_element e = true ->
  filter (fun n => is_element n) (map importNode parsed) <> [] ->
  Editor.append_to elem parsed s
  = (inr (refs_from elem (length (childNodes e)) (length parsed)),
     State (update_at elem
              (fun n => set_children (childNodes n ++ map importNode parsed) n)
              (dom s))
           (ticks s) (draws s)).
Proof.
  intros Helem He Hel Hfrag. unfold Editor.append_to.
  rewrite bind_run, deref_run, He, bind_run. unfold _parse_fragment.
  destruct (filter _ (map importNode parsed)) as [|x xs]; [done|].
  simpl. rewrite bind_run, (append_all_run elem _ s e) by done.
  simpl. by rewrite importNode_length.
Qed.

Lemma get_node_in_found (html : string -> string) (d : node) (tag : string)
    (attrs : option (list (string * string))) (p : path) :
  get_node_in html d tag attrs None None = inr p ->
  exists e, p <> [] /\ node_at d p = Some e /\ is_element e = true
            /\ tag_matches tag (nodeName e) = true.
Proof.
  unfold get_node_in.
  destruct (filter _ (getElementsByTagName d tag)) as [|[q e] [|m2 ms]] eqn:Hf;
    [done| |done].
  intros [= <-]. exists e.
  assert ((q, e) ∈ filter (fun pe => passes_filters html attrs None None (snd pe))
                     (getElementsByTagName d tag)) as Hin
    by (rewrite Hf; by left).
  apply list_elem_of_filter in Hin as [_ Hin].
  by apply elem_of_getElementsByTagName in Hin.
Qed.

Section WithSession.

Variable cfg : config.
Variable html_unescape : string -> string.
Variable template : string -> node.

(** The injection has nothing to do for an element without children whose
    name is none of those it knows. *)
Lemma inject_leaf (p : path) (s : state) (tag : string)
    (attrs : gmap string string) :
  node_at (dom s) p = Some (leaf tag attrs) ->
  tag <> "w:p" -> tag <> "w:r" -> tag <> "w:t" -> tag <> "w:ins" ->
  tag <> "w:del" -> tag <> "w:comment" -> tag <> "w16cex:commentExtensible" ->
  _inject_attributes_to_nodes cfg [p] s
  = (inr tt, State (dom s) (S (ticks s)) (draws s)).
Proof.
  intros Hp H1 H2 H3 H4 H5 H6 H7.
  assert (forall name body (s0 : state),
            dom s0 = dom s -> for_elements p name body s0 = (inr tt, s0))
    as Hloop.
  { intros name body s0 Hs0. unfold for_elements, elements_below.
    rewrite bind_run. simpl. by rewrite Hs0, Hp. }
  unfold _inject_attributes_to_nodes. rewrite bind_run. simpl.
  rewrite bind_run. unfold inject_node. rewrite bind_run, deref_run.
  simpl. rewrite Hp. simpl.
  destruct (bool_decide (p = [])); [done|].
  unfold inject_element.
  rewrite !bool_decide_eq_false_2 by done. simpl (false || false).
  cbv iota. rewrite bind_run. unfold ret at 1. cbv iota beta.
  do 3 (rewrite bind_run, Hloop by done).
  rewrite bind_run. unfold for_each at 1.
  rewrite bind_run, Hloop by done. rewrite bind_run, Hloop by done.
  unfold mret, M_ret, ret at 1. cbv iota beta.
  rewrite bind_run, Hloop by done. rewrite Hloop by done. done.
Qed.

(** *** Ids and names *)

Lemma str_of_Z_inj (a b : Z) : Py.str_of_Z a = Py.str_of_Z b -> a = b.
Proof.
  intros Heq. pose proof (int_of_str_of_Z a) as Ha.
  rewrite Heq, int_of_str_of_Z in Ha. congruence.
Qed.

Lemma str_of_Z_not_empty (a : Z) : Py.str_of_Z a <> "".
Proof.
  intros Heq. pose proof (int_of_str_of_Z a) as Ha. rewrite Heq in Ha.
  by vm_compute in Ha.
Qed.

Lemma getAttribute_hasAttribute (e : node) (name : string) :
  getAttribute e name <> "" -> hasAttribute e name = true.
Proof.
  unfold getAttribute, hasAttribute. intros Hne. apply bool_decide_eq_true.
  destruct (attributes e !! name); [by eexists|done].
Qed.

Lemma no_descendant_named (n : node) (tag : string) (q : path) (e : node) :
  getElementsByTagName n tag = [] ->
  node_at n q = Some e -> is_element e = true -> nodeName e = tag -> q = [].
Proof.
  intros Hnone Hq Hel Hname. destruct (decide (q = [])) as [|Hne]; [done|].
  assert ((q, e) ∈ getElementsByTagName n tag) as Hin.
  { apply elem_of_getElementsByTagName. split; [done|]. split; [done|].
    split; [done|]. unfold tag_matches.
    rewrite (bool_decide_eq_true_2 _ Hname). by rewrite orb_true_r. }
  rewrite Hnone in Hin. by apply elem_of_nil in Hin.
Qed.

(** *** Generated ids read back as they are *)

Lemma string_forall_app (P : ascii -> bool) (a b : string) :
  string_forall P (a +:+ b) = string_forall P a && string_forall P b.
Proof.
  induction a as [|c a IH]; [done|]. rewrite append_cons. simpl.
  by rewrite IH, andb_assoc.
Qed.

Lemma string_forall_cons (P : ascii -> bool) (c : ascii) (s : string) :
  string_forall P (String c s) = P c && string_forall P s.
Proof. reflexivity. Qed.

Lemma string_forall_impl (P Q : ascii -> bool) (s : string) :
  (forall c, P c = true -> Q c = true) ->
  string_forall P s = true -> string_forall Q s = true.
Proof.
  intros HPQ. induction s as [|c s IH]; [done|]. simpl.
  intros [Hc Hs]%andb_true_iff. by rewrite (HPQ c Hc), IH.
Qed.

Lemma hex_digit_upper (d : N) :
  (d < 16)%N ->
  (is_digit (Py.hex_digit d)
   || ((65 <=? nat_of_ascii (Py.hex_digit d))%nat
       && (nat_of_ascii (Py.hex_digit d) <=? 70)%nat)) = true.
Proof.
  intros Hd.
  assert (d = 0 \/ d = 1 \/ d = 2 \/ d = 3 \/ d = 4 \/ d = 5 \/ d = 6 \/ d = 7
          \/ d = 8 \/ d = 9 \/ d = 10 \/ d = 11 \/ d = 12 \/ d = 13 \/ d = 14
          \/ d = 15)%N as Hcases by lia.
  repeat (destruct Hcases as [->|Hcases]; [by vm_compute|]).
  by subst.
Qed.

Lemma format_08X_upper (n : N) :
  string_forall (fun c => is_digit c
                          || ((65 <=? nat_of_ascii c)%nat
                              && (nat_of_ascii c <=? 70)%nat))
    (Py.format_08X n) = true.
Proof.
  unfold Py.format_08X, Py.format_X. rewrite string_forall_app.
  apply andb_true_iff. split.
  - induction (8 - _) as [|k IH]; [done|]. simpl. exact IH.
  - generalize (S (N.to_nat (N.log2 n))) as fuel.
    assert (string_forall (fun c => is_digit c
                          || ((65 <=? nat_of_ascii c)%nat
                              && (nat_of_ascii c <=? 70)%nat)) "" = true)
      as Hacc by done.
    revert Hacc. generalize "" as acc. intros acc Hacc fuel. revert n acc Hacc.
    induction fuel as [|fuel IH]; intros n acc Hacc; [done|]. simpl.
    assert (string_forall (fun c => is_digit c
                          || ((65 <=? nat_of_ascii c)%nat
                              && (nat_of_ascii c <=? 70)%nat))
              (String (Py.hex_digit (n mod 16)) acc) = true) as Hacc'.
    { rewrite string_forall_cons, Hacc, andb_true_r.
      apply hex_digit_upper. by apply N.mod_lt. }
    destruct (n / 16 =? 0)%N; [done|by apply IH].
Qed.

Lemma normalize_eol_plain (s : string) :
  string_forall (fun c => negb (Ascii.eqb c (ascii_of_nat 13))) s = true ->
  Py.normalize_eol s = s.
Proof.
  induction s as [|c s IH]; [done|]. simpl.
  intros [Hc Hs]%andb_true_iff. apply negb_true_iff in Hc as ->.
  by rewrite IH.
Qed.

Lemma blanks_to_spaces_plain (s : string) :
  string_forall (fun c => negb (Ascii.eqb c (ascii_of_nat 9)
                                || Ascii.eqb c (ascii_of_nat 10))) s = true ->
  Py.blanks_to_spaces s = s.
Proof.
  induction s as [|c s IH]; [done|]. simpl.
  intros [Hc Hs]%andb_true_iff. apply negb_true_iff in Hc as ->.
  by rewrite IH.
Qed.

Lemma upper_hex_char (c : ascii) :
  (is_digit c || ((65 <=? nat_of_ascii c)%nat
                  && (nat_of_ascii c <=? 70)%nat)) = true ->
  plain_char c = true
  /\ Ascii.eqb c (ascii_of_nat 13) = false
  /\ (Ascii.eqb c (ascii_of_nat 9) || Ascii.eqb c (ascii_of_nat 10)) = false.
Proof.
  destruct c as [[] [] [] [] [] [] [] []]; vm_compute; intros H;
    by repeat split.
Qed.

(** An id made of digits and the letters A to F is read back as it is. *)
Lemma parsed_value_hex (value : string) :
  string_forall (fun c => is_digit c
                          || ((65 <=? nat_of_ascii c)%nat
                              && (nat_of_ascii c <=? 70)%nat)) value = true ->
  parsed_value value = inr value.
Proof.
  intros Hhex. unfold parsed_value, Py.normalize_attribute.
  assert (string_forall plain_char value = true) as ->.
  { eapply string_forall_impl; [|exact Hhex].
    by intros c (Hc & _)%upper_hex_char. }
  rewrite normalize_eol_plain, blanks_to_spaces_plain; [done|..].
  - eapply string_forall_impl; [|exact Hhex].
    intros c (_ & _ & ->)%upper_hex_char. done.
  - eapply string_forall_impl; [|exact Hhex].
    intros c (_ & -> & _)%upper_hex_char. done.
Qed.

Lemma parsed_value_generated (n : N) :
  parsed_value (Py.format_08X n) = inr (Py.format_08X n).
Proof. apply parsed_value_hex, format_08X_upper. Qed.

(** *** The comments part with one more comment *)

Lemma getAttribute_attributes (e e' : node) (name : string) :
  attributes e' = attributes e -> getAttribute e' name = getAttribute e name.
Proof. unfold getAttribute. by intros ->. Qed.

Lemma ext_no_elements (n n' : node) (tag : string) :
  ext n n' -> getElementsByTagName n tag = [] ->
  getElementsByTagName n' tag = [].
Proof.
  intros Hext Hnone. pose proof (ext_getElementsByTagName n n' tag Hext) as Hl.
  rewrite Hnone in Hl. by inversion Hl.
Qed.

Section Appended.

Variables (c c' : node) (root : path) (rn new : node).
Variables (comment_id : Z) (body : string).

Hypothesis root_not_nil : root <> [].
Hypothesis root_at : node_at c root = Some rn.
Hypothesis root_element : is_element rn = true.
Hypothesis root_name : nodeName rn = "w:comments".
Hypothesis new_element : is_element new = true.
Hypothesis new_name : nodeName new = "w:comment".
Hypothesis new_id : getAttribute new "w:id" = Py.str_of_Z comment_id.
Hypothesis new_text : visible_text new = body.
Hypothesis new_tidy : getElementsByTagName new "w:comments" = [].
Hypothesis new_only :
  forall q e, node_at new q = Some e -> nodeName e = "w:comment" -> q = [].

Let d1 : node :=
  update_at root (fun n => set_children (childNodes n ++ [new]) n) c.
Let here : path := root ++ [length (childNodes rn)].

Hypothesis injected : ext d1 c'.
Hypothesis elsewhere :
  forall q, ~ here `prefix_of` q -> documentElement d1 <> Some q ->
            attributes <$> node_at c' q = attributes <$> node_at d1 q.
Hypothesis known_ids : ids_below c comment_id.
Hypothesis plain_root : root_is_no_comment c.

Lemma appended_root : documentElement d1 = documentElement c.
Proof.
  unfold d1. apply documentElement_update_at; [|done]. intros m. by destruct m.
Qed.

Lemma appended_here : node_at d1 here = Some new.
Proof.
  unfold d1, here. rewrite (node_at_update_below _ _ _ _ rn root_at).
  destruct rn as [t a pos cs|x|x]; [|done..]. simpl.
  by rewrite lookup_app_r, Nat.sub_diag.
Qed.

Lemma not_here_of_old (q : path) (e0 : node) :
  node_at c q = Some e0 -> ~ here `prefix_of` q.
Proof.
  intros Hq [k ->]. unfold here in Hq. rewrite <- app_assoc in Hq.
  rewrite node_at_app, root_at in Hq. simpl in Hq.
  by rewrite lookup_ge_None_2 in Hq.
Qed.

(** A w:comment element of the new tree is the new comment or an old one
    with its attributes. *)
Lemma comment_classified (q : path) (e2 : node) :
  node_at c' q = Some e2 -> nodeName e2 = "w:comment" ->
  (q = here /\ ext new e2)
  \/ (exists e0, node_at c q = Some e0 /\ nodeName e0 = "w:comment"
                 /\ attributes e2 = attributes e0).
Proof.
  intros Hq Hname.
  destruct (ext_node_at_Some_r _ _ _ _ injected Hq) as (e1 & H1 & He12).
  pose proof (ext_nodeName _ _ He12) as Hname1. rewrite Hname in Hname1.
  symmetry in Hname1.
  destruct (node_at_appended c root rn new q e1 root_at root_element H1)
    as [(q' & -> & Hnew)|(e0 & H0 & Hn0 & Ha0 & _)].
  - left. pose proof (new_only q' e1 Hnew Hname1) as ->.
    simpl in Hnew. injection Hnew as <-. done.
  - right. exists e0. split; [done|]. split; [congruence|].
    rewrite <- Ha0.
    assert (attributes <$> node_at c' q = attributes <$> node_at d1 q) as Hsame.
    { apply elsewhere; [by apply (not_here_of_old q e0)|].
      rewrite appended_root. intros Hroot.
      apply (plain_root q e0 Hroot H0). congruence. }
    rewrite Hq, H1 in Hsame. by injection Hsame.
Qed.

Lemma appended_ids : ids_below c' (comment_id + 1).
Proof.
  intros q e2 n Hq Hname Hint.
  destruct (comment_classified q e2 Hq Hname) as [[-> Hext]|(e0 & H0 & Hn0 & Ha)].
  - rewrite (ext_getAttribute _ _ _ Hext) in Hint.
    + rewrite new_id, int_of_str_of_Z in Hint. injection Hint as <-. lia.
    + apply getAttribute_hasAttribute. rewrite new_id.
      apply str_of_Z_not_empty.
  - rewrite (getAttribute_attributes e0 e2 _ Ha) in Hint.
    pose proof (known_ids q e0 n H0 Hn0 Hint). lia.
Qed.

Lemma appended_plain_root : root_is_no_comment c'.
Proof.
  intros p e2 Hroot Hp Hname.
  rewrite (ext_documentElement _ _ injected), appended_root in Hroot.
  destruct (comment_classified p e2 Hp Hname) as [[-> _]|(e0 & H0 & Hn0 & _)].
  - apply documentElement_length in Hroot. unfold here in Hroot.
    rewrite length_app in Hroot. simpl in Hroot.
    destruct root; [done|simpl in Hroot; lia].
  - by apply (plain_root p e0 Hroot H0).
Qed.

Lemma appended_comment : comment_at c' comment_id here body.
Proof.
  destruct (ext_node_at_Some _ _ _ _ injected appended_here) as (e2 & H2 & Hext).
  exists e2. split; [unfold here; by destruct root|]. split; [done|].
  split; [by rewrite (ext_is_element _ _ Hext)|].
  split; [by rewrite (ext_nodeName _ _ Hext)|].
  split.
  { rewrite (ext_getAttribute _ _ _ Hext); [done|].
    apply getAttribute_hasAttribute. rewrite new_id.
    apply str_of_Z_not_empty. }
  split; [by rewrite (ext_visible_text _ _ Hext)|].
  split; [by apply (ext_no_elements new)|].
  intros q e3 Hq Hname Hid.
  destruct (comment_classified q e3 Hq Hname) as [[-> _]|(e0 & H0 & Hn0 & Ha)];
    [done|].
  exfalso. rewrite (getAttribute_attributes e0 e3 _ Ha) in Hid.
  assert (Py.int_of_str (getAttribute e0 "w:id") = Some comment_id) as Hint
    by (by rewrite Hid, int_of_str_of_Z).
  pose proof (known_ids q e0 _ H0 Hn0 Hint). lia.
Qed.

Lemma appended_keeps (id0 : Z) (p0 : path) (body0 : string) :
  comment_at c id0 p0 body0 -> comment_at c' id0 p0 body0.
Proof.
  intros (e0 & Hp0 & H0 & Hel0 & Hn0 & Hid0 & Htext0 & Htidy0 & Hunique0).
  assert (id0 < comment_id)%Z as Hlt.
  { apply (known_ids p0 e0 id0 H0 Hn0). by rewrite Hid0, int_of_str_of_Z. }
  assert (~ p0 `prefix_of` root) as Hapart.
  { intros [k ->]. rewrite node_at_app, H0 in root_at. simpl in root_at.
    assert (k = []) as ->.
    { by apply (no_descendant_named e0 "w:comments" k rn). }
    injection root_at as <-. congruence. }
  destruct (node_at_kept c root rn new p0 e0 root_at root_element H0)
    as (e1 & H1 & _ & _ & _ & Hsame).
  rewrite (Hsame Hapart) in H1. clear Hsame e1. fold d1 in H1.
  destruct (ext_node_at_Some _ _ _ _ injected H1) as (e2 & H2 & Hext).
  exists e2. split; [done|]. split; [done|].
  split; [by rewrite (ext_is_element _ _ Hext)|].
  split; [by rewrite (ext_nodeName _ _ Hext)|].
  split.
  { rewrite (ext_getAttribute _ _ _ Hext); [done|].
    apply getAttribute_hasAttribute. rewrite Hid0.
    apply str_of_Z_not_empty. }
  split; [by rewrite (ext_visible_text _ _ Hext)|].
  split; [by apply (ext_no_elements e0)|].
  intros q e3 Hq Hname Hid.
  destruct (comment_classified q e3 Hq Hname) as [[-> Hnew]|(e & He & Hn & Ha)].
  - exfalso. rewrite (ext_getAttribute _ _ _ Hnew) in Hid.
    + rewrite new_id in Hid. apply str_of_Z_inj in Hid. lia.
    + apply getAttribute_hasAttribute. rewrite new_id.
      apply str_of_Z_not_empty.
  - apply (Hunique0 q e He Hn).
    by rewrite <- (getAttribute_attributes e e3 _ Ha).
Qed.

End Appended.

(** *** One file at a time *)

Lemma same_but_refl (xml_path : string) (D : Document) : same_but xml_path D D.
Proof. done. Qed.

Lemma same_but_trans (xml_path : string) (D1 D2 D3 : Document) :
  same_but xml_path D1 D2 -> same_but xml_path D2 D3 -> same_but xml_path D1 D3.
Proof.
  intros (Hf & He & Hn) (Hf' & He' & Hn'). split; [|split]; [|congruence..].
  intros other Hne. by rewrite Hf', Hf.
Qed.

Lemma editor_frame {A} (xml_path : string) (m : M A) (D : Document) :
  same_but xml_path D (snd (editor xml_path m D)).
Proof.
  unfold editor. destruct (files D !! xml_path); [|done]. simpl.
  split; [|done]. intros other Hne. simpl. by rewrite lookup_insert_ne.
Qed.

Lemma copy_template_frame (xml_path name : string) (D : Document) :
  same_but xml_path D (snd (copy_template_if_missing template xml_path name D)).
Proof.
  unfold copy_template_if_missing. destruct (files D !! xml_path); [done|].
  simpl. split; [|done]. intros other Hne. simpl. by rewrite lookup_insert_ne.
Qed.

Lemma append_to_root_frame (xml_path root_tag : string)
    (fragment : exn + list node) (D : Document) :
  same_but xml_path D
    (snd (append_to_root cfg html_unescape xml_path root_tag fragment D)).
Proof.
  unfold append_to_root. rewrite dbind_run.
  pose proof (editor_frame xml_path
                (get_node html_unescape root_tag None None None) D) as H1.
  destruct (editor xml_path _ D) as [[e|root] D1]; [done|]. simpl in H1.
  destruct fragment as [e|nodes]; [done|]. rewrite dbind_run.
  pose proof (editor_frame xml_path (append_to cfg root nodes) D1) as H2.
  destruct (editor xml_path _ D1) as [[e|refs] D2]; simpl in *;
    by apply (same_but_trans _ D D1).
Qed.

Lemma get_node_run (tag : string) (attrs : option (list (string * string)))
    (s : state) :
  get_node html_unescape tag attrs None None s
  = match get_node_in html_unescape (dom s) tag attrs None None with
    | inl e => (inl e, s)
    | inr p => (inr p, s)
    end.
Proof.
  unfold get_node. rewrite bind_run. simpl.
  by destruct (get_node_in _ _ _ _ _ _).
Qed.

(** [append_to] of DocxXMLEditor with one element, when it returns: the
    element is the last child of [elem], and the injection has only added
    attributes, at the document element and at or below the new element. *)
Lemma append_one (elem : path) (new : node) (s s' : state) (e : node)
    (refs : list path) :
  elem <> [] -> node_at (dom s) elem = Some e -> is_element e = true ->
  is_element new = true -> importNode new = new ->
  append_to cfg elem [new] s = (inr refs, s') ->
  let d1 := update_at elem
              (fun n => set_children (childNodes n ++ [new]) n) (dom s) in
  ext d1 (dom s')
  /\ (forall q, ~ (elem ++ [length (childNodes e)]) `prefix_of` q ->
                documentElement d1 <> Some q ->
                attributes <$> node_at (dom s') q = attributes <$> node_at d1 q)
  /\ (forall tag attrs, new = leaf tag attrs ->
        tag <> "w:p" -> tag <> "w:r" -> tag <> "w:t" -> tag <> "w:ins" ->
        tag <> "w:del" -> tag <> "w:comment" ->
        tag <> "w16cex:commentExtensible" -> dom s' = d1).
Proof.
  intros Hne He Hele Hel Himport Hrun d1. unfold append_to in Hrun.
  rewrite bind_run in Hrun.
  rewrite (append_to_run elem [new] s e Hne He Hele) in Hrun
    by (simpl; rewrite Himport, filter_cons, Hel; done).
  simpl in Hrun. rewrite Himport in Hrun. fold d1 in Hrun.
  set (s1 := State d1 (ticks s) (draws s)) in *.
  change (refs_from elem (length (childNodes e)) 1)
    with [elem ++ [length (childNodes e)]] in Hrun.
  destruct (inject_frame cfg [elem ++ [length (childNodes e)]])
    as (Hext & Hconf & _).
  specialize (Hext s1). specialize (Hconf s1).
  assert (node_at d1 (elem ++ [length (childNodes e)]) = Some new) as Hnew.
  { unfold d1. rewrite (node_at_update_below _ _ _ _ e He).
    destruct e as [t a pos cs|x|x]; simpl; [|done..].
    by rewrite lookup_app_r, Nat.sub_diag. }
  rewrite bind_run in Hrun.
  destruct (_inject_attributes_to_nodes cfg _ s1) as [[err|[]] s2] eqn:Hinj;
    [done|].
  injection Hrun as _ <-. split; [exact Hext|]. split.
  - intros q Hq Hr. apply Hconf; [|done].
    intros (node & ->%list_elem_of_singleton & Hpre). done.
  - intros tag attrs -> H1 H2 H3 H4 H5 H6 H7.
    pose proof (inject_leaf _ s1 tag attrs Hnew H1 H2 H3 H4 H5 H6 H7) as Hleaf.
    pose proof (eq_trans (eq_sym Hinj) Hleaf) as Heq. by injection Heq as ->.
Qed.

Lemma editor_run {A} (xml_path : string) (m : M A) (D : Document) (d : node) :
  files D !! xml_path = Some d ->
  editor xml_path m D
  = (let r := m (State d (clock_reads D) (random_draws D)) in
     (fst r,
      Build_Document (<[ xml_path := dom (snd r) ]> (files D))
        (existing_comments D) (next_comment_id D)
        (ticks (snd r)) (draws (snd r)))).
Proof. intros Hd. unfold editor. by rewrite Hd. Qed.

Lemma editor_missing {A} (xml_path : string) (m : M A) (D D' : Document)
    (a : A) :
  editor xml_path m D = (inr a, D') -> is_Some (files D !! xml_path).
Proof. unfold editor. by destruct (files D !! xml_path). Qed.

(** The same for [append_to_root]. *)
Lemma append_to_root_spec (xml_path root_tag : string) (new : node)
    (D D' : Document) :
  append_to_root cfg html_unescape xml_path root_tag (inr [new]) D
  = (inr tt, D') ->
  is_element new = true -> importNode new = new ->
  exists d root rn d',
    files D !! xml_path = Some d
    /\ get_node_in html_unescape d root_tag None None None = inr root
    /\ root <> [] /\ node_at d root = Some rn
    /\ files D' !! xml_path = Some d'
    /\ let d1 := update_at root
                   (fun n => set_children (childNodes n ++ [new]) n) d in
       ext d1 d'
       /\ (forall q, ~ (root ++ [length (childNodes rn)]) `prefix_of` q ->
                     documentElement d1 <> Some q ->
                     attributes <$> node_at d' q = attributes <$> node_at d1 q)
       /\ (forall tag attrs, new = leaf tag attrs ->
             tag <> "w:p" -> tag <> "w:r" -> tag <> "w:t" -> tag <> "w:ins" ->
             tag <> "w:del" -> tag <> "w:comment" ->
             tag <> "w16cex:commentExtensible" -> d' = d1).
Proof.
  intros Hrun Hel Himport. unfold append_to_root in Hrun.
  rewrite dbind_run in Hrun.
  destruct (editor xml_path (get_node _ _ _ _ _) D) as [[err|root] D1] eqn:H1;
    [done|].
  destruct (editor_missing _ _ _ _ _ H1) as [d Hd].
  rewrite (editor_run _ _ _ d Hd), get_node_run in H1. simpl in H1.
  destruct (get_node_in html_unescape d root_tag None None None)
    as [err|root'] eqn:Hroot; [done|].
  simpl in H1. injection H1 as -> <-.
  destruct (get_node_in_found _ _ _ _ _ Hroot) as (rn & Hne & Hrn & Hrel & _).
  rewrite dbind_run in Hrun.
  destruct (editor xml_path (append_to cfg root [new]) _)
    as [[err|refs] D2] eqn:H2; [done|].
  injection Hrun as <-.
  rewrite (editor_run _ _ _ d) in H2 by (simpl; by rewrite lookup_insert_eq).
  simpl in H2.
  destruct (append_to cfg root [new] _) as [r s'] eqn:Happ.
  simpl in H2. injection H2 as -> <-.
  exists d, root, rn, (dom s'). simpl. rewrite lookup_insert_eq.
  split; [done|]. split; [done|]. split; [done|]. split; [done|].
  split; [done|].
  by apply (append_one root new
              (State d (clock_reads D) (random_draws D)) s' rn refs
              Hne Hrn Hrel Hel Himport Happ).
Qed.

(** *** The comment element *)

(** What [comment_xml] gives when it parses. *)
Lemma comment_xml_shape (comment_id : Z) (para_id text : string)
    (nodes : list node) :
  comment_xml comment_id para_id text = inr nodes ->
  exists new,
    nodes = [new] /\ is_element new = true /\ importNode new = new
    /\ nodeName new = "w:comment"
    /\ getAttribute new "w:id" = Py.str_of_Z comment_id
    /\ visible_text new = Py.normalize_eol text
    /\ getElementsByTagName new "w:comments" = []
    /\ forall q e, node_at new q = Some e -> nodeName e = "w:comment" -> q = [].
Proof.
  unfold comment_xml, parsed_text.
  destruct (parsed_value para_id) as [|para]; [done|].
  destruct (string_forall xml_char text); [|done].
  intros [= <-]. eexists. split; [done|]. split; [done|].
  split; [by destruct (bool_decide (text = ""))|]. split; [done|].
  split; [unfold getAttribute; simpl; by rewrite lookup_singleton_eq|].
  split.
  { case_bool_decide as Htext; [by subst|].
    unfold visible_text. simpl. unfold Py.join. by simpl. }
  split; [by destruct (bool_decide (text = ""))|].
  intros q e Hq Hname.
  eapply (no_descendant_named _ "w:comment"); [|exact Hq|by destruct e|done].
  by destruct (bool_decide (text = "")).
Qed.

(** *** _add_to_comments_xml *)

Lemma copy_template_run (xml_path name : string) (D : Document) :
  exists D0,
    copy_template_if_missing template xml_path name D = (inr tt, D0)
    /\ files D0 !! xml_path
       = Some (default (template name) (files D !! xml_path))
    /\ same_but xml_path D D0.
Proof.
  pose proof (copy_template_frame xml_path name D) as Hframe.
  unfold copy_template_if_missing in *.
  destruct (files D !! xml_path) as [d|] eqn:Hd; eexists; (split; [done|]).
  - by split.
  - split; [|done]. simpl. by rewrite lookup_insert_eq.
Qed.

Lemma append_to_root_fragment (xml_path root_tag : string)
    (fragment : exn + list node) (D D' : Document) :
  append_to_root cfg html_unescape xml_path root_tag fragment D = (inr tt, D') ->
  exists nodes, fragment = inr nodes.
Proof.
  unfold append_to_root. rewrite dbind_run.
  destruct (editor xml_path _ D) as [[e|root] D1]; [done|].
  destruct fragment as [e|nodes]; [done|]. by eexists.
Qed.

(** [_add_to_comments_xml], when it returns: the comments part holds the
    new comment under its id, with the text as its body (line ends
    normalized); the ids in the part stay below the next id; and every
    comment that could be found by its id before can still be. *)
Lemma add_to_comments_step (comment_id : Z)
    (para_id text author initials timestamp : string) (D D' : Document) :
  _add_to_comments_xml cfg html_unescape template comment_id para_id text
    author initials timestamp D = (inr tt, D') ->
  let c := default (template "comments.xml") (files D !! comments_xml) in
  ids_below c comment_id -> root_is_no_comment c ->
  same_but comments_xml D D'
  /\ exists c' p,
       files D' !! comments_xml = Some c'
       /\ ids_below c' (comment_id + 1) /\ root_is_no_comment c'
       /\ comment_at c' comment_id p (Py.normalize_eol text)
       /\ forall id0 p0 body0,
            comment_at c id0 p0 body0 -> comment_at c' id0 p0 body0.
Proof.
  intros Hrun c Hids Hplain. unfold _add_to_comments_xml in Hrun.
  rewrite dbind_run in Hrun.
  destruct (copy_template_run comments_xml "comments.xml" D)
    as (D0 & Hcopy & Hc & Hframe0).
  rewrite Hcopy in Hrun. fold c in Hc.
  pose proof (append_to_root_frame comments_xml "w:comments"
                (comment_xml comment_id para_id text) D0) as Hframe1.
  rewrite Hrun in Hframe1. simpl in Hframe1.
  split; [by apply (same_but_trans _ D D0)|].
  destruct (append_to_root_fragment _ _ _ _ _ Hrun) as [nodes Hnodes].
  rewrite Hnodes in Hrun.
  destruct (comment_xml_shape _ _ _ _ Hnodes)
    as (new & -> & Hel & Himport & Hname & Hid & Htext & Htidy & Honly).
  destruct (append_to_root_spec _ _ _ _ _ Hrun Hel Himport)
    as (d & root & rn & c' & Hd & Hroot & Hne & Hrn & Hc' & Hext & Hconf & _).
  rewrite Hc in Hd. injection Hd as <-.
  destruct (get_node_in_found _ _ _ _ _ Hroot) as (rn' & _ & Hrn' & Hrel & Htag).
  rewrite Hrn in Hrn'. injection Hrn' as <-.
  assert (nodeName rn = "w:comments") as Hrname.
  { unfold tag_matches in Htag. simpl in Htag.
    by apply bool_decide_eq_true in Htag. }
  exists c', (root ++ [length (childNodes rn)]).
  split; [done|].
  split; [by eapply (appended_ids c c' root rn new comment_id)|].
  split; [by eapply (appended_plain_root c c' root rn new)|].
  split; [by eapply (appended_comment c c' root rn new comment_id)|].
  intros id0 p0 body0.
  by eapply (appended_keeps c c' root rn new comment_id).
Qed.

(** *** _add_to_comments_extended_xml *)

Lemma comment_ex_shape (para_id : string) (parent_para_id : option string)
    (nodes : list node) :
  comment_ex_xml para_id parent_para_id = inr nodes ->
  exists attrs, nodes = [leaf "w15:commentEx" attrs].
Proof.
  unfold comment_ex_xml. destruct (parsed_value para_id) as [|para]; [done|].
  destruct parent_para_id as [parent|]; [|intros [= <-]; by eexists].
  destruct (bool_decide (parent = "")); [intros [= <-]; by eexists|].
  destruct (parsed_value parent); [done|]. intros [= <-]. by eexists.
Qed.

(** [_add_to_comments_extended_xml], when it returns: the entry is the last
    child of the w15:commentsEx element, as the fragment was read. *)
Lemma add_to_extended_step (para_id : string) (parent_para_id : option string)
    (D D' : Document) :
  _add_to_comments_extended_xml cfg html_unescape template para_id
    parent_para_id D = (inr tt, D') ->
  same_but comments_extended_xml D D'
  /\ exists d' root rn entry,
       files D' !! comments_extended_xml = Some d'
       /\ node_at d' root = Some rn
       /\ nodeName rn = "w15:commentsEx"
       /\ last (childNodes rn) = Some entry
       /\ comment_ex_xml para_id parent_para_id = inr [entry].
Proof.
  intros Hrun. unfold _add_to_comments_extended_xml in Hrun.
  rewrite dbind_run in Hrun.
  destruct (copy_template_run comments_extended_xml "commentsExtended.xml" D)
    as (D0 & Hcopy & Hc & Hframe0).
  rewrite Hcopy in Hrun.
  pose proof (append_to_root_frame comments_extended_xml "w15:commentsEx"
                (comment_ex_xml para_id parent_para_id) D0) as Hframe1.
  rewrite Hrun in Hframe1. simpl in Hframe1.
  split; [by apply (same_but_trans _ D D0)|].
  destruct (append_to_root_fragment _ _ _ _ _ Hrun) as [nodes Hnodes].
  rewrite Hnodes in Hrun.
  destruct (comment_ex_shape _ _ _ Hnodes) as [attrs ->].
  destruct (append_to_root_spec _ _ _ _ _ Hrun eq_refl eq_refl)
    as (d & root & rn & d' & Hd & Hroot & Hne & Hrn & Hd' & _ & _ & Hleaf).
  rewrite (Hleaf "w15:commentEx" attrs) in Hd' by done.
  destruct (get_node_in_found _ _ _ _ _ Hroot) as (rn' & _ & Hrn' & Hrel & Htag).
  rewrite Hrn in Hrn'. injection Hrn' as <-.
  eexists _, root, _, (leaf "w15:commentEx" attrs).
  split; [exact Hd'|]. split; [by apply node_at_update_same|].
  destruct rn as [t a pos cs|x|x]; [|done..]. simpl.
  split; [unfold tag_matches in Htag; simpl in Htag;
          by apply bool_decide_eq_true in Htag|].
  split; [apply last_snoc|done].
Qed.

(** *** The four files together *)

Lemma add_to_ids_frame (para_id durable_id : string) (D : Document) :
  same_but comments_ids_xml D
    (snd (_add_to_comments_ids_xml cfg html_unescape template para_id
            durable_id D)).
Proof.
  unfold _add_to_comments_ids_xml. rewrite dbind_run.
  destruct (copy_template_run comments_ids_xml "commentsIds.xml" D)
    as (D0 & -> & _ & Hframe0).
  eapply same_but_trans; [exact Hframe0|apply append_to_root_frame].
Qed.

Lemma add_to_extensible_frame (durable_id : string) (D : Document) :
  same_but comments_extensible_xml D
    (snd (_add_to_comments_extensible_xml cfg html_unescape template
            durable_id D)).
Proof.
  unfold _add_to_comments_extensible_xml. rewrite dbind_run.
  destruct (copy_template_run comments_extensible_xml
              "commentsExtensible.xml" D) as (D0 & -> & _ & Hframe0).
  eapply same_but_trans; [exact Hframe0|apply append_to_root_frame].
Qed.

(** What [add_to_comment_files] leaves of the comments part and of the
    extended part. *)
Lemma add_to_comment_files_steps (comment_id : Z)
    (para_id durable_id text : string) (parent_para_id : option string)
    (timestamp : string) (D D' : Document) :
  add_to_comment_files cfg html_unescape template comment_id para_id
    durable_id text parent_para_id timestamp D = (inr tt, D') ->
  exists D1 D2,
    _add_to_comments_xml cfg html_unescape template comment_id para_id text
      (author cfg) (initials cfg) timestamp D = (inr tt, D1)
    /\ _add_to_comments_extended_xml cfg html_unescape template para_id
         parent_para_id D1 = (inr tt, D2)
    /\ files D' !! comments_xml = files D1 !! comments_xml
    /\ files D' !! comments_extended_xml = files D2 !! comments_extended_xml
    /\ existing_comments D' = existing_comments D
    /\ next_comment_id D' = next_comment_id D.
Proof.
  intros Hrun. unfold add_to_comment_files in Hrun.
  rewrite dbind_run in Hrun.
  destruct (_add_to_comments_xml _ _ _ _ _ _ _ _ _ D) as [[e|[]] D1] eqn:H1;
    [done|].
  rewrite dbind_run in Hrun.
  destruct (_add_to_comments_extended_xml _ _ _ _ _ D1) as [[e|[]] D2] eqn:H2;
    [done|].
  rewrite dbind_run in Hrun.
  pose proof (add_to_ids_frame para_id durable_id D2) as H3.
  destruct (_add_to_comments_ids_xml _ _ _ _ _ D2) as [[e|[]] D3]; [done|].
  pose proof (add_to_extensible_frame durable_id D3) as H4.
  rewrite Hrun in H4. simpl in H3, H4.
  exists D1, D2. split; [done|]. split; [done|].
  destruct H3 as (Hf3 & He3 & Hn3), H4 as (Hf4 & He4 & Hn4).
  assert (same_but comments_xml D D1) as (Hf1 & He1 & Hn1).
  { pose proof (copy_template_frame comments_xml "comments.xml" D) as Ha.
    unfold _add_to_comments_xml in H1. rewrite dbind_run in H1.
    destruct (copy_template_if_missing _ _ _ D) as [[e|[]] D0]; [done|].
    pose proof (append_to_root_frame comments_xml "w:comments"
                  (comment_xml comment_id para_id text) D0) as Hb.
    rewrite H1 in Hb. by apply (same_but_trans _ D D0). }
  destruct (proj1 (add_to_extended_step _ _ _ _ H2)) as (Hf2 & He2 & Hn2).
  split; [by rewrite Hf4, Hf3, Hf2|]. split; [by rewrite Hf4, Hf3|].
  split; congruence.
Qed.

(** *** The two public methods, step by step *)

Lemma counters_frame (xml_path : string) (D : Document) (t r : nat) :
  same_but xml_path D
    (Build_Document (files D) (existing_comments D) (next_comment_id D) t r).
Proof. done. Qed.

Lemma record_comment_run (comment_id : Z) (para_id : string) (D : Document) :
  record_comment comment_id para_id D
  = (inr tt,
     Build_Document (files D) (<[ comment_id := para_id ]> (existing_comments D))
       (next_comment_id D + 1) (clock_reads D) (random_draws D)).
Proof. reflexivity. Qed.

(** A reply that returns has found its parent, has changed document.xml
    only before it turns to the comment files, and records the new
    comment. *)
Lemma reply_steps (parent_comment_id : Z) (text : string) (D D' : Document)
    (comment_id : Z) :
  reply_to_comment cfg html_unescape template parent_comment_id text D
  = (inr comment_id, D') ->
  exists parent_para_id draw durable_id timestamp Da Db,
    existing_comments D !! parent_comment_id = Some parent_para_id
    /\ comment_id = next_comment_id D
    /\ same_but document_xml D Da
    /\ add_to_comment_files cfg html_unescape template comment_id
         (Py.format_08X draw) durable_id text (Some parent_para_id) timestamp Da
       = (inr tt, Db)
    /\ files D' = files Db
    /\ existing_comments D'
       = <[ comment_id := Py.format_08X draw ]> (existing_comments D)
    /\ next_comment_id D' = (next_comment_id D + 1)%Z.
Proof.
  intros Hrun. unfold reply_to_comment in Hrun.
  rewrite dbind_run in Hrun. cbv beta iota in Hrun.
  destruct (existing_comments D !! parent_comment_id) as [parent_para_id|]
    eqn:Hparent; [|done].
  rewrite dbind_run in Hrun. cbv beta iota in Hrun.
  rewrite dbind_run in Hrun. unfold generate_hex_id at 1 in Hrun.
  cbv beta iota in Hrun.
  rewrite dbind_run in Hrun. unfold generate_hex_id at 1 in Hrun.
  cbv beta iota in Hrun.
  rewrite dbind_run in Hrun. unfold timestamp_now at 1 in Hrun.
  cbv beta iota in Hrun.
  cbn [files existing_comments next_comment_id clock_reads random_draws]
    in Hrun.
  set (D1 := Build_Document (files D) _ _ _ _) in Hrun.
  assert (same_but document_xml D D1) as Hframe1 by done.
  rewrite dbind_run in Hrun.
  pose proof (editor_frame document_xml
    (get_node html_unescape "w:commentRangeStart"
       (Some [("w:id", Py.str_of_Z parent_comment_id)]) None None) D1) as Hf2.
  destruct (editor document_xml _ D1) as [[e|start] D2]; [done|].
  rewrite dbind_run in Hrun.
  pose proof (editor_frame document_xml
    (get_node html_unescape "w:commentReference"
       (Some [("w:id", Py.str_of_Z parent_comment_id)]) None None) D2) as Hf3.
  destruct (editor document_xml _ D2) as [[e|ref] D3]; [done|].
  rewrite dbind_run in Hrun.
  pose proof (editor_frame document_xml
    (insert_after cfg start (_comment_range_start_xml (next_comment_id D)))
    D3) as Hf4.
  destruct (editor document_xml _ D3) as [[e|nodes] D4]; [done|].
  destruct (parent_of (shift_after start (length nodes) ref))
    as [[run _]|]; [|done].
  rewrite dbind_run in Hrun.
  pose proof (editor_frame document_xml
    (insert_after cfg run
       [leaf "w:commentRangeEnd"
          {[ "w:id" := Py.str_of_Z (next_comment_id D) ]}]) D4) as Hf5.
  destruct (editor document_xml _ D4) as [[e|nodes5] D5]; [done|].
  rewrite dbind_run in Hrun.
  pose proof (editor_frame document_xml
    (insert_after cfg run (_comment_ref_run_xml (next_comment_id D))) D5)
    as Hf6.
  destruct (editor document_xml _ D5) as [[e|nodes6] D6]; [done|].
  rewrite dbind_run in Hrun.
  destruct (add_to_comment_files _ _ _ _ _ _ _ _ _ D6) as [[e|[]] Db] eqn:Hfiles;
    [done|].
  rewrite dbind_run, record_comment_run in Hrun.
  injection Hrun as <- <-. simpl in *.
  assert (same_but document_xml D D6) as Hframe.
  { repeat (eapply same_but_trans; [|eassumption]). exact Hframe1. }
  destruct (add_to_comment_files_steps _ _ _ _ _ _ _ _ Hfiles)
    as (_ & _ & _ & _ & _ & _ & He & Hn).
  destruct Hframe as (Hf & He' & Hn').
  eexists parent_para_id, _, _, _, D6, Db.
  split; [done|]. split; [done|]. split; [done|]. split; [exact Hfiles|].
  split; [done|]. split; [by rewrite He, He'|]. by rewrite Hn, Hn'.
Qed.

Lemma add_comment_steps (start end_ : path) (text : string) (D D' : Document)
    (comment_id : Z) :
  add_comment cfg html_unescape template start end_ text D
  = (inr comment_id, D') ->
  exists draw durable_id timestamp Da Db,
    comment_id = next_comment_id D
    /\ same_but document_xml D Da
    /\ add_to_comment_files cfg html_unescape template comment_id
         (Py.format_08X draw) durable_id text None timestamp Da
       = (inr tt, Db)
    /\ files D' = files Db
    /\ existing_comments D'
       = <[ comment_id := Py.format_08X draw ]> (existing_comments D)
    /\ next_comment_id D' = (next_comment_id D + 1)%Z.
Proof.
  intros Hrun. unfold add_comment in Hrun.
  rewrite dbind_run in Hrun. cbv beta iota in Hrun.
  rewrite dbind_run in Hrun. unfold generate_hex_id at 1 in Hrun.
  cbv beta iota in Hrun.
  rewrite dbind_run in Hrun. unfold generate_hex_id at 1 in Hrun.
  cbv beta iota in Hrun.
  rewrite dbind_run in Hrun. unfold timestamp_now at 1 in Hrun.
  cbv beta iota in Hrun.
  cbn [files existing_comments next_comment_id clock_reads random_draws]
    in Hrun.
  set (D1 := Build_Document (files D) _ _ _ _) in Hrun.
  assert (same_but document_xml D D1) as Hframe1 by done.
  rewrite dbind_run in Hrun.
  pose proof (editor_frame document_xml
    (insert_before cfg start (_comment_range_start_xml (next_comment_id D)))
    D1) as Hf2.
  destruct (editor document_xml _ D1) as [[e|nodes] D2]; [done|].
  rewrite dbind_run in Hrun.
  pose proof (editor_frame document_xml
    (deref (shift_before start (length nodes) end_)) D2) as Hf3.
  destruct (editor document_xml _ D2) as [[e|target] D3]; [done|].
  rewrite dbind_run in Hrun.
  assert (exists D4,
    same_but document_xml D3 D4
    /\ (add_to_comment_files cfg html_unescape template (next_comment_id D)
          (Py.format_08X (Py.randint 1 0x7FFFFFFE (random cfg (random_draws D))))
          (Py.format_08X
             (Py.randint 1 0x7FFFFFFE (random cfg (S (random_draws D)))))
          text None (clock cfg (clock_reads D))
        ≫= λ _ : (),
             record_comment (next_comment_id D)
               (Py.format_08X
                  (Py.randint 1 0x7FFFFFFE (random cfg (random_draws D))))
             ≫= λ _ : (), mret (next_comment_id D)) D4
       = (inr comment_id, D')) as (D4 & Hf4 & Hrest).
  { destruct (negb (is_element target)
              || bool_decide (shift_before start (length nodes) end_ = []));
      [done|].
    destruct (bool_decide (nodeName target = "w:p")).
    - rewrite dbind_run in Hrun.
      pose proof (editor_frame document_xml
        (append_to cfg (shift_before start (length nodes) end_)
           (_comment_range_end_xml (next_comment_id D))) D3) as Hf.
      destruct (editor document_xml _ D3) as [[e|refs] D4]; [done|].
      by exists D4.
    - rewrite dbind_run in Hrun.
      pose proof (editor_frame document_xml
        (insert_after cfg (shift_before start (length nodes) end_)
           (_comment_range_end_xml (next_comment_id D))) D3) as Hf.
      destruct (editor document_xml _ D3) as [[e|refs] D4]; [done|].
      by exists D4. }
  clear Hrun. rewrite dbind_run in Hrest.
  destruct (add_to_comment_files _ _ _ _ _ _ _ _ _ D4) as [[e|[]] Db] eqn:Hfiles;
    [done|].
  rewrite dbind_run, record_comment_run in Hrest.
  injection Hrest as <- <-. simpl in *.
  assert (same_but document_xml D D4) as Hframe.
  { repeat (eapply same_but_trans; [|eassumption]). exact Hframe1. }
  destruct (add_to_comment_files_steps _ _ _ _ _ _ _ _ Hfiles)
    as (_ & _ & _ & _ & _ & _ & He & Hn).
  destruct Hframe as (Hf & He' & Hn').
  eexists _, _, _, D4, Db.
  split; [done|]. split; [done|]. split; [exact Hfiles|].
  split; [done|]. split; [by rewrite He, He'|]. by rewrite Hn, Hn'.
Qed.

(** A comment that stands alone under its id is what [get_node] finds. *)
Lemma comment_at_found (c : node) (comment_id : Z) (p : path) (body : string) :
  comment_at c comment_id p body ->
  get_node_in html_unescape c "w:comment"
    (Some [("w:id", Py.str_of_Z comment_id)]) None None = inr p
  /\ visible_text <$> node_at c p = Some body.
Proof.
  intros (e & Hp & He & Hel & Hname & Hid & Htext & _ & Hunique).
  split; [|by rewrite He; simpl; rewrite Htext].
  apply (get_node_in_unique _ c "w:comment" _ p e); try done.
  - by intros kv ->%list_elem_of_singleton.
  - intros q e' Hq _ Hname' Hattrs. apply (Hunique q e' Hq Hname').
    apply (Hattrs ("w:id", Py.str_of_Z comment_id)). by left.
Qed.

(** The comments part and the extended part after the four files have been
    written. *)
Lemma comment_files_written (comment_id : Z) (para_id durable_id text : string)
    (parent_para_id : option string) (timestamp : string) (D D' : Document) :
  add_to_comment_files cfg html_unescape template comment_id para_id
    durable_id text parent_para_id timestamp D = (inr tt, D') ->
  (exists d' root rn entry,
     files D' !! comments_extended_xml = Some d'
     /\ node_at d' root = Some rn /\ nodeName rn = "w15:commentsEx"
     /\ last (childNodes rn) = Some entry
     /\ comment_ex_xml para_id parent_para_id = inr [entry])
  /\ let c := default (template "comments.xml") (files D !! comments_xml) in
     (ids_below c comment_id -> root_is_no_comment c ->
      exists c' p,
        files D' !! comments_xml = Some c'
        /\ ids_below c' (comment_id + 1) /\ root_is_no_comment c'
        /\ comment_at c' comment_id p (Py.normalize_eol text)
        /\ forall id0 p0 body0,
             comment_at c id0 p0 body0 -> comment_at c' id0 p0 body0).
Proof.
  intros Hrun.
  destruct (add_to_comment_files_steps _ _ _ _ _ _ _ _ Hrun)
    as (D1 & D2 & H1 & H2 & Hc & Hx & _ & _).
  split.
  - destruct (add_to_extended_step _ _ _ _ H2) as (_ & d' & root & rn & entry & H).
    exists d', root, rn, entry. by rewrite Hx.
  - intros c Hids Hplain.
    destruct (add_to_comments_step _ _ _ _ _ _ _ _ H1 Hids Hplain)
      as (_ & c' & p & H). exists c', p. by rewrite Hc.
Qed.

Lemma comment_ex_attributes (para_id parent_id : string) (entry : node) :
  parsed_value para_id = inr para_id ->
  comment_ex_xml para_id (Some parent_id) = inr [entry] ->
  nodeName entry = "w15:commentEx"
  /\ getAttribute entry "w15:paraId" = para_id
  /\ getAttribute entry "w15:paraIdParent" = Py.normalize_attribute parent_id
  /\ (parent_id <> "" -> hasAttribute entry "w15:paraIdParent" = true).
Proof.
  intros Hpara. unfold comment_ex_xml. rewrite Hpara.
  case_bool_decide as Hempty.
  - subst parent_id. intros [= <-]. by vm_compute.
  - unfold parsed_value. destruct (string_forall plain_char parent_id); [|done].
    intros [= <-]. split; [done|]. unfold getAttribute, hasAttribute. simpl.
    split; [by rewrite lookup_insert_eq|].
    rewrite lookup_insert_ne by done. rewrite lookup_insert_eq.
    split; [done|]. intros _. apply bool_decide_eq_true. by eexists.
Qed.

Lemma to_hex_not_empty (fuel : nat) (n : N) (acc : string) :
  acc <> "" -> Py.to_hex fuel n acc <> "".
Proof.
  revert n acc. induction fuel as [|fuel IH]; intros n acc Hacc; [done|].
  simpl. destruct (n / 16 =? 0)%N; [done|]. by apply IH.
Qed.

Lemma format_08X_not_empty (n : N) : Py.format_08X n <> "".
Proof.
  unfold Py.format_08X, Py.format_X. intros Hempty.
  assert (forall a b : string, a +:+ b = "" -> b = "") as Happ.
  { intros [|c a] b; [done|]. by rewrite append_cons. }
  apply Happ in Hempty. revert Hempty. simpl.
  destruct (n / 16 =? 0)%N; [done|]. by apply to_hex_not_empty.
Qed.

Lemma parsed_value_normalized (value value' : string) :
  parsed_value value = inr value' -> value' = Py.normalize_attribute value.
Proof.
  unfold parsed_value. destruct (string_forall plain_char value); [|done].
  by intros [= <-].
Qed.


End WithSession.


End CommentFacts.

(** ** The ID-uniqueness check *)

Section UniqueIdsFacts.
Import UniqueIds.

Variable not_a_string : string.

Local Abbreviation check_elem := (UniqueIds.check_elem).
Local Abbreviation check_elems := (UniqueIds.check_elems).
Local Abbreviation check_file := (UniqueIds.check_file not_a_string).
Local Abbreviation id_errors := (UniqueIds.unique_id_errors not_a_string).
Local Abbreviation validate := (UniqueIds.validate_unique_ids not_a_string).

Lemma id_entry_element (n : node) k a sc v :
  id_entry n = Some (k, a, sc, v) ->
  exists tg attrib line cs,
    n = Element tg attrib line cs /\ k = local_lower tg
    /\ UNIQUE_ID_REQUIREMENTS !! k = Some (a, sc)
    /\ find_id a attrib = Some v.
Proof.
  destruct n as [tg attrib line cs|]; [|done]. unfold id_entry.
  destruct (UNIQUE_ID_REQUIREMENTS !! local_lower tg) as [[a' sc']|] eqn:Hreq; [|done].
  destruct (find_id a' attrib) as [v'|] eqn:Hfind; [|done].
  intros [= <- <- <- <-]. exists tg, attrib, line, cs. repeat split; assumption.
Qed.

(** One turn only ever adds errors and entries. *)
Lemma check_elem_mono rel e s s' :
  check_elem rel e s = Some s' ->
  length (errors s) <= length (errors s')
  /\ (forall v, is_Some (global_ids s !! v) -> is_Some (global_ids s' !! v))
  /\ (forall k a v, seen_in_file s k a v -> seen_in_file s' k a v).
Proof.
  unfold UniqueIds.check_elem. intros H.
  destruct e as [tg attrib line cs|]; [|done].
  destruct (UNIQUE_ID_REQUIREMENTS !! local_lower tg) as [[a sc]|];
    [|injection H as <-; auto].
  destruct (find_id a attrib) as [v|]; [|injection H as <-; auto].
  destruct sc.
  - destruct (default ∅ (file_ids s !! (local_lower tg, a)) !! v) as [prev|] eqn:Hseen;
      injection H as <-; simpl.
    + split; [rewrite length_app; lia|]. split; [auto|].
      intros k a' v' (m & Hm & Hv). unfold seen_in_file. simpl.
      destruct (decide ((local_lower tg, a) = (k, a'))) as [Heq|Hne].
      * rewrite Heq in *. rewrite lookup_insert_eq. rewrite Hm. simpl. eauto.
      * rewrite lookup_insert_ne by done. eauto.
    + split; [lia|]. split; [auto|].
      intros k a' v' (m & Hm & Hv). unfold seen_in_file. simpl.
      destruct (decide ((local_lower tg, a) = (k, a'))) as [Heq|Hne].
      * rewrite Heq in *. rewrite lookup_insert_eq. rewrite Hm. simpl.
        eexists. split; [done|].
        destruct (decide (v = v')) as [->|]; [by rewrite lookup_insert_eq|].
        by rewrite lookup_insert_ne.
      * rewrite lookup_insert_ne by done. eauto.
  - destruct (global_ids s !! v) as [[[pf pl] pt]|] eqn:Hg; injection H as <-; simpl.
    + split; [rewrite length_app; lia|]. auto.
    + split; [lia|]. split; [|auto]. intros v' Hv'.
      destruct (decide (v = v')) as [->|]; [by rewrite lookup_insert_eq|].
      by rewrite lookup_insert_ne.
Qed.

Lemma check_elems_mono rel l s s' r :
  check_elems rel l s = (s', r) ->
  length (errors s) <= length (errors s')
  /\ (forall v, is_Some (global_ids s !! v) -> is_Some (global_ids s' !! v))
  /\ (forall k a v, seen_in_file s k a v -> seen_in_file s' k a v).
Proof.
  revert s. induction l as [|e l IH]; intros s H; simpl in H.
  - injection H as <- <-. auto.
  - destruct (check_elem rel e s) as [s1|] eqn:He.
    + apply check_elem_mono in He as (H1 & H2 & H3).
      apply IH in H as (H1' & H2' & H3'). split; [lia|]. split; auto.
    + injection H as <- <-. auto.
Qed.

Lemma check_elems_app rel l1 l2 s :
  check_elems rel (l1 ++ l2) s
  = let '(s1, r1) := check_elems rel l1 s in
    if r1 then (s1, true) else check_elems rel l2 s1.
Proof.
  revert s. induction l1 as [|e l1 IH]; intros s; simpl; [done|].
  destruct (check_elem rel e s); [apply IH | done].
Qed.

(** A file-scoped id is seen once its element has been visited ... *)
Lemma check_elem_file_seen rel x s s' k a v :
  id_entry x = Some (k, a, File, v) ->
  check_elem rel x s = Some s' -> seen_in_file s' k a v.
Proof.
  intros (tg & attrib & line & cs & -> & -> & Hreq & Hfind)%id_entry_element.
  unfold UniqueIds.check_elem. rewrite Hreq, Hfind.
  destruct (default ∅ (file_ids s !! (local_lower tg, a)) !! v) as [prev|] eqn:Hseen;
    intros [= <-]; unfold seen_in_file; simpl; rewrite lookup_insert_eq;
    eexists; (split; [done|]).
  - by rewrite Hseen.
  - by rewrite lookup_insert_eq.
Qed.

(** ... and the next element with that id adds an error. *)
Lemma check_elem_file_dup rel y s k a v :
  id_entry y = Some (k, a, File, v) -> seen_in_file s k a v ->
  exists s', check_elem rel y s = Some s'
             /\ length (errors s) < length (errors s').
Proof.
  intros (tg & attrib & line & cs & -> & -> & Hreq & Hfind)%id_entry_element
         (m & Hm & [prev Hprev]).
  unfold UniqueIds.check_elem. rewrite Hreq, Hfind, Hm. simpl. rewrite Hprev.
  eexists. split; [done|]. simpl. rewrite length_app. simpl. lia.
Qed.

Lemma check_elem_global_seen rel x s s' k a v :
  id_entry x = Some (k, a, Global, v) ->
  check_elem rel x s = Some s' -> is_Some (global_ids s' !! v).
Proof.
  intros (tg & attrib & line & cs & -> & -> & Hreq & Hfind)%id_entry_element.
  unfold UniqueIds.check_elem. rewrite Hreq, Hfind.
  destruct (global_ids s !! v) as [[[pf pl] pt]|] eqn:Hg; intros [= <-]; simpl.
  - by rewrite Hg.
  - by rewrite lookup_insert_eq.
Qed.

Lemma check_elem_global_dup rel y s k a v :
  id_entry y = Some (k, a, Global, v) -> is_Some (global_ids s !! v) ->
  exists s', check_elem rel y s = Some s'
             /\ length (errors s) < length (errors s').
Proof.
  intros (tg & attrib & line & cs & -> & -> & Hreq & Hfind)%id_entry_element
         [[[pf pl] pt] Hg].
  unfold UniqueIds.check_elem. rewrite Hreq, Hfind, Hg.
  eexists. split; [done|]. simpl. rewrite length_app. simpl. lia.
Qed.

(** Two visited elements with the same id, the check of the list: it raises
    or it adds an error. *)
Lemma check_elems_dup rel l s s' r x y k a sc v :
  before x y l ->
  id_entry x = Some (k, a, sc, v) -> id_entry y = Some (k, a, sc, v) ->
  check_elems rel l s = (s', r) ->
  r = true \/ length (errors s) < length (errors s').
Proof.
  intros (l1 & l2 & l3 & ->) Hx Hy.
  rewrite check_elems_app.
  destruct (check_elems rel l1 s) as [s1 r1] eqn:H1.
  apply check_elems_mono in H1 as (Hl1 & _ & _).
  destruct r1; [intros [= <- <-]; by left|]. simpl.
  destruct (check_elem rel x s1) as [s2|] eqn:H2; [|intros [= <- <-]; by left].
  rewrite check_elems_app.
  destruct (check_elems rel l2 s2) as [s3 r3] eqn:H3.
  destruct r3; [intros [= <- <-]; by left|]. simpl.
  pose proof (check_elem_mono _ _ _ _ H2) as (Hl2 & _ & _).
  pose proof (check_elems_mono _ _ _ _ _ H3) as (Hl3 & Hg3 & Hf3).
  assert (exists s4, check_elem rel y s3 = Some s4
                     /\ length (errors s3) < length (errors s4)) as (s4 & -> & Hl4).
  { destruct sc.
    - apply (check_elem_file_dup rel y s3 k a v Hy).
      apply Hf3. by apply (check_elem_file_seen rel x s1).
    - apply (check_elem_global_dup rel y s3 k a v Hy).
      apply Hg3. by apply (check_elem_global_seen rel x s1 s2 k a). }
  intros H5. apply check_elems_mono in H5 as (Hl5 & _ & _). right. lia.
Qed.

(** A visited element with a global id already in the dictionary. *)
Lemma check_elems_global_known rel l s s' r y k a v :
  y ∈ l -> id_entry y = Some (k, a, Global, v) ->
  is_Some (global_ids s !! v) ->
  check_elems rel l s = (s', r) ->
  r = true \/ length (errors s) < length (errors s').
Proof.
  intros (l1 & l2 & ->)%list_elem_of_split Hy Hv.
  rewrite check_elems_app.
  destruct (check_elems rel l1 s) as [s1 r1] eqn:H1.
  apply check_elems_mono in H1 as (Hl1 & Hg1 & _).
  destruct r1; [intros [= <- <-]; by left|]. simpl.
  destruct (check_elem_global_dup rel y s1 k a v Hy (Hg1 _ Hv)) as (s2 & -> & Hl2).
  intros H3. apply check_elems_mono in H3 as (Hl3 & _ & _). right. lia.
Qed.

(** A visited element with a global id: the check raises or the id is in
    the dictionary afterwards. *)
Lemma check_elems_global_seen rel l s s' r x k a v :
  x ∈ l -> id_entry x = Some (k, a, Global, v) ->
  check_elems rel l s = (s', r) ->
  r = true \/ is_Some (global_ids s' !! v).
Proof.
  intros (l1 & l2 & ->)%list_elem_of_split Hx.
  rewrite check_elems_app.
  destruct (check_elems rel l1 s) as [s1 r1] eqn:H1.
  destruct r1; [intros [= <- <-]; by left|]. simpl.
  destruct (check_elem rel x s1) as [s2|] eqn:H2; [|intros [= <- <-]; by left].
  intros H3. apply check_elems_mono in H3 as (_ & Hg3 & _). right.
  apply Hg3. by apply (check_elem_global_seen rel x s1 s2 k a).
Qed.

(** *** One file, then the package *)

Lemma check_file_mono acc f :
  length (fst acc) <= length (fst (check_file acc f))
  /\ (forall v, is_Some (snd acc !! v) -> is_Some (snd (check_file acc f) !! v)).
Proof.
  unfold UniqueIds.check_file. destruct (snd f) as [e|root].
  - simpl. rewrite length_app. split; [lia|auto].
  - destruct (check_elems _ _ _) as [s r] eqn:H.
    apply check_elems_mono in H as (Hl & Hg & _). simpl in *.
    destruct r; simpl; [rewrite length_app|]; split; auto; lia.
Qed.

Lemma fold_check_file_mono files acc :
  length (fst acc) <= length (fst (fold_left check_file files acc))
  /\ (forall v, is_Some (snd acc !! v) ->
                is_Some (snd (fold_left check_file files acc) !! v)).
Proof.
  revert acc. induction files as [|f files IH]; intros acc; simpl; [auto|].
  destruct (check_file_mono acc f) as [Hl Hg].
  destruct (IH (check_file acc f)) as [Hl' Hg']. split; [lia|auto].
Qed.

Lemma check_file_dup acc rel root x y k a sc v :
  before x y (visited (Parsed root)) ->
  id_entry x = Some (k, a, sc, v) -> id_entry y = Some (k, a, sc, v) ->
  length (fst acc) < length (fst (check_file acc (rel, Parsed root))).
Proof.
  intros Hb Hx Hy. unfold UniqueIds.check_file. simpl in *.
  destruct (check_elems _ _ _) as [s r] eqn:H.
  pose proof (check_elems_mono _ _ _ _ _ H) as (Hl & _ & _).
  destruct (check_elems_dup _ _ _ _ _ _ _ _ _ _ _ Hb Hx Hy H) as [->|Hlt];
    simpl in *.
  - rewrite length_app. simpl. lia.
  - destruct r; simpl; [rewrite length_app|]; lia.
Qed.

Lemma check_file_global_known acc rel root y k a v :
  y ∈ visited (Parsed root) -> id_entry y = Some (k, a, Global, v) ->
  is_Some (snd acc !! v) ->
  length (fst acc) < length (fst (check_file acc (rel, Parsed root))).
Proof.
  intros Hin Hy Hv. unfold UniqueIds.check_file. simpl in *.
  destruct (check_elems _ _ _) as [s r] eqn:H.
  pose proof (check_elems_mono _ _ _ _ _ H) as (Hl & _ & _).
  destruct (check_elems_global_known rel _ (Checking (fst acc) (snd acc) ∅)
              s r y k a v Hin Hy Hv H) as [->|Hlt];
    simpl in *.
  - rewrite length_app. simpl. lia.
  - destruct r; simpl; [rewrite length_app|]; lia.
Qed.

Lemma check_file_global_seen acc rel root x k a v :
  x ∈ visited (Parsed root) -> id_entry x = Some (k, a, Global, v) ->
  length (fst acc) < length (fst (check_file acc (rel, Parsed root)))
  \/ is_Some (snd (check_file acc (rel, Parsed root)) !! v).
Proof.
  intros Hin Hx. unfold UniqueIds.check_file. simpl in *.
  destruct (check_elems _ _ _) as [s r] eqn:H.
  pose proof (check_elems_mono _ _ _ _ _ H) as (Hl & _ & _).
  destruct (check_elems_global_seen _ _ _ _ _ _ _ _ _ Hin Hx H) as [->|Hv];
    simpl in *.
  - left. rewrite length_app. simpl. lia.
  - right. by destruct r.
Qed.

Lemma validate_false_iff files :
  validate files = false <-> 0 < length (id_errors files).
Proof.
  unfold UniqueIds.validate_unique_ids.
  destruct (id_errors files); simpl; split; (done || lia).
Qed.

(** A file with two visited elements of one kind and one id value fails
    the check of any package it is in. *)
Lemma duplicate_in_file_reported files1 files2 rel root x y k a sc v :
  before x y (visited (Parsed root)) ->
  id_entry x = Some (k, a, sc, v) -> id_entry y = Some (k, a, sc, v) ->
  validate (files1 ++ (rel, Parsed root) :: files2) = false.
Proof.
  intros Hb Hx Hy. apply validate_false_iff.
  unfold UniqueIds.unique_id_errors. rewrite fold_left_app. simpl.
  set (acc := fold_left check_file files1 ([], ∅)).
  pose proof (check_file_dup acc rel root x y k a sc v Hb Hx Hy) as Hlt.
  destruct (fold_check_file_mono files2 (check_file acc (rel, Parsed root))) as [Hl _].
  lia.
Qed.

(** Two visited elements of global scope with one id value, in two files of
    the package: the check fails. *)
Lemma duplicate_global_reported files1 files2 files3 rel1 root1 rel2 root2
    x y k1 a1 k2 a2 v :
  x ∈ visited (Parsed root1) -> y ∈ visited (Parsed root2) ->
  id_entry x = Some (k1, a1, Global, v) -> id_entry y = Some (k2, a2, Global, v) ->
  validate (files1 ++ (rel1, Parsed root1) :: files2
            ++ (rel2, Parsed root2) :: files3) = false.
Proof.
  intros Hxin Hyin Hx Hy. apply validate_false_iff.
  unfold UniqueIds.unique_id_errors. rewrite fold_left_app. simpl.
  set (acc := fold_left check_file files1 ([], ∅)).
  rewrite fold_left_app. simpl.
  set (acc1 := check_file acc (rel1, Parsed root1)).
  set (acc2 := fold_left check_file files2 acc1).
  destruct (fold_check_file_mono files2 acc1) as [Hl2 Hg2]. fold acc2 in Hl2, Hg2.
  destruct (check_file_mono acc2 (rel2, Parsed root2)) as [Hl3 _].
  destruct (fold_check_file_mono files3 (check_file acc2 (rel2, Parsed root2)))
    as [Hl4 _].
  destruct (check_file_global_seen acc rel1 root1 x k1 a1 v Hxin Hx) as [Hlt|Hv].
  - fold acc1 in Hlt. lia.
  - fold acc1 in Hv. apply Hg2 in Hv.
    pose proof (check_file_global_known acc2 rel2 root2 y k2 a2 v Hyin Hy Hv). lia.
Qed.

(** *** File scope is per file *)

Lemma check_elem_frame rel e errs e0 g fi :
  scope_of e <> Some Global ->
  check_elem rel e (Checking (errs ++ e0) g fi)
  = (fun s1 => Checking (errs ++ errors s1) g (file_ids s1))
      <$> check_elem rel e (Checking e0 ∅ fi)
  /\ (forall s1, check_elem rel e (Checking e0 ∅ fi) = Some s1 ->
                 global_ids s1 = ∅).
Proof.
  unfold scope_of, id_entry, UniqueIds.check_elem.
  destruct e as [tg attrib line cs|]; [|done].
  destruct (UNIQUE_ID_REQUIREMENTS !! local_lower tg) as [[a sc]|];
    [|by split; [|intros ? [= <-]]].
  destruct (find_id a attrib) as [v|]; [|by split; [|intros ? [= <-]]].
  destruct sc; [|done]. intros _. simpl.
  destruct (default ∅ (fi !! (local_lower tg, a)) !! v) as [prev|]; simpl.
  - split; [by rewrite app_assoc | by intros ? [= <-]].
  - split; [done | by intros ? [= <-]].
Qed.

Lemma check_elems_frame rel l errs e0 g fi :
  (forall e, e ∈ l -> scope_of e <> Some Global) ->
  check_elems rel l (Checking (errs ++ e0) g fi)
  = (Checking (errs ++ errors (fst (check_elems rel l (Checking e0 ∅ fi)))) g
              (file_ids (fst (check_elems rel l (Checking e0 ∅ fi)))),
     snd (check_elems rel l (Checking e0 ∅ fi))).
Proof.
  revert e0 fi. induction l as [|e l IH]; intros e0 fi Hl; simpl; [done|].
  destruct (check_elem_frame rel e errs e0 g fi) as [-> Hg].
  { apply Hl. by left. }
  destruct (check_elem rel e (Checking e0 ∅ fi)) as [[e1 g1 fi1]|] eqn:He; simpl.
  - specialize (Hg _ eq_refl). simpl in Hg. subst g1.
    apply IH. intros e' He'. apply Hl. by right.
  - done.
Qed.

Lemma check_file_frame errs g f :
  no_global_ids (snd f) ->
  check_file (errs, g) f = (errs ++ fst (check_file ([], ∅) f), g).
Proof.
  unfold no_global_ids, UniqueIds.check_file. destruct f as [rel [e|root]]; simpl.
  - done.
  - intros Hno.
    pose proof (check_elems_frame rel (iter (remove_alternate_content root))
                  errs [] g ∅ Hno) as H.
    rewrite app_nil_r in H. rewrite H.
    destruct (check_elems rel _ (Checking [] ∅ ∅)) as [s1 r]. simpl.
    destruct r; simpl; [by rewrite app_assoc | done].
Qed.

Lemma fold_check_file_frame files errs g :
  (forall f, f ∈ files -> no_global_ids (snd f)) ->
  fold_left check_file files (errs, g)
  = (errs ++ flat_map (fun f => id_errors [f]) files, g).
Proof.
  revert errs. induction files as [|f files IH]; intros errs Hno; simpl.
  - by rewrite app_nil_r.
  - rewrite check_file_frame by (apply Hno; by left).
    rewrite IH by (intros f' Hf'; apply Hno; by right).
    by rewrite <- app_assoc.
Qed.

(** In a package without ids of global scope, the errors are those of each
    file checked alone. *)
Lemma id_errors_per_file files :
  (forall f, f ∈ files -> no_global_ids (snd f)) ->
  id_errors files = flat_map (fun f => id_errors [f]) files.
Proof.
  intros Hno. unfold UniqueIds.unique_id_errors at 1.
  by rewrite fold_check_file_frame.
Qed.

Lemma validate_true_iff files : validate files = true <-> id_errors files = [].
Proof.
  unfold UniqueIds.validate_unique_ids. by destruct (id_errors files).
Qed.

Lemma validate_per_file files :
  (forall f, f ∈ files -> no_global_ids (snd f)) ->
  validate files = true <-> forall f, f ∈ files -> validate [f] = true.
Proof.
  intros Hno. rewrite validate_true_iff, id_errors_per_file by done.
  clear Hno. induction files as [|f files IH]; simpl.
  - split; [intros _ f Hf; inversion Hf | done].
  - split.
    + intros [Hf Hfs]%app_eq_nil f' [->|Hf']%elem_of_cons.
      * by apply validate_true_iff.
      * by apply IH.
    + intros H. apply app_nil. split.
      * apply validate_true_iff, H. by left.
      * apply IH. intros f' Hf'. apply H. by right.
Qed.

(** *** Alternate-content blocks *)

Lemma id_node_ind (P : node -> Prop) :
  (forall tg a line cs, Forall P cs -> P (Element tg a line cs)) ->
  P Other -> forall n, P n.
Proof.
  intros He Ho. fix self 1. intros [tg a line cs|]; [|exact Ho]. apply He.
  induction cs as [|c cs IHcs]; constructor; [apply self | exact IHcs].
Qed.

Lemma is_alternate_content_removed (n : node) :
  is_alternate_content (remove_alternate_content n) = is_alternate_content n.
Proof. by destruct n. Qed.

(** No alternate-content block is left below the root. *)
Lemma alternate_content_gone (root x : node) :
  x ∈ flat_map iter
        (match remove_alternate_content root with
         | Element _ _ _ cs => cs
         | Other => []
         end) ->
  is_alternate_content x = false.
Proof.
  revert x. induction root as [tg a line cs IH|] using id_node_ind; intros x;
    [|by intros ?%elem_of_nil].
  simpl. intros Hx. apply list_elem_of_In, in_flat_map in Hx as (c' & Hc' & Hx).
  apply in_flat_map in Hc' as (c & Hc & Hc').
  destruct (is_alternate_content c) eqn:Hmc; [done|].
  destruct Hc' as [<-|[]].
  rewrite Forall_forall in IH. specialize (IH c (proj2 (list_elem_of_In _ _) Hc)).
  destruct c as [tg' a' line' cs'|]; simpl in *.
  - destruct Hx as [<-|Hx]; [done|]. apply IH, list_elem_of_In, Hx.
  - destruct Hx as [<-|[]]. done.
Qed.

Lemma remove_alternate_content_idemp (n : node) :
  remove_alternate_content (remove_alternate_content n)
  = remove_alternate_content n.
Proof.
  induction n as [tg a line cs IH|] using id_node_ind; [|done]. simpl. f_equal.
  induction IH as [|c cs Hc _ IHcs]; [done|]. simpl.
  destruct (is_alternate_content c) eqn:Hmc; [done|]. simpl.
  rewrite is_alternate_content_removed, Hmc. simpl. by rewrite Hc, IHcs.
Qed.

(** The check reads a file through [remove_alternate_content] alone. *)
Lemma validate_strip files : validate (map strip_file files) = validate files.
Proof.
  unfold UniqueIds.validate_unique_ids, UniqueIds.unique_id_errors.
  generalize (([], ∅) : list string * gmap string (string * nat * string)).
  induction files as [|f files IH]; intros acc; [done|]. simpl.
  assert (check_file acc (strip_file f) = check_file acc f) as ->; [|apply IH].
  unfold UniqueIds.check_file, strip_file. destruct f as [rel [e|root]]; [done|].
  simpl. by rewrite remove_alternate_content_idemp.
Qed.

(** *** The claim on the ID-uniqueness check *)


End UniqueIdsFacts.


(** ** XSD validation diffed against the baseline *)

Section XsdFacts.
Import Xsd.

Variable content : Type.
Variable schema_check : string -> bool -> content -> outcome.
Variable io_error : path -> string.

Local Abbreviation single := (_validate_single_file_xsd content schema_check io_error).
Local Abbreviation errors := (errors_of content schema_check io_error).
Local Abbreviation against_xsd := (validate_file_against_xsd content schema_check io_error).

Lemma single_mapped (files : tree content) (base rel : path) (schema : string) :
  _get_schema_path (base ++ rel) = Some schema ->
  exists ok es, single files base rel = (Some ok, Some es)
                /\ (ok = true -> es = ∅).
Proof.
  intros Hs. unfold _validate_single_file_xsd. rewrite Hs.
  destruct (files !! rel) as [doc|]; [|by eexists false, _].
  destruct (schema_check _ _ doc);
    [by eexists true, _ | by eexists false, _ | by eexists false, _].
Qed.

Lemma original_errors_spec (v : validator content) (rel : path)
    (extracted : tree content) :
  original_file v = Some extracted ->
  _get_original_file_errors content schema_check io_error v rel
  = Some (errors extracted (temp_dir v) rel).
Proof.
  intros Ho. unfold _get_original_file_errors, errors_of. rewrite Ho.
  destruct (extracted !! rel) as [doc|]; [|done].
  destruct (snd _) as [es|]; [|done]. simpl.
  case_bool_decide; by subst.
Qed.

Lemma gset_empty_difference (b : gset string) : (∅ : gset string) ∖ b = ∅.
Proof. set_solver. Qed.

Lemma gset_difference_self (b : gset string) : b ∖ b = ∅.
Proof. set_solver. Qed.

Lemma gset_difference_new (b : gset string) (e : string) :
  e ∉ b -> (b ∪ {[ e ]}) ∖ b = {[ e ]}.
Proof. set_solver. Qed.

Lemma gset_singleton_not_empty (e : string) : ({[ e ]} : gset string) <> ∅.
Proof. set_solver. Qed.

(** C2: for a part with a mapped schema (and a baseline archive that
    opens), the reported set is the messages of the working-copy part minus
    those of the baseline's part, and the part passes exactly when that set
    is empty; so equal message sets report nothing, and one new message on
    top of the baseline's reports exactly that message. *)
Theorem C2_xsd_baseline_diff (v : validator content) (rel : path)
    (schema : string) (extracted : tree content) :
  _get_schema_path (unpacked_dir v ++ rel) = Some schema ->
  unpacked v !! rel <> None ->
  original_file v = Some extracted ->
  let current := errors (unpacked v) (unpacked_dir v) rel in
  let baseline := errors extracted (temp_dir v) rel in
  exists is_valid,
    against_xsd v rel = Some (Some is_valid, current ∖ baseline)
    /\ (is_valid = true <-> current ∖ baseline = ∅)
    /\ (current = baseline -> against_xsd v rel = Some (Some true, ∅))
    /\ (forall e, e ∉ baseline -> current = baseline ∪ {[ e ]} ->
                  against_xsd v rel = Some (Some false, {[ e ]})).
Proof.
  intros Hs Hex Ho current baseline.
  assert (exists is_valid,
    against_xsd v rel = Some (Some is_valid, current ∖ baseline)
    /\ (is_valid = true <-> current ∖ baseline = ∅)) as (ok & Hv & Hok).
  { unfold validate_file_against_xsd.
    destruct (single_mapped (unpacked v) _ _ _ Hs) as (ok & es & Hsingle & Hes).
    assert (current = es) as Hcur.
    { subst current. unfold errors_of.
      destruct (unpacked v !! rel); [|done]. by rewrite Hsingle. }
    rewrite Hsingle. rewrite (original_errors_spec v rel extracted Ho).
    fold baseline. clearbody current baseline. subst es. destruct ok.
    - exists true. rewrite Hes by reflexivity. rewrite gset_empty_difference.
      split; [reflexivity | split; reflexivity].
    - simpl. case_bool_decide as Hne.
      + exists false. split; [reflexivity|]. split; [discriminate | by intros ?].
      + exists true. rewrite Hne. split; [reflexivity | split; reflexivity]. }
  clearbody current baseline.
  exists ok. split; [done|]. split; [done|]. split.
  - intros ->. rewrite Hv. rewrite gset_difference_self in *.
    destruct ok; [done|]. by destruct Hok as [_ ->].
  - intros e He ->. rewrite Hv. rewrite gset_difference_new in * by done.
    destruct ok; [|done]. destruct Hok as [Hok _].
    by destruct (gset_singleton_not_empty e (Hok eq_refl)).
Qed.

End XsdFacts.

Lemma demo_errors (base : Xsd.path) (doc : list string) (schema : string) :
  Xsd._get_schema_path (base ++ Xsd.document_xml) = Some schema ->
  doc <> [] ->
  Xsd.errors_of (list string) Xsd.listed_check Xsd.no_such_file
    {[ Xsd.document_xml := doc ]} base Xsd.document_xml
  = list_to_set doc.
Proof.
  intros Hs Hdoc. unfold Xsd.errors_of, Xsd._validate_single_file_xsd.
  rewrite Hs, lookup_singleton_eq. by destruct doc.
Qed.

Lemma C2_xsd_baseline_diff_witness :
  Xsd.validate_file_against_xsd (list string) Xsd.listed_check Xsd.no_such_file
    Xsd.demo_validator Xsd.document_xml
  = Some (Some false, {[ "Element 'w:bar': not expected." ]}).
Proof.
  destruct (C2_xsd_baseline_diff (list string) Xsd.listed_check Xsd.no_such_file
              Xsd.demo_validator Xsd.document_xml
              "ISO-IEC29500-4_2016/wml.xsd"
              {[ Xsd.document_xml := ["Element 'w:foo': not expected."] ]})
    as (ok & _ & _ & _ & Hnew).
  - by vm_compute.
  - unfold Xsd.demo_validator. simpl. by rewrite lookup_singleton_eq.
  - reflexivity.
  - apply (Hnew "Element 'w:bar': not expected.").
    + rewrite (demo_errors _ _ "ISO-IEC29500-4_2016/wml.xsd") by (by vm_compute).
      set_solver.
    + unfold Xsd.demo_validator. simpl.
      rewrite !(demo_errors _ _ "ISO-IEC29500-4_2016/wml.xsd") by (by vm_compute).
      set_solver.
Defined.
